(** * CPTG_Holo_Blend: closed-form holonomic PTG with velocity blending

    Shallow embedding of [libs/nav/src/tpspace/CPTG_Holo_Blend.cpp].

    Numbers.  The C++ [double] is read as a real number: [sqrt], [log],
    [cos], [sin] and [std::abs] are the functions of the Standard Library
    ([sqrt], [ln], [cos], [sin], [Rabs]), [pow] with a positive base is
    [Rpower], and [M_PI] is [PI].  Rounding error and overflow are
    outside this model; the guards of the source that only filter NaN or
    infinite values ([t==t], [isFinite]) are therefore always passed.
    The source produces a NaN from finite values in two places, where the
    functions of real numbers below do not give its value: the closed form
    of the travelled distance takes [log] of 0 on some directions, and
    [getPathStepForDist] takes [sqrt] of a negative distance.  The
    predicates [distance_defined] and [newton_defined] name the directions
    and the runs of the Newton loop on which every logarithm has a positive
    argument; a statement whose truth depends on the value of the closed
    form assumes them, or a start that keeps the source away from the
    logarithms, and a statement on the square root of the distance assumes
    a distance that is not negative.
    [uint16_t] values are integers of [Z]; the one narrowing conversion of
    the file (an [int] stored into a [uint16_t]) is written out as a
    reduction modulo 2^16.

    Control.  [ASSERT_] raises an exception: a function that may raise
    returns an [outcome].  A [bool] function with output arguments returns
    an [option] of the outputs ([None] for [false]). *)

From Stdlib Require Import Reals Lra Psatz ZArith List Bool.
Import ListNotations.
Open Scope R_scope.

(** ** Exceptions *)

Inductive outcome (A : Type) : Type :=
| Returns (a : A)
| Throws.
Arguments Returns {A} a.
Arguments Throws {A}.

Definition bind {A B : Type} (m : outcome A) (f : A -> outcome B) : outcome B :=
  match m with
  | Returns a => f a
  | Throws => Throws
  end.

Notation "x <- m ;; f" := (bind m (fun x => f))
  (at level 61, m at next level, right associativity).

(** Modelled from the spec: the macro [ASSERT_] of the library (not part
    of the sources at hand).  A failed assertion is fatal: the call raises
    when [c] does not hold. *)
Definition ASSERT_ {P Q : Prop} (c : {P} + {Q}) : outcome unit :=
  if c then Returns tt else Throws.

(** ** Data *)

Module TTwist2D.
Record t : Type := mk { vx : R; vy : R; omega : R }.
End TTwist2D.

Module TPose2D.
Record t : Type := mk { x : R; y : R; phi : R }.
End TPose2D.

(** The object.  The last three fields belong to the base class
    [CParameterizedTrajectoryGenerator], which is not part of the sources
    at hand: the number of directions (a [uint16_t]), the normalization
    distance, and the table from a direction index to its angle.  They are
    taken as they come, without any assumption on their values. *)
Record CPTG_Holo_Blend : Type := mkPTG {
  T_ramp : R;
  V_MAX : R;
  W_MAX : R;
  turningRadiusReference : R;
  curVelLocal : TTwist2D.t;
  m_alphaValuesCount : Z;
  refDistance : R;
  index2alpha : Z -> R
}.

Definition PATH_TIME_STEP : R := 10e-3.
Definition eps : R := 1e-5.

(** [std::numeric_limits<double>::max()]: (2 - 2^-52) * 2^1023. *)
Definition DBL_MAX : R := IZR (2 ^ 1024 - 2 ^ 971).

(** Conversion of an [int] to [uint16_t]. *)
Definition to_uint16 (z : Z) : Z := (z mod 65536)%Z.

(** Modelled from the spec: [mrpt::utils::round] (header
    [mrpt/utils/round.h], not part of the sources at hand).  The spec writes
    the step as [round(t / quantum)], the nearest integer; a value half-way
    between two integers is taken upwards here, and nothing below depends
    on that choice. *)
Definition round (v : R) : Z := (up (v + / 2) - 1)%Z.

(** ** Translational distance

    [ln] stands for [log] where the argument is positive; see
    [log_arg_t], [log_arg_t0] and [distance_defined] below for the
    arguments and for the directions on which they are. *)

Definition calc_trans_distance_t_below_Tramp_abc (t a b c : R) : R :=
  let int_t :=
    (t * (1 / 2) + (b * (1 / 4)) / a) * sqrt (c + b * t + a * (t * t))
    + 1 / Rpower a (3 / 2)
      * ln (1 / sqrt a * (b * (1 / 2) + a * t) + sqrt (c + b * t + a * (t * t)))
      * (a * c - (b * b) * (1 / 4)) * (1 / 2) in
  let int_t0 :=
    (b * sqrt c * (1 / 4)) / a
    + 1 / Rpower a (3 / 2)
      * ln (1 / sqrt a * (b + sqrt a * sqrt c * 2) * (1 / 2))
      * (a * c - (b * b) * (1 / 4)) * (1 / 2) in
  int_t - int_t0.

Definition calc_trans_distance_t_below_Tramp (k2 k4 vxi vyi t : R) : R :=
  let c := vxi * vxi + vyi * vyi in
  if orb (if Rgt_dec (Rabs k2) eps then true else false)
         (if Rgt_dec (Rabs k4) eps then true else false)
  then
    let a := (k2 * k2) * 4 + (k4 * k4) * 4 in
    let b := k2 * vxi * 4 + k4 * vyi * 4 in
    if andb (if Rlt_dec (Rabs b) eps then true else false)
            (if Rlt_dec (Rabs c) eps then true else false)
    then sqrt a * (t * t) * 0.5
    else calc_trans_distance_t_below_Tramp_abc t a b c
  else sqrt c * t.

(** ** Per-direction constants

    Every member function starts with the same local constants; they are
    named once here. *)
Section Direction.
Variable p : CPTG_Holo_Blend.
Variable k : Z.

Definition dir : R := index2alpha p k.
Definition TR2_ : R := 1 / (2 * T_ramp p).
Definition vxf : R := V_MAX p * cos dir.
Definition vyf : R := V_MAX p * sin dir.
Definition vxi : R := TTwist2D.vx (curVelLocal p).
Definition vyi : R := TTwist2D.vy (curVelLocal p).
Definition k2 : R := (vxf - vxi) * TR2_.
Definition k4 : R := (vyf - vyi) * TR2_.
End Direction.

(** ** Configuration *)

Definition updateCurrentRobotVel (p : CPTG_Holo_Blend) (v : TTwist2D.t)
  : CPTG_Holo_Blend :=
  mkPTG (T_ramp p) (V_MAX p) (W_MAX p) (turningRadiusReference p) v
        (m_alphaValuesCount p) (refDistance p) (index2alpha p).

Definition initialize (p : CPTG_Holo_Blend) : outcome unit :=
  _ <- ASSERT_ (Rgt_dec (T_ramp p) 0) ;;
  _ <- ASSERT_ (Rgt_dec (V_MAX p) 0) ;;
  _ <- ASSERT_ (Rgt_dec (W_MAX p) 0) ;;
  ASSERT_ (Z_gt_dec (m_alphaValuesCount p) 0).

(** ** Forward evaluation *)

(** Body of [getPathPose] once the time [t] of the step is known. *)
Definition pose_at (p : CPTG_Holo_Blend) (k : Z) (t : R) : TPose2D.t :=
  let px :=
    if Rlt_dec t (T_ramp p)
    then vxi p * t + t * t * TR2_ p * (vxf p k - vxi p)
    else T_ramp p * 0.5 * (vxi p + vxf p k) + (t - T_ramp p) * vxf p k in
  let py :=
    if Rlt_dec t (T_ramp p)
    then vyi p * t + t * t * TR2_ p * (vyf p k - vyi p)
    else T_ramp p * 0.5 * (vyi p + vyf p k) + (t - T_ramp p) * vyf p k in
  let T_rot := Rabs (dir p k) / W_MAX p in
  let pphi := if Rlt_dec t T_rot then t * dir p k / T_rot else dir p k in
  TPose2D.mk px py pphi.

Definition getPathPose (p : CPTG_Holo_Blend) (k step : Z) : TPose2D.t :=
  pose_at p k (PATH_TIME_STEP * IZR step).

(** Body of [getPathDist] once the time [t] of the step is known. *)
Definition dist_at (p : CPTG_Holo_Blend) (k : Z) (t : R) : R :=
  if Rlt_dec t (T_ramp p)
  then calc_trans_distance_t_below_Tramp (k2 p k) (k4 p k) (vxi p) (vyi p) t
  else (t - T_ramp p) * V_MAX p
       + calc_trans_distance_t_below_Tramp (k2 p k) (k4 p k) (vxi p) (vyi p)
           (T_ramp p).

Definition getPathDist (p : CPTG_Holo_Blend) (k step : Z) : R :=
  dist_at p k (PATH_TIME_STEP * IZR step).

(** ** Distance to step *)

(** The Newton loop of [getPathStepForDist]: at most [iters] updates of
    [t_solved], left as soon as the residual is below [1e-3]. *)
Fixpoint newton (a b c dist : R) (iters : nat) (t_solved : R) : outcome R :=
  match iters with
  | O => Returns t_solved
  | S n =>
      let err := calc_trans_distance_t_below_Tramp_abc t_solved a b c - dist in
      if Rlt_dec (Rabs err) 1e-3 then Returns t_solved
      else
        let diff := sqrt (a * t_solved * t_solved + b * t_solved + c) in
        _ <- ASSERT_ (Rgt_dec (Rabs diff) 1e-14) ;;
        newton a b c dist n (t_solved - err / diff)
  end.

(** The time [t_solved] that [getPathStepForDist] reaches before it is
    turned into a step.  The branch of a start from rest is the one of the
    source for a distance that is not negative. *)
Definition solve_time (p : CPTG_Holo_Blend) (k : Z) (dist : R) : outcome R :=
  let dist_trans_T_ramp :=
    calc_trans_distance_t_below_Tramp (k2 p k) (k4 p k) (vxi p) (vyi p)
      (T_ramp p) in
  if Rge_dec dist dist_trans_T_ramp
  then Returns (T_ramp p + (dist - dist_trans_T_ramp) / V_MAX p)
  else
    if andb (if Rlt_dec (Rabs (k2 p k)) eps then true else false)
            (if Rlt_dec (Rabs (k4 p k)) eps then true else false)
    then Returns (dist / V_MAX p)
    else
      let a := (k2 p k * k2 p k) * 4 + (k4 p k * k4 p k) * 4 in
      let b := k2 p k * vxi p * 4 + k4 p k * vyi p * 4 in
      let c := vxi p * vxi p + vyi p * vyi p in
      if andb (if Rlt_dec (Rabs b) eps then true else false)
              (if Rlt_dec (Rabs c) eps then true else false)
      then Returns (sqrt 2 * 1 / Rpower a (1 / 4) * sqrt dist)
      else newton a b c dist 10 (T_ramp p * 0.6).

Definition getPathStepForDist (p : CPTG_Holo_Blend) (k : Z) (dist : R)
  : outcome (option Z) :=
  t_solved <- solve_time p k dist ;;
  if Rge_dec t_solved 0
  then Returns (Some (to_uint16 (round (t_solved / PATH_TIME_STEP))))
  else Returns None.

(** ** Inverse map, workspace to TP-space *)

Definition TIME_MISMATCH_TOLERANCE (p : CPTG_Holo_Blend) (x y : R) : R :=
  2.0 * ((2 * PI / IZR (m_alphaValuesCount p)) * sqrt (x * x + y * y))
  / V_MAX p.

Definition eps_distance (p : CPTG_Holo_Blend) (x y : R) : R :=
  2.1 * ((2 * PI / IZR (m_alphaValuesCount p)) * sqrt (x * x + y * y)).

(** The pair of locals kept for each axis: [tx_any] with [tx_solve], and
    [ty_any] with [ty_solve].  The source leaves [t?_solve] without an
    initial value and never reads it before an assignment; [0] stands for
    that value. *)
Record axis : Type := mkAxis { any : bool; solve : R }.

Definition axis_init : axis := mkAxis false 0.

(** "Attempt to solve for t < T_ramp", one axis: [vf], [vi] and [w] are
    [vxf], [vxi], [x] for the first copy of the code and [vyf], [vyi], [y]
    for the second.  [None] is the [continue] of the source. *)
Definition solve_below (T epsd vf vi w : R) (s : axis) : option axis :=
  if Rlt_dec (Rabs (vf - vi)) eps then
    if Rlt_dec (Rabs vi) eps then
      if Rlt_dec (Rabs w) epsd
      then Some (mkAxis true (solve s))
      else Some (mkAxis (any s) (-1.0))
    else Some (mkAxis (any s) (w / vi))
  else
    let discr := (vf * w * 2.0 - vi * w * 2.0 + T * (vi * vi)) / T in
    if Rlt_dec discr 0 then None
    else
      let sq := sqrt discr in
      let solved0 := - (T * (vi + sq)) / (vf - vi) in
      let solved1 := - (T * (vi - sq)) / (vf - vi) in
      let t := if Rgt_dec solved0 0 then solved0 else solved1 in
      if andb (if Rge_dec t 0 then true else false)
              (if Rle_dec t T then true else false)
      then Some (mkAxis (any s) t)
      else Some (mkAxis (any s) (-1.0)).

(** "Attempt to solve for t > T_ramp", one axis. *)
Definition solve_above (T TR2 epsd vf vi w : R) (s : axis) : axis :=
  if Rlt_dec (Rabs vf) eps then
    let final := vi * T + T * T * TR2 * (vf - vi) in
    if Rlt_dec (Rabs (w - final)) epsd
    then mkAxis true (solve s)
    else mkAxis (any s) (-1.0)
  else mkAxis (any s) ((w - T * (vf + vi) * 0.5) / vf).

(** [tx_any || (tx_solve>=0 && tx_solve<=T_ramp)] *)
Definition axis_good (T : R) (s : axis) : bool :=
  orb (any s)
      (andb (if Rge_dec (solve s) 0 then true else false)
            (if Rle_dec (solve s) T then true else false)).

(** "Get the final solution": [None] is the [continue] of the source. *)
Definition final_solution (p : CPTG_Holo_Blend) (x y : R) (sx sy : axis)
  : option R :=
  match any sx, any sy with
  | false, false =>
      if Rgt_dec (Rabs (solve sx - solve sy)) (TIME_MISMATCH_TOLERANCE p x y)
      then None
      else Some (solve sx)
  | true, true => Some (sqrt (x * x + y * y) / V_MAX p)
  | false, true => Some (solve sx)
  | true, false => Some (solve sy)
  end.

(** One turn of the loop over the directions, up to "Good solution: save if
    better": the travelled distance [dist_trans] of direction [k] when the
    turn reaches the comparison with [found_min_dist], [None] when it
    leaves before (by [continue], or because [t_solve] is negative). *)
Definition candidate (p : CPTG_Holo_Blend) (x y : R) (k : Z) : option R :=
  match solve_below (T_ramp p) (eps_distance p x y) (vxf p k) (vxi p) x
          axis_init with
  | None => None
  | Some sx =>
      match solve_below (T_ramp p) (eps_distance p x y) (vyf p k) (vyi p) y
              axis_init with
      | None => None
      | Some sy =>
          let '(sx, sy) :=
            if andb (axis_good (T_ramp p) sx) (axis_good (T_ramp p) sy)
            then (sx, sy)
            else
              (solve_above (T_ramp p) (TR2_ p) (eps_distance p x y)
                 (vxf p k) (vxi p) x sx,
               solve_above (T_ramp p) (TR2_ p) (eps_distance p x y)
                 (vyf p k) (vyi p) y sy) in
          match final_solution p x y sx sy with
          | None => None
          | Some t_solve =>
              if Rge_dec t_solve 0 then
                Some
                  (if Rlt_dec t_solve (T_ramp p)
                   then calc_trans_distance_t_below_Tramp (k2 p k) (k4 p k)
                          (vxi p) (vyi p) t_solve
                   else (t_solve - T_ramp p) * V_MAX p
                        + calc_trans_distance_t_below_Tramp (k2 p k) (k4 p k)
                            (vxi p) (vyi p) (T_ramp p))
              else None
          end
      end
  end.

(** The state of the loop: [found_min_dist] and [found_k]. *)
Definition found : Type := (R * Z)%type.

Definition found_init : found := (DBL_MAX, (-1)%Z).

Definition save_if_better (st : found) (k : Z) (c : option R) : found :=
  match c with
  | Some dist_trans =>
      if Rlt_dec dist_trans (fst st) then (dist_trans, k) else st
  | None => st
  end.

(** [n] turns of the loop, starting at direction [k]. *)
Fixpoint scan (p : CPTG_Holo_Blend) (x y : R) (n : nat) (k : Z) (st : found)
  : found :=
  match n with
  | O => st
  | S n' => scan p x y n' (k + 1)%Z (save_if_better st k (candidate p x y k))
  end.

Definition inverseMap_WS2TP (p : CPTG_Holo_Blend) (x y : R)
  : outcome (option (Z * R)) :=
  _ <- ASSERT_ (sumbool_not _ _
                  (sumbool_and _ _ _ _ (Req_dec_T x 0) (Req_dec_T y 0))) ;;
  let '(found_min_dist, found_k) :=
    scan p x y (Z.to_nat (m_alphaValuesCount p)) 0%Z found_init in
  if Z_ge_dec found_k 0
  then Returns (Some (found_k, found_min_dist / refDistance p))
  else Returns None.

Definition PTG_IsIntoDomain (p : CPTG_Holo_Blend) (x y : R) : outcome bool :=
  r <- inverseMap_WS2TP p x y ;;
  Returns (match r with Some _ => true | None => false end).

(** ** Construction, command and step count *)

(** [CPTG_Holo_Blend::CPTG_Holo_Blend()]: the members of the class as the
    default constructor sets them; [count], [ref] and [alpha] are the
    members left by the constructor of the base class. *)
Definition CPTG_Holo_Blend_default (count : Z) (ref : R) (alpha : Z -> R)
  : CPTG_Holo_Blend :=
  mkPTG (-1.0) (-1.0) (-1.0) 0.30 (TTwist2D.mk 0 0 0) count ref alpha.

(** [directionToMotionCommand]: the vector [cmd_vel] after the call,
    [vel dir_local ramp_time rot_speed]. *)
Definition directionToMotionCommand (p : CPTG_Holo_Blend) (k : Z) : list R :=
  let dir_local := index2alpha p k in
  [V_MAX p; dir_local; T_ramp p; W_MAX p].

(** [getPathStepCount]: the step of the normalization distance, an
    exception when [getPathStepForDist] reports failure. *)
Definition getPathStepCount (p : CPTG_Holo_Blend) (k : Z) : outcome Z :=
  r <- getPathStepForDist p k (refDistance p) ;;
  match r with
  | Some step => Returns step
  | None => Throws
  end.

(** ** Serialization

    The stream ([mrpt::utils::CStream], not part of the sources at hand) is
    read as the list of the values written so far, respectively still to
    be read: [<<] appends a value, [>>] takes the first one and raises at
    the end of the stream.  The part of the base class,
    [internal_writeToStream] and [internal_readFromStream], is a
    parameter. *)
Section Serialization.
Variable internal_writeToStream : CPTG_Holo_Blend -> list R -> list R.
Variable internal_readFromStream :
  CPTG_Holo_Blend -> list R -> outcome (CPTG_Holo_Blend * list R).

(** [in >> v] for a [double]. *)
Definition read_double (i : list R) : outcome (R * list R) :=
  match i with
  | [] => Throws
  | v :: rest => Returns (v, rest)
  end.

(** [writeToStream]: the stream after the call and the content of
    [*version] when the pointer [version] is not null ([has_version]). *)
Definition writeToStream (p : CPTG_Holo_Blend) (out : list R)
  (has_version : bool) : list R * option Z :=
  if has_version then (out, Some 0%Z)
  else
    (internal_writeToStream p out
     ++ [T_ramp p; V_MAX p; W_MAX p; turningRadiusReference p],
     None).

(** [readFromStream]: the object and the stream after the call. *)
Definition readFromStream (p : CPTG_Holo_Blend) (i : list R) (version : Z)
  : outcome (CPTG_Holo_Blend * list R) :=
  bind (internal_readFromStream p i) (fun '(p0, i0) =>
  match version with
  | 0%Z =>
      bind (read_double i0) (fun '(t_ramp, i1) =>
      bind (read_double i1) (fun '(v_max, i2) =>
      bind (read_double i2) (fun '(w_max, i3) =>
      bind (read_double i3) (fun '(radius, i4) =>
      Returns
        (mkPTG t_ramp v_max w_max radius (curVelLocal p0)
           (m_alphaValuesCount p0) (refDistance p0) (index2alpha p0),
         i4)))))
  | _ => Throws
  end).
End Serialization.

(** ** Sample objects

    A generator with a single direction, straight ahead (angle 0), a
    maximal angular speed of pi rad/s and the default turning radius
    reference; [T] is the ramp duration, [V] the maximal linear speed,
    [(vx0, vy0)] the current velocity and [ref] the normalization
    distance. *)
Definition straight_ahead (T V vx0 vy0 ref : R) : CPTG_Holo_Blend :=
  mkPTG T V PI 0.30 (TTwist2D.mk vx0 vy0 0) 1 ref (fun _ => 0).

(** At rest, 1 m/s after a ramp of 1 s. *)
Definition ptg_rest : CPTG_Holo_Blend := straight_ahead 1 1 0 0 5.

(** Moving ahead at 0.09 m/s, 0.1 m/s after a ramp of 1 s. *)
Definition ptg_blend : CPTG_Holo_Blend := straight_ahead 1 0.1 0.09 0 5.

(** A long ramp: from 0.01 m/s to 40.01 m/s in 1000 s. *)
Definition ptg_slow : CPTG_Holo_Blend := straight_ahead 1000 40.01 0.01 0 5.

(** Two directions, to the right (-pi/2) and to the left (pi/2); at
    rest, 1 m/s after a ramp of 1 s. *)
Definition ptg_sides : CPTG_Holo_Blend :=
  mkPTG 1 1 PI 0.30 (TTwist2D.mk 0 0 0) 2 5
        (fun k => if (k =? 0)%Z then - (PI / 2) else PI / 2).

(** Already at the final velocity: 1 m/s ahead. *)
Definition ptg_cruise : CPTG_Holo_Blend := straight_ahead 1 1 1 0 5.

(** Drifting to the left at 0.5 m/s while the direction is ahead. *)
Definition ptg_turn : CPTG_Holo_Blend := straight_ahead 1 1 0 0.5 5.

(** Moving backwards at 1 m/s while the direction is ahead. *)
Definition ptg_reverse : CPTG_Holo_Blend := straight_ahead 1 1 (-1) 0 5.

(** Thirty-one directions spread evenly, the sixteenth (index 15) straight
    ahead; at rest, 1 m/s after a ramp of 1 s. *)
Definition ptg_fan : CPTG_Holo_Blend :=
  mkPTG 1 1 PI 0.30 (TTwist2D.mk 0 0 0) 31 5
        (fun k => PI * (2 * IZR k - 30) / 31).

(** No direction at all: an object before its configuration. *)
Definition ptg_empty : CPTG_Holo_Blend :=
  mkPTG 1 1 PI 0.30 (TTwist2D.mk 0 0 0) 0 5 (fun _ => 0).

(** A single direction, diagonal (pi/4); at rest, 1 m/s after a ramp of
    1 s. *)
Definition ptg_diag : CPTG_Holo_Blend :=
  mkPTG 1 1 PI 0.30 (TTwist2D.mk 0 0 0) 1 5 (fun _ => PI / 4).

(** ** Names of the spec *)

(** [distAtRamp]: the travelled distance at the end of the ramp, the local
    [dist_trans_T_ramp] of [getPathStepForDist]. *)
Definition distAtRamp (p : CPTG_Holo_Blend) (k : Z) : R :=
  calc_trans_distance_t_below_Tramp (k2 p k) (k4 p k) (vxi p) (vyi p)
    (T_ramp p).

(** One update of the Newton loop, when its assertion holds. *)
Definition newton_update (a b c dist t : R) : R :=
  t - (calc_trans_distance_t_below_Tramp_abc t a b c - dist)
      / sqrt (a * t * t + b * t + c).

(** The general branch of [getPathStepForDist]: the tests that lead a
    distance [dist] to the Newton loop. *)
Definition general_branch (p : CPTG_Holo_Blend) (k : Z) (dist : R) : Prop :=
  ~ dist >= distAtRamp p k
  /\ ~ (Rabs (k2 p k) < eps /\ Rabs (k4 p k) < eps)
  /\ ~ (Rabs (k2 p k * vxi p * 4 + k4 p k * vyi p * 4) < eps
        /\ Rabs (vxi p * vxi p + vyi p * vyi p) < eps).

(** The square of the speed along direction [k] at time [t] of the ramp,
    whose root is the derivative used by the Newton loop. *)
Definition newton_speed2 (p : CPTG_Holo_Blend) (k : Z) (t : R) : R :=
  (k2 p k * k2 p k * 4 + k4 p k * k4 p k * 4) * t * t
  + (k2 p k * vxi p * 4 + k4 p k * vyi p * 4) * t
  + (vxi p * vxi p + vyi p * vyi p).

(** The locals [a], [b] and [c] of [getPathStepForDist] and of
    [calc_trans_distance_t_below_Tramp] for direction [k]: the
    coefficients of the squared speed, [a t^2 + b t + c]. *)
Definition coef_a (p : CPTG_Holo_Blend) (k : Z) : R :=
  (k2 p k * k2 p k) * 4 + (k4 p k * k4 p k) * 4.

Definition coef_b (p : CPTG_Holo_Blend) (k : Z) : R :=
  k2 p k * vxi p * 4 + k4 p k * vyi p * 4.

Definition coef_c (p : CPTG_Holo_Blend) : R :=
  vxi p * vxi p + vyi p * vyi p.

(** ** Where the distance is a number

    The arguments of the two calls of [log] in
    [calc_trans_distance_t_below_Tramp_abc]: the one of [int_t] and the
    one of [int_t0].  [log] of the source is [ln] at a positive argument
    only: at 0 it is minus infinity, and its product with the factor
    [a*c - b*b/4], which is 0 as well when the argument is (for the
    coefficients of a velocity blend), is not a number (NaN).  The
    real-valued [calc_trans_distance_t_below_Tramp_abc] above is the value
    of the source where both arguments are positive, and says nothing of
    the source elsewhere. *)
Definition log_arg_t (t a b c : R) : R :=
  1 / sqrt a * (b * (1 / 2) + a * t) + sqrt (c + b * t + a * (t * t)).

Definition log_arg_t0 (a b c : R) : R :=
  1 / sqrt a * (b + sqrt a * sqrt c * 2) * (1 / 2).

(** The distance along direction [k] is a number: when
    [calc_trans_distance_t_below_Tramp] calls the closed form with the
    logarithms (its [else] of the test "b=c=0"), the argument of the
    logarithm of [int_t0] is positive. *)
Definition distance_defined (p : CPTG_Holo_Blend) (k : Z) : Prop :=
  (Rabs (k2 p k) > eps \/ Rabs (k4 p k) > eps) ->
  ~ (Rabs (coef_b p k) < eps /\ Rabs (coef_c p) < eps) ->
  0 < log_arg_t0 (coef_a p k) (coef_b p k) (coef_c p).

(** ** The turns of the Newton loop *)

(** [t_solved] after [j] updates. *)
Definition newton_iterate (a b c dist t0 : R) (j : nat) : R :=
  Nat.iter j (newton_update a b c dist) t0.

(** The loop makes [m] full turns from [t0]: at each of the first [m]
    values of [t_solved] the residual is not below [1e-3], so that the loop
    is not left, and the derivative passes the assertion. *)
Definition newton_turns (a b c dist t0 : R) (m : nat) : Prop :=
  forall j : nat,
    (j < m)%nat ->
    ~ Rabs (calc_trans_distance_t_below_Tramp_abc
              (newton_iterate a b c dist t0 j) a b c - dist) < 1e-3
    /\ Rabs (sqrt (a * newton_iterate a b c dist t0 j
                     * newton_iterate a b c dist t0 j
                   + b * newton_iterate a b c dist t0 j + c)) > 1e-14.

(** Every residual that the loop evaluates is a number: the arguments of
    both logarithms are positive at each value of [t_solved] that the loop
    reaches within its 10 turns. *)
Definition newton_defined (a b c dist t0 : R) : Prop :=
  0 < log_arg_t0 a b c
  /\ forall j : nat,
       (j < 10)%nat -> newton_turns a b c dist t0 j ->
       0 < log_arg_t (newton_iterate a b c dist t0 j) a b c.

(** * Properties *)

(** ** Helpers *)

(** Settle the next test on real numbers of the goal, closing the side
    that contradicts the context. *)
Ltac rtest :=
  match goal with
  | |- context [Rlt_dec ?a ?b] => destruct (Rlt_dec a b); try lra
  | |- context [Rgt_dec ?a ?b] => destruct (Rgt_dec a b); try lra
  | |- context [Rle_dec ?a ?b] => destruct (Rle_dec a b); try lra
  | |- context [Rge_dec ?a ?b] => destruct (Rge_dec a b); try lra
  end.

Lemma initialize_Returns (p : CPTG_Holo_Blend) :
  initialize p = Returns tt ->
  T_ramp p > 0 /\ V_MAX p > 0 /\ W_MAX p > 0 /\ (m_alphaValuesCount p > 0)%Z.
Proof.
  unfold initialize, ASSERT_, bind.
  destruct (Rgt_dec (T_ramp p) 0); [| discriminate].
  destruct (Rgt_dec (V_MAX p) 0); [| discriminate].
  destruct (Rgt_dec (W_MAX p) 0); [| discriminate].
  destruct (Z_gt_dec (m_alphaValuesCount p) 0); [| discriminate].
  auto.
Qed.

(** ** Velocity update *)

(** C10: [updateCurrentRobotVel] stores its argument as the current
    velocity and leaves the ramp duration, the two speed bounds and the
    turning radius reference (and the members of the base class) as they
    were. *)
Theorem updateCurrentRobotVel_frame (p : CPTG_Holo_Blend) (v : TTwist2D.t) :
  curVelLocal (updateCurrentRobotVel p v) = v
  /\ T_ramp (updateCurrentRobotVel p v) = T_ramp p
  /\ V_MAX (updateCurrentRobotVel p v) = V_MAX p
  /\ W_MAX (updateCurrentRobotVel p v) = W_MAX p
  /\ turningRadiusReference (updateCurrentRobotVel p v)
     = turningRadiusReference p
  /\ m_alphaValuesCount (updateCurrentRobotVel p v) = m_alphaValuesCount p
  /\ refDistance (updateCurrentRobotVel p v) = refDistance p
  /\ index2alpha (updateCurrentRobotVel p v) = index2alpha p.
Proof. repeat split. Qed.

(** ** Domain test and entry assertion *)

(** C9: [PTG_IsIntoDomain] returns [true] exactly when [inverseMap_WS2TP]
    returns a solution for the same point on the same object, [false]
    exactly when it returns none, and raises exactly when it raises. *)
Theorem PTG_IsIntoDomain_iff (p : CPTG_Holo_Blend) (x y : R) :
  (PTG_IsIntoDomain p x y = Returns true
   <-> exists k d, inverseMap_WS2TP p x y = Returns (Some (k, d)))
  /\ (PTG_IsIntoDomain p x y = Returns false
      <-> inverseMap_WS2TP p x y = Returns None)
  /\ (PTG_IsIntoDomain p x y = Throws <-> inverseMap_WS2TP p x y = Throws).
Proof.
  unfold PTG_IsIntoDomain, bind.
  destruct (inverseMap_WS2TP p x y) as [[[k d] |] |];
    repeat split; intros H;
    try discriminate; try reflexivity; eauto;
    destruct H as (k' & d' & H); discriminate.
Qed.

(** C8: at the origin the entry assertion of [inverseMap_WS2TP] fails,
    whatever the object and its current velocity: the call raises and so
    returns no pair of a direction and a distance. *)
Theorem inverseMap_WS2TP_origin (p : CPTG_Holo_Blend) :
  inverseMap_WS2TP p 0 0 = Throws
  /\ (forall k d, inverseMap_WS2TP p 0 0 <> Returns (Some (k, d)))
  /\ PTG_IsIntoDomain p 0 0 <> Returns true.
Proof.
  assert (H : inverseMap_WS2TP p 0 0 = Throws).
  { unfold inverseMap_WS2TP, ASSERT_, bind.
    destruct (sumbool_not _ _ _) as [[Hn | Hn] | _]; [| | reflexivity];
      exfalso; apply Hn; reflexivity. }
  unfold PTG_IsIntoDomain. rewrite H. repeat split; intros; discriminate.
Qed.

(** ** Tolerances of the inverse map *)

(** The tests of [inverseMap_WS2TP] that use a tolerance. *)

Lemma solve_below_degenerate (T epsd vf vi w : R) (s : axis) :
  Rabs (vf - vi) < eps -> Rabs vi < eps ->
  solve_below T epsd vf vi w s
  = if Rlt_dec (Rabs w) epsd then Some (mkAxis true (solve s))
    else Some (mkAxis (any s) (-1.0)).
Proof. intros H1 H2. unfold solve_below. do 2 rtest. reflexivity. Qed.

Lemma final_solution_both_solved (p : CPTG_Holo_Blend) (x y tx ty : R) :
  final_solution p x y (mkAxis false tx) (mkAxis false ty)
  = if Rgt_dec (Rabs (tx - ty)) (TIME_MISMATCH_TOLERANCE p x y) then None
    else Some tx.
Proof. reflexivity. Qed.

Lemma solve_above_degenerate (T TR2 epsd vf vi w : R) (s : axis) :
  Rabs vf < eps ->
  solve_above T TR2 epsd vf vi w s
  = if Rlt_dec (Rabs (w - (vi * T + T * T * TR2 * (vf - vi)))) epsd
    then mkAxis true (solve s)
    else mkAxis (any s) (-1.0).
Proof. intros H. unfold solve_above. rtest. reflexivity. Qed.

(** One axis, from rest towards a final velocity that is not small. *)
Section AxisFromRest.
Variables T e vf : R.
Hypothesis T_pos : 0 < T.
Hypothesis vf_large : ~ Rabs (vf - 0) < eps.

Lemma vf_nonzero : vf <> 0.
Proof.
  intros H. apply vf_large. rewrite H.
  replace (0 - 0) with 0 by ring. rewrite Rabs_R0. unfold eps. lra.
Qed.

(** A coordinate reached during the ramp is solved to its time. *)
Lemma solve_below_rest_ramp (t w : R) (s : axis) :
  0 <= t -> t <= T -> w = t * t * (1 / (2 * T)) * vf ->
  solve_below T e vf 0 w s = Some (mkAxis (any s) t).
Proof.
  intros Ht0 HtT Hw. pose proof vf_nonzero as Hvf.
  unfold solve_below. cbv zeta.
  destruct (Rlt_dec (Rabs (vf - 0)) eps) as [H | _]; [contradiction |].
  replace ((vf * w * 2.0 - 0 * w * 2.0 + T * (0 * 0)) / T)
    with (Rsqr (vf * t / T))
    by (unfold Rsqr; rewrite Hw; replace 2.0 with 2 by lra; field; lra).
  destruct (Rlt_dec (Rsqr (vf * t / T)) 0) as [H | _].
  { pose proof (Rle_0_sqr (vf * t / T)). lra. }
  rewrite sqrt_Rsqr_abs.
  assert (Hchosen :
    (if Rgt_dec (- (T * (0 + Rabs (vf * t / T))) / (vf - 0)) 0
     then - (T * (0 + Rabs (vf * t / T))) / (vf - 0)
     else - (T * (0 - Rabs (vf * t / T))) / (vf - 0)) = t).
  { destruct (Rlt_dec 0 vf) as [Hpos | Hneg].
    - assert (Hq : 0 <= vf * t / T).
      { apply Rmult_le_pos; [nra |].
        apply Rlt_le. apply Rinv_0_lt_compat. exact T_pos. }
      rewrite (Rabs_right (vf * t / T)) by lra.
      replace (- (T * (0 + vf * t / T)) / (vf - 0)) with (- t)
        by (field; lra).
      replace (- (T * (0 - vf * t / T)) / (vf - 0)) with t by (field; lra).
      destruct (Rgt_dec (- t) 0); lra.
    - assert (Hq : vf * t / T <= 0).
      { replace (vf * t / T) with (- ((- vf) * t / T)) by (field; lra).
        assert (0 <= (- vf) * t / T).
        { apply Rmult_le_pos; [nra |].
          apply Rlt_le. apply Rinv_0_lt_compat. exact T_pos. }
        lra. }
      rewrite (Rabs_left1 (vf * t / T)) by lra.
      replace (- (T * (0 + - (vf * t / T))) / (vf - 0)) with t
        by (field; lra).
      replace (- (T * (0 - - (vf * t / T))) / (vf - 0)) with (- t)
        by (field; lra).
      destruct (Rgt_dec t 0); lra. }
  rewrite Hchosen.
  destruct (Rge_dec t 0) as [_ | H]; [| lra].
  destruct (Rle_dec t T) as [_ | H]; [| lra].
  reflexivity.
Qed.

(** A coordinate reached after the ramp has no solution within it. *)
Lemma solve_below_rest_coast (t w : R) (s : axis) :
  T < t -> w = T * 0.5 * (0 + vf) + (t - T) * vf ->
  solve_below T e vf 0 w s = Some (mkAxis (any s) (-1.0)).
Proof.
  intros HtT Hw. pose proof vf_nonzero as Hvf.
  unfold solve_below. cbv zeta.
  destruct (Rlt_dec (Rabs (vf - 0)) eps) as [H | _]; [contradiction |].
  set (discr := (vf * w * 2.0 - 0 * w * 2.0 + T * (0 * 0)) / T).
  assert (Hd : discr * T = vf * vf * (2 * t - T)).
  { unfold discr. rewrite Hw. replace 2.0 with 2 by lra.
    replace 0.5 with (/ 2) by lra. field. lra. }
  assert (Hvv : 0 < vf * vf) by nra.
  assert (Hd0 : vf * vf < discr).
  { assert (vf * vf * T < discr * T) by nra. nra. }
  destruct (Rlt_dec discr 0) as [H | _]; [lra |].
  pose proof (sqrt_pos discr) as Hs0.
  pose proof (sqrt_sqrt discr ltac:(lra)) as Hs2.
  set (sq := sqrt discr) in *.
  assert (Hchosen :
    T < (if Rgt_dec (- (T * (0 + sq)) / (vf - 0)) 0
         then - (T * (0 + sq)) / (vf - 0)
         else - (T * (0 - sq)) / (vf - 0))).
  { destruct (Rlt_dec 0 vf) as [Hpos | Hneg].
    - assert (Hsv : vf < sq) by nra.
      assert (Hr : 1 < sq / vf).
      { apply Rmult_lt_reg_r with vf; [lra |].
        replace (sq / vf * vf) with sq by (field; lra). lra. }
      replace (- (T * (0 + sq)) / (vf - 0)) with (- (T * (sq / vf)))
        by (field; lra).
      replace (- (T * (0 - sq)) / (vf - 0)) with (T * (sq / vf))
        by (field; lra).
      destruct (Rgt_dec (- (T * (sq / vf))) 0); nra.
    - assert (Hsv : - vf < sq) by nra.
      assert (Hr : 1 < sq / (- vf)).
      { apply Rmult_lt_reg_r with (- vf); [lra |].
        replace (sq / (- vf) * (- vf)) with sq by (field; lra). lra. }
      replace (- (T * (0 + sq)) / (vf - 0)) with (T * (sq / (- vf)))
        by (field; lra).
      replace (- (T * (0 - sq)) / (vf - 0)) with (- (T * (sq / (- vf))))
        by (field; lra).
      destruct (Rgt_dec (T * (sq / (- vf))) 0); nra. }
  destruct (Rle_dec _ T) as [H | _]; [lra |].
  rewrite andb_false_r. reflexivity.
Qed.

(** For a coordinate reached after the ramp, the second attempt solves
    the time counted from the end of the ramp. *)
Lemma solve_above_rest (t w : R) (s : axis) :
  w = T * 0.5 * (0 + vf) + (t - T) * vf ->
  solve_above T (1 / (2 * T)) e vf 0 w s = mkAxis (any s) (t - T).
Proof.
  intros Hw. pose proof vf_nonzero as Hvf.
  unfold solve_above.
  destruct (Rlt_dec (Rabs vf) eps) as [H | _].
  { exfalso. apply vf_large. replace (vf - 0) with vf by ring. exact H. }
  f_equal. rewrite Hw. replace 0.5 with (/ 2) by lra. field. exact Hvf.
Qed.
End AxisFromRest.

(** A direction straight ahead, from rest: the first coordinate of the
    target is solved for its time, the second one is only compared with
    the position tolerance. *)
Section AheadFromRest.
Variable p : CPTG_Holo_Blend.
Variable k : Z.
Variables x y : R.
Hypothesis Hinit : initialize p = Returns tt.
Hypothesis Hvx : vxi p = 0.
Hypothesis Hvy : vyi p = 0.
Hypothesis Hdir : index2alpha p k = 0.
Hypothesis HV : eps <= V_MAX p.
Hypothesis Hx : 0 <= x.

Local Lemma ahead_vxf : vxf p k = V_MAX p.
Proof. unfold vxf, dir. rewrite Hdir, cos_0. ring. Qed.

Local Lemma ahead_vyf : vyf p k = 0.
Proof. unfold vyf, dir. rewrite Hdir, sin_0. ring. Qed.

Local Lemma ahead_large : ~ Rabs (V_MAX p - 0) < eps.
Proof. unfold eps in *. rewrite Rabs_right; lra. Qed.

Local Lemma ahead_small : Rabs (0 - 0) < eps /\ Rabs 0 < eps.
Proof.
  replace (0 - 0) with 0 by ring. rewrite Rabs_R0. unfold eps. lra.
Qed.

(** The first attempt on the first coordinate: the time of the ramp at
    which it is reached, or [-1] when it is reached later. *)
Local Lemma ahead_first_x (e : R) :
  exists t : R,
    solve_below (T_ramp p) e (V_MAX p) 0 x axis_init = Some (mkAxis false t)
    /\ (0 <= t <= T_ramp p
        \/ t = -1.0 /\ T_ramp p * V_MAX p / 2 < x).
Proof.
  apply initialize_Returns in Hinit. destruct Hinit as (HT & HV0 & _ & _).
  pose proof ahead_large as Hl.
  destruct (Rle_dec x (T_ramp p * V_MAX p / 2)) as [Hle | Hgt].
  - exists (sqrt (2 * T_ramp p * x / V_MAX p)).
    assert (Hq : 0 <= 2 * T_ramp p * x / V_MAX p).
    { apply Rmult_le_pos; [nra |].
      apply Rlt_le. apply Rinv_0_lt_compat. lra. }
    pose proof (sqrt_pos (2 * T_ramp p * x / V_MAX p)) as Hs.
    pose proof (sqrt_sqrt _ Hq) as Hs2.
    assert (HsT : sqrt (2 * T_ramp p * x / V_MAX p) <= T_ramp p).
    { assert (H : sqrt (2 * T_ramp p * x / V_MAX p)
                  <= sqrt (T_ramp p * T_ramp p)).
      { apply sqrt_le_1_alt.
        apply Rmult_le_reg_r with (V_MAX p); [lra |].
        replace (2 * T_ramp p * x / V_MAX p * V_MAX p)
          with (2 * T_ramp p * x) by (field; lra).
        nra. }
      rewrite sqrt_square in H by lra. exact H. }
    split; [| left; lra].
    apply (solve_below_rest_ramp (T_ramp p) e (V_MAX p) ltac:(lra) Hl);
      [lra | exact HsT |].
    rewrite Hs2. field. lra.
  - exists (-1.0). split; [| right; split; [reflexivity | lra]].
    apply (solve_below_rest_coast (T_ramp p) e (V_MAX p) ltac:(lra) Hl
             (x / V_MAX p + T_ramp p / 2)).
    + apply Rmult_lt_reg_r with (V_MAX p); [lra |].
      replace ((x / V_MAX p + T_ramp p / 2) * V_MAX p)
        with (x + T_ramp p * V_MAX p / 2) by (field; lra).
      lra.
    + replace 0.5 with (/ 2) by lra. field. lra.
Qed.

Local Lemma ahead_second_x (e : R) (s : axis) :
  solve_above (T_ramp p) (TR2_ p) e (V_MAX p) 0 x s
  = mkAxis (any s) ((x - T_ramp p * V_MAX p / 2) / V_MAX p).
Proof.
  apply initialize_Returns in Hinit. destruct Hinit as (HT & HV0 & _ & _).
  unfold TR2_.
  rewrite (solve_above_rest (T_ramp p) e (V_MAX p) ahead_large
             (x / V_MAX p + T_ramp p / 2)).
  - f_equal. field. lra.
  - replace 0.5 with (/ 2) by lra. field. lra.
Qed.

Local Lemma ahead_second_y (e : R) (s : axis) :
  solve_above (T_ramp p) (TR2_ p) e 0 0 y s
  = if Rlt_dec (Rabs y) e then mkAxis true (solve s)
    else mkAxis (any s) (-1.0).
Proof.
  rewrite solve_above_degenerate by apply ahead_small.
  replace (y - (0 * T_ramp p + T_ramp p * T_ramp p * TR2_ p * (0 - 0)))
    with y by ring.
  reflexivity.
Qed.

(** Within the position tolerance of the axis, the direction is a
    candidate. *)
Lemma candidate_ahead_near :
  Rabs y < eps_distance p x y -> exists d : R, candidate p x y k = Some d.
Proof.
  intros Hy. pose proof Hinit as Hi.
  apply initialize_Returns in Hi. destruct Hi as (HT & HV0 & _ & _).
  unfold candidate. rewrite ahead_vxf, ahead_vyf, Hvx, Hvy.
  destruct (ahead_first_x (eps_distance p x y)) as (t & -> & Ht).
  rewrite solve_below_degenerate by apply ahead_small.
  destruct (Rlt_dec (Rabs y) (eps_distance p x y)) as [_ | H];
    [| contradiction].
  cbn [axis_init any solve].
  destruct Ht as [Ht | [-> Hfar]].
  - assert (Hg : axis_good (T_ramp p) (mkAxis false t) = true).
    { unfold axis_good. cbn [any solve].
      destruct (Rge_dec t 0) as [_ | H]; [| lra].
      destruct (Rle_dec t (T_ramp p)) as [_ | H]; [| lra]. reflexivity. }
    rewrite Hg. cbn [axis_good any andb orb final_solution solve].
    destruct (Rge_dec t 0) as [_ | H]; [| lra].
    eexists. reflexivity.
  - assert (Hg : axis_good (T_ramp p) (mkAxis false (-1.0)) = false).
    { unfold axis_good. cbn [any solve].
      destruct (Rge_dec (-1.0) 0) as [H | _]; [lra | reflexivity]. }
    rewrite Hg. cbn [andb].
    rewrite ahead_second_x, ahead_second_y.
    destruct (Rlt_dec (Rabs y) (eps_distance p x y)) as [_ | H];
      [| contradiction].
    cbn [final_solution any solve].
    assert (H0 : 0 <= (x - T_ramp p * V_MAX p / 2) / V_MAX p).
    { apply Rmult_le_pos; [lra |].
      apply Rlt_le. apply Rinv_0_lt_compat. lra. }
    destruct (Rge_dec ((x - T_ramp p * V_MAX p / 2) / V_MAX p) 0)
      as [_ | H]; [| lra].
    eexists. reflexivity.
Qed.

(** Outside the position tolerance, the second coordinate has no time,
    [-1]; the direction is a candidate when the time of the first
    coordinate, counted from the end of the ramp, is not negative and is
    not farther from [-1] than the tolerance on the times. *)
Lemma candidate_ahead_far :
  ~ Rabs y < eps_distance p x y ->
  (candidate p x y k = None
   <-> (x - T_ramp p * V_MAX p / 2) / V_MAX p < 0
       \/ Rabs ((x - T_ramp p * V_MAX p / 2) / V_MAX p - -1.0)
          > TIME_MISMATCH_TOLERANCE p x y).
Proof.
  intros Hy. pose proof Hinit as Hi.
  apply initialize_Returns in Hi. destruct Hi as (HT & HV0 & _ & _).
  unfold candidate. rewrite ahead_vxf, ahead_vyf, Hvx, Hvy.
  destruct (ahead_first_x (eps_distance p x y)) as (t & -> & _).
  rewrite solve_below_degenerate by apply ahead_small.
  destruct (Rlt_dec (Rabs y) (eps_distance p x y)) as [H | _];
    [contradiction |].
  cbn [axis_init any solve].
  assert (Hg : axis_good (T_ramp p) (mkAxis false (-1.0)) = false).
  { unfold axis_good. cbn [any solve].
    destruct (Rge_dec (-1.0) 0) as [H | _]; [lra | reflexivity]. }
  rewrite Hg, andb_false_r.
  rewrite ahead_second_x, ahead_second_y.
  destruct (Rlt_dec (Rabs y) (eps_distance p x y)) as [H | _];
    [contradiction |].
  cbn [final_solution any solve].
  set (tx := (x - T_ramp p * V_MAX p / 2) / V_MAX p).
  destruct (Rgt_dec (Rabs (tx - -1.0)) (TIME_MISMATCH_TOLERANCE p x y))
    as [Hm | Hm].
  - split; [intros _; right; exact Hm | reflexivity].
  - destruct (Rge_dec tx 0) as [H0 | H0].
    + split; [discriminate |]. intros [H | H]; [lra | contradiction].
    + split; [intros _; left; lra | reflexivity].
Qed.
End AheadFromRest.

(** C2 (as the code has it): the position tolerance of the degenerate
    per-axis tests is 2.1 * (2 pi / directionCount) * |(x,y)|, and the
    tolerance on the mismatch of the two per-axis times is
    2 * (2 pi / directionCount) * |(x,y)| / V_MAX.  A turn of the loop of
    [inverseMap_WS2TP] hands the first one to its four per-axis attempts,
    which compare a coordinate with it when the velocities of the axis are
    small, and reconciles two solved times with the second one.  So, for
    a direction straight ahead taken from rest, a target within the first
    tolerance of the axis is a candidate, and a target outside of it is
    one exactly when the time of its first coordinate, counted from the end
    of the ramp, is not negative and differs from the time [-1] of the
    second coordinate by no more than the second tolerance. *)
Theorem inverseMap_tolerances (p : CPTG_Holo_Blend) (x y : R) :
  eps_distance p x y
  = 2.1 * (2 * PI / IZR (m_alphaValuesCount p)) * sqrt (x * x + y * y)
  /\ TIME_MISMATCH_TOLERANCE p x y
     = 2 * (2 * PI / IZR (m_alphaValuesCount p)) * sqrt (x * x + y * y)
       / V_MAX p
  /\ (forall k : Z,
        candidate p x y k
        = let e := 2.1 * (2 * PI / IZR (m_alphaValuesCount p))
                   * sqrt (x * x + y * y) in
          match solve_below (T_ramp p) e (vxf p k) (vxi p) x axis_init,
                solve_below (T_ramp p) e (vyf p k) (vyi p) y axis_init with
          | Some sx, Some sy =>
              let '(sx, sy) :=
                if andb (axis_good (T_ramp p) sx) (axis_good (T_ramp p) sy)
                then (sx, sy)
                else
                  (solve_above (T_ramp p) (TR2_ p) e (vxf p k) (vxi p) x sx,
                   solve_above (T_ramp p) (TR2_ p) e (vyf p k) (vyi p) y sy)
              in
              match final_solution p x y sx sy with
              | Some t_solve =>
                  if Rge_dec t_solve 0 then Some (dist_at p k t_solve)
                  else None
              | None => None
              end
          | _, _ => None
          end)
  /\ (forall T e w vf vi s,
        Rabs (vf - vi) < eps -> Rabs vi < eps ->
        solve_below T e vf vi w s
        = if Rlt_dec (Rabs w) e then Some (mkAxis true (solve s))
          else Some (mkAxis (any s) (-1.0)))
  /\ (forall T TR2 e w vf vi s,
        Rabs vf < eps ->
        solve_above T TR2 e vf vi w s
        = if Rlt_dec (Rabs (w - (vi * T + T * T * TR2 * (vf - vi)))) e
          then mkAxis true (solve s)
          else mkAxis (any s) (-1.0))
  /\ (forall tx ty,
        final_solution p x y (mkAxis false tx) (mkAxis false ty)
        = if Rgt_dec (Rabs (tx - ty))
               (2 * (2 * PI / IZR (m_alphaValuesCount p))
                * sqrt (x * x + y * y) / V_MAX p)
          then None else Some tx)
  /\ (forall k : Z,
        initialize p = Returns tt ->
        vxi p = 0 -> vyi p = 0 -> index2alpha p k = 0 ->
        eps <= V_MAX p -> 0 <= x ->
        (Rabs y
         < 2.1 * (2 * PI / IZR (m_alphaValuesCount p)) * sqrt (x * x + y * y)
         -> exists d : R, candidate p x y k = Some d)
        /\ (~ Rabs y
              < 2.1 * (2 * PI / IZR (m_alphaValuesCount p))
                * sqrt (x * x + y * y) ->
            (candidate p x y k = None
             <-> (x - T_ramp p * V_MAX p / 2) / V_MAX p < 0
                 \/ Rabs ((x - T_ramp p * V_MAX p / 2) / V_MAX p - -1.0)
                    > 2 * (2 * PI / IZR (m_alphaValuesCount p))
                      * sqrt (x * x + y * y) / V_MAX p))).
Proof.
  assert (He : eps_distance p x y
    = 2.1 * (2 * PI / IZR (m_alphaValuesCount p)) * sqrt (x * x + y * y)).
  { unfold eps_distance. lra. }
  assert (Ht : TIME_MISMATCH_TOLERANCE p x y
    = 2 * (2 * PI / IZR (m_alphaValuesCount p)) * sqrt (x * x + y * y)
      / V_MAX p).
  { unfold TIME_MISMATCH_TOLERANCE. lra. }
  split; [exact He |]. split; [exact Ht |].
  split; [| split; [| split; [| split]]].
  - intros k. rewrite <- He. unfold candidate. cbv zeta.
    destruct (solve_below (T_ramp p) (eps_distance p x y) (vxf p k) (vxi p)
                x axis_init) as [sx |]; [| reflexivity].
    destruct (solve_below (T_ramp p) (eps_distance p x y) (vyf p k) (vyi p)
                y axis_init) as [sy |]; reflexivity.
  - intros T e w vf vi s H1 H2. apply solve_below_degenerate; assumption.
  - intros T TR2 e w vf vi s H. apply solve_above_degenerate; assumption.
  - intros tx ty. rewrite <- Ht. apply final_solution_both_solved.
  - intros k Hinit Hvx Hvy Hdir HV Hx. rewrite <- He, <- Ht. split.
    + apply candidate_ahead_near; assumption.
    + apply candidate_ahead_far; assumption.
Qed.

(** ** The distance integral *)

Lemma ln_le_compat (u v : R) : 0 < u -> u <= v -> ln u <= ln v.
Proof.
  intros Hu [Hlt | Heq].
  - left. apply ln_increasing; assumption.
  - subst v. right. reflexivity.
Qed.

Section Antiderivative.
(** [a t^2 + b t + c] with [a > 0] and a discriminant that is not
    positive: the speed squared of a velocity blend. *)
Variables a b c : R.
Hypothesis a_pos : 0 < a.
Hypothesis discr_nonneg : 0 <= a * c - (b * b) * (1 / 4).

Let h : R := (b * (1 / 4)) / a.
Let E : R := c - 4 * a * (h * h).
Let q (t : R) : R := c + b * t + a * (t * t).

Local Lemma b_h : b = 4 * a * h.
Proof. unfold h. field. lra. Qed.

Local Lemma E_nonneg : 0 <= E.
Proof.
  unfold E. pose proof b_h as Hb.
  assert (H : 0 <= a * (c - 4 * a * (h * h))).
  { replace (a * (c - 4 * a * (h * h)))
      with (a * c - (4 * a * h) * (4 * a * h) * (1 / 4)) by field.
    rewrite <- Hb. exact discr_nonneg. }
  nra.
Qed.

Local Lemma q_h (t : R) :
  q t = 4 * a * ((t * (1 / 2) + h) * (t * (1 / 2) + h)) + E.
Proof. unfold q, E, h. field. lra. Qed.

Lemma quad_nonneg (t : R) : 0 <= c + b * t + a * (t * t).
Proof.
  change (0 <= q t). rewrite q_h. pose proof E_nonneg.
  pose proof (Rle_0_sqr (t * (1 / 2) + h)) as Hs. unfold Rsqr in Hs. nra.
Qed.

(** The algebraic part of the antiderivative grows with [t]. *)
Lemma antiderivative_sqrt_part_mono (t1 t2 : R) :
  t1 <= t2 ->
  (t1 * (1 / 2) + (b * (1 / 4)) / a) * sqrt (c + b * t1 + a * (t1 * t1))
  <= (t2 * (1 / 2) + (b * (1 / 4)) / a) * sqrt (c + b * t2 + a * (t2 * t2)).
Proof.
  intros Ht. change ((b * (1 / 4)) / a) with h.
  change (c + b * t1 + a * (t1 * t1)) with (q t1).
  change (c + b * t2 + a * (t2 * t2)) with (q t2).
  set (m1 := t1 * (1 / 2) + h). set (m2 := t2 * (1 / 2) + h).
  assert (Hm : m1 <= m2) by (unfold m1, m2; lra).
  pose proof (sqrt_pos (q t1)) as Hs1. pose proof (sqrt_pos (q t2)) as Hs2.
  destruct (Rle_dec 0 m1) as [H1 | H1].
  - assert (Hq : sqrt (q t1) <= sqrt (q t2)).
    { apply sqrt_le_1_alt. rewrite !q_h. fold m1 m2.
      clearbody m1 m2 E. assert (m1 * m1 <= m2 * m2) by nra. nra. }
    clearbody m1 m2. nra.
  - destruct (Rle_dec m2 0) as [H2 | H2].
    + assert (Hq : sqrt (q t2) <= sqrt (q t1)).
      { apply sqrt_le_1_alt. rewrite !q_h. fold m1 m2.
        clearbody m1 m2 E. assert (m2 * m2 <= m1 * m1) by nra. nra. }
      clearbody m1 m2. nra.
    + clearbody m1 m2. nra.
Qed.

(** The argument of the logarithm is positive and grows with [t] when
    the discriminant does not vanish. *)
Lemma antiderivative_log_arg (t1 t2 : R) :
  0 < a * c - (b * b) * (1 / 4) -> t1 <= t2 ->
  0 < 1 / sqrt a * (b * (1 / 2) + a * t1) + sqrt (c + b * t1 + a * (t1 * t1))
  /\ 1 / sqrt a * (b * (1 / 2) + a * t1) + sqrt (c + b * t1 + a * (t1 * t1))
     <= 1 / sqrt a * (b * (1 / 2) + a * t2)
        + sqrt (c + b * t2 + a * (t2 * t2)).
Proof.
  intros HD Ht.
  assert (HE : 0 < E).
  { unfold E. pose proof b_h as Hb.
    assert (H : 0 < a * (c - 4 * a * (h * h))).
    { replace (a * (c - 4 * a * (h * h)))
        with (a * c - (4 * a * h) * (4 * a * h) * (1 / 4)) by field.
      rewrite <- Hb. exact HD. }
    nra. }
  pose proof (sqrt_lt_R0 a a_pos) as Hsa.
  pose proof (sqrt_sqrt a (Rlt_le _ _ a_pos)) as Hsa2.
  set (sa := sqrt a) in *.
  assert (Hv : forall t, 1 / sa * (b * (1 / 2) + a * t)
                         = 2 * sa * (t * (1 / 2) + h)).
  { intros t. unfold h. rewrite <- Hsa2. field. lra. }
  change (c + b * t1 + a * (t1 * t1)) with (q t1).
  change (c + b * t2 + a * (t2 * t2)) with (q t2).
  rewrite !Hv.
  set (v1 := 2 * sa * (t1 * (1 / 2) + h)).
  set (v2 := 2 * sa * (t2 * (1 / 2) + h)).
  assert (Hv12 : v1 <= v2) by (unfold v1, v2; nra).
  assert (Hq : forall t, sqrt (q t) * sqrt (q t)
             = (2 * sa * (t * (1 / 2) + h)) * (2 * sa * (t * (1 / 2) + h))
               + E).
  { intros t. rewrite sqrt_sqrt by (apply quad_nonneg).
    rewrite q_h. rewrite <- Hsa2. ring. }
  pose proof (Hq t1) as Hq1. pose proof (Hq t2) as Hq2.
  fold v1 in Hq1. fold v2 in Hq2.
  pose proof (sqrt_pos (q t1)) as Hs1. pose proof (sqrt_pos (q t2)) as Hs2.
  set (s1 := sqrt (q t1)) in *. set (s2 := sqrt (q t2)) in *.
  assert (Hp1 : 0 < v1 + s1) by nra.
  assert (Hp2 : 0 < v2 + s2) by nra.
  assert (Hn1 : 0 < s1 - v1) by nra.
  assert (Hn2 : 0 < s2 - v2) by nra.
  split; [exact Hp1 |].
  destruct (Rle_dec (v1 + s1) (v2 + s2)) as [Hle | Hgt]; [exact Hle |].
  exfalso.
  assert (HA : 0 < (s1 - s2) - (v2 - v1)) by lra.
  assert (Hprod : (s1 - s2) * (s1 + s2) = (v2 - v1) * (- (v1 + v2))) by nra.
  destruct (Rle_dec (- (v1 + v2)) 0) as [Hq0 | Hq0].
  + assert (0 < (s1 - s2) * (s1 + s2)) by nra. nra.
  + assert ((v2 - v1) * (- (v1 + v2)) <= (s1 - s2) * (- (v1 + v2))) by nra.
    assert ((s1 - s2) * (- (v1 + v2)) < (s1 - s2) * (s1 + s2)) by nra.
    lra.
Qed.

Lemma calc_abc_mono (t1 t2 : R) :
  t1 <= t2 ->
  calc_trans_distance_t_below_Tramp_abc t1 a b c
  <= calc_trans_distance_t_below_Tramp_abc t2 a b c.
Proof.
  intros Ht. unfold calc_trans_distance_t_below_Tramp_abc.
  pose proof (antiderivative_sqrt_part_mono t1 t2 Ht) as HG.
  assert (HK : 0 < 1 / Rpower a (3 / 2)).
  { apply Rdiv_lt_0_compat; [lra | apply exp_pos]. }
  set (K := 1 / Rpower a (3 / 2)) in *.
  set (D := a * c - (b * b) * (1 / 4)) in *.
  destruct discr_nonneg as [HD | HD].
  - destruct (antiderivative_log_arg t1 t2 HD Ht) as [Hpos Hle].
    pose proof (ln_le_compat _ _ Hpos Hle) as Hln.
    assert (K * ln (1 / sqrt a * (b * (1 / 2) + a * t1)
                    + sqrt (c + b * t1 + a * (t1 * t1))) * D * (1 / 2)
            <= K * ln (1 / sqrt a * (b * (1 / 2) + a * t2)
                       + sqrt (c + b * t2 + a * (t2 * t2))) * D * (1 / 2)).
    { assert (0 < K * D) by nra. nra. }
    lra.
  - rewrite <- HD. lra.
Qed.

Lemma calc_abc_0 :
  0 <= c -> calc_trans_distance_t_below_Tramp_abc 0 a b c = 0.
Proof.
  intros Hc. unfold calc_trans_distance_t_below_Tramp_abc.
  replace (c + b * 0 + a * (0 * 0)) with c by ring.
  replace (1 / sqrt a * (b * (1 / 2) + a * 0) + sqrt c)
    with (1 / sqrt a * (b + sqrt a * sqrt c * 2) * (1 / 2)).
  - field. split.
    + unfold Rpower. pose proof (exp_pos (3 / 2 * ln a)). lra.
    + lra.
  - field. pose proof (sqrt_lt_R0 a a_pos). lra.
Qed.
End Antiderivative.

(** ** Travelled distance *)

Lemma Rabs_gt_eps_sqr (v : R) : Rabs v > eps -> 0 < v * v.
Proof.
  unfold eps. intros H. unfold Rabs in H.
  destruct (Rcase_abs v); nra.
Qed.

Lemma blend_coefficients (k2 k4 vxi vyi : R) :
  Rabs k2 > eps \/ Rabs k4 > eps ->
  0 < (k2 * k2) * 4 + (k4 * k4) * 4
  /\ 0 <= ((k2 * k2) * 4 + (k4 * k4) * 4) * (vxi * vxi + vyi * vyi)
          - ((k2 * vxi * 4 + k4 * vyi * 4) * (k2 * vxi * 4 + k4 * vyi * 4))
            * (1 / 4).
Proof.
  intros H. split.
  - pose proof (Rle_0_sqr k2) as H2. pose proof (Rle_0_sqr k4) as H4.
    unfold Rsqr in *.
    destruct H as [H | H]; apply Rabs_gt_eps_sqr in H; lra.
  - pose proof (Rle_0_sqr (k2 * vyi - k4 * vxi)) as Hs. unfold Rsqr in Hs.
    nra.
Qed.

Lemma calc_trans_distance_mono (k2 k4 vxi vyi t1 t2 : R) :
  0 <= t1 -> t1 <= t2 ->
  calc_trans_distance_t_below_Tramp k2 k4 vxi vyi t1
  <= calc_trans_distance_t_below_Tramp k2 k4 vxi vyi t2.
Proof.
  intros H0 H12. unfold calc_trans_distance_t_below_Tramp.
  destruct (orb _ _) eqn:Hor.
  - assert (Hk : Rabs k2 > eps \/ Rabs k4 > eps).
    { destruct (Rgt_dec (Rabs k2) eps); [now left |].
      destruct (Rgt_dec (Rabs k4) eps); [now right | discriminate]. }
    destruct (blend_coefficients k2 k4 vxi vyi Hk) as [Ha HD].
    destruct (andb _ _).
    + pose proof (sqrt_pos (k2 * k2 * 4 + k4 * k4 * 4)) as Hs.
      assert (t1 * t1 <= t2 * t2) by nra. nra.
    + apply calc_abc_mono; assumption.
  - pose proof (sqrt_pos (vxi * vxi + vyi * vyi)) as Hs. nra.
Qed.

Lemma calc_trans_distance_0 (k2 k4 vxi vyi : R) :
  calc_trans_distance_t_below_Tramp k2 k4 vxi vyi 0 = 0.
Proof.
  unfold calc_trans_distance_t_below_Tramp.
  destruct (orb _ _) eqn:Hor.
  - assert (Hk : Rabs k2 > eps \/ Rabs k4 > eps).
    { destruct (Rgt_dec (Rabs k2) eps); [now left |].
      destruct (Rgt_dec (Rabs k4) eps); [now right | discriminate]. }
    destruct (blend_coefficients k2 k4 vxi vyi Hk) as [Ha HD].
    destruct (andb _ _).
    + lra.
    + apply calc_abc_0; [assumption |].
      pose proof (Rle_0_sqr vxi). pose proof (Rle_0_sqr vyi).
      unfold Rsqr in *. lra.
  - ring.
Qed.


Lemma dist_at_mono (p : CPTG_Holo_Blend) (k : Z) (t1 t2 : R) :
  0 <= V_MAX p -> 0 <= t1 -> t1 <= t2 -> dist_at p k t1 <= dist_at p k t2.
Proof.
  intros HV H0 H12. unfold dist_at.
  destruct (Rlt_dec t1 (T_ramp p)) as [H1 | H1];
    destruct (Rlt_dec t2 (T_ramp p)) as [H2 | H2]; try lra.
  - apply calc_trans_distance_mono; assumption.
  - pose proof (calc_trans_distance_mono (k2 p k) (k4 p k) (vxi p) (vyi p)
                  t1 (T_ramp p) H0 (Rlt_le _ _ H1)).
    nra.
  - nra.
Qed.

Lemma PATH_TIME_STEP_pos : 0 < PATH_TIME_STEP.
Proof. unfold PATH_TIME_STEP. lra. Qed.

(** ** Where the distance is a number *)

Lemma calc_abc_log_args (t a b c : R) :
  calc_trans_distance_t_below_Tramp_abc t a b c
  = (t * (1 / 2) + (b * (1 / 4)) / a) * sqrt (c + b * t + a * (t * t))
    + 1 / Rpower a (3 / 2) * ln (log_arg_t t a b c)
      * (a * c - (b * b) * (1 / 4)) * (1 / 2)
    - ((b * sqrt c * (1 / 4)) / a
       + 1 / Rpower a (3 / 2) * ln (log_arg_t0 a b c)
         * (a * c - (b * b) * (1 / 4)) * (1 / 2)).
Proof. reflexivity. Qed.

Section LogArguments.
(** The coefficients of a squared speed: [a > 0], [c >= 0] and a
    discriminant that is not positive. *)
Variables a b c : R.
Hypothesis a_pos : 0 < a.
Hypothesis c_nonneg : 0 <= c.
Hypothesis discr_nonneg : 0 <= a * c - (b * b) * (1 / 4).

Lemma log_arg_t0_value :
  log_arg_t0 a b c * (2 * sqrt a) = b + 2 * (sqrt a * sqrt c).
Proof.
  pose proof (sqrt_lt_R0 a a_pos) as Hsa.
  unfold log_arg_t0. field. lra.
Qed.

Lemma sqrt_coefficients :
  0 <= sqrt a * sqrt c
  /\ (sqrt a * sqrt c) * (sqrt a * sqrt c)
     = (b * (1 / 2)) * (b * (1 / 2)) + (a * c - (b * b) * (1 / 4)).
Proof.
  pose proof (sqrt_pos a) as Hsa. pose proof (sqrt_pos c) as Hsc.
  pose proof (sqrt_sqrt a (Rlt_le _ _ a_pos)) as Ha2.
  pose proof (sqrt_sqrt c c_nonneg) as Hc2.
  split; [nra |].
  replace (sqrt a * sqrt c * (sqrt a * sqrt c))
    with ((sqrt a * sqrt a) * (sqrt c * sqrt c)) by ring.
  rewrite Ha2, Hc2. lra.
Qed.

Lemma log_arg_t0_nonneg : 0 <= log_arg_t0 a b c.
Proof.
  pose proof (sqrt_lt_R0 a a_pos) as Hsa.
  pose proof log_arg_t0_value as Hv.
  destruct sqrt_coefficients as [Hz Hz2].
  set (z := sqrt a * sqrt c) in *. set (L := log_arg_t0 a b c) in *.
  clearbody z L.
  assert (Hb : 0 <= b + 2 * z) by nra.
  nra.
Qed.

(** The argument of the logarithm of [int_t0] is 0 exactly when the
    discriminant is 0 and [b] is not positive; the factor of the logarithm,
    the discriminant, is then 0 as well. *)
Lemma log_arg_t0_zero :
  log_arg_t0 a b c = 0 <-> a * c - (b * b) * (1 / 4) = 0 /\ b <= 0.
Proof.
  pose proof (sqrt_lt_R0 a a_pos) as Hsa.
  pose proof log_arg_t0_value as Hv.
  destruct sqrt_coefficients as [Hz Hz2].
  set (z := sqrt a * sqrt c) in *. set (L := log_arg_t0 a b c) in *.
  set (D := a * c - b * b * (1 / 4)) in *.
  clearbody z L D. split.
  - intros HL. rewrite HL in Hv. split; nra.
  - intros [HD Hb]. assert (Hbz : b + 2 * z = 0) by nra. nra.
Qed.

Lemma log_arg_t_0 : log_arg_t 0 a b c = log_arg_t0 a b c.
Proof.
  pose proof (sqrt_lt_R0 a a_pos) as Hsa.
  unfold log_arg_t, log_arg_t0.
  replace (c + b * 0 + a * (0 * 0)) with c by ring. field. lra.
Qed.

(** When the argument of the logarithm of [int_t0] is positive, so is the
    one of [int_t] at every time that is not negative. *)
Lemma log_arg_t_pos (t : R) :
  0 < log_arg_t0 a b c -> 0 <= t -> 0 < log_arg_t t a b c.
Proof.
  intros H0 Ht.
  pose proof (sqrt_lt_R0 a a_pos) as Hsa.
  pose proof (sqrt_sqrt a (Rlt_le _ _ a_pos)) as Ha2.
  pose proof log_arg_t0_value as Hv.
  destruct sqrt_coefficients as [Hz Hz2].
  assert (Hq : 0 <= c + b * t + a * (t * t))
    by (apply quad_nonneg; assumption).
  pose proof (sqrt_pos (c + b * t + a * (t * t))) as Hs.
  pose proof (sqrt_sqrt _ Hq) as Hs2.
  assert (HLt : log_arg_t t a b c * sqrt a
                = (b * (1 / 2) + a * t)
                  + sqrt a * sqrt (c + b * t + a * (t * t))).
  { unfold log_arg_t. field. lra. }
  set (s := sqrt (c + b * t + a * (t * t))) in *.
  set (z := sqrt a * sqrt c) in *. set (L0 := log_arg_t0 a b c) in *.
  set (L := log_arg_t t a b c) in *.
  set (D := a * c - b * b * (1 / 4)) in *.
  set (sa := sqrt a) in *.
  assert (Hbz : 0 < b + 2 * z) by (clearbody L0 z; nra).
  assert (Hzs : (sa * s) * (sa * s)
                = (b * (1 / 2) + a * t) * (b * (1 / 2) + a * t) + D).
  { replace (sa * s * (sa * s)) with ((sa * sa) * (s * s)) by ring.
    rewrite Ha2, Hs2. unfold D. field. }
  assert (Hsas : 0 <= sa * s) by (clearbody sa s; nra).
  set (w := b * (1 / 2) + a * t) in *. set (y := sa * s) in *.
  assert (Hwy : 0 < w + y).
  { destruct discr_nonneg as [HD | HD].
    - fold D in HD. clearbody w y D.
      destruct (Rle_dec 0 w); [| nra].
      destruct (Req_dec y 0) as [E | E]; [rewrite E in Hzs; nra | nra].
    - fold D in HD. rewrite <- HD in Hzs, Hz2.
      assert (Hb : 0 < b).
      { clearbody z. destruct (Rlt_dec 0 b); [assumption | nra]. }
      assert (Hw : 0 < w) by (unfold w; nra).
      clearbody w y. nra. }
  clearbody L w y sa. nra.
Qed.
End LogArguments.

Lemma coef_blend (p : CPTG_Holo_Blend) (k : Z) :
  Rabs (k2 p k) > eps \/ Rabs (k4 p k) > eps ->
  0 < coef_a p k /\ 0 <= coef_c p
  /\ 0 <= coef_a p k * coef_c p - (coef_b p k * coef_b p k) * (1 / 4).
Proof.
  intros Hk.
  destruct (blend_coefficients (k2 p k) (k4 p k) (vxi p) (vyi p) Hk)
    as [Ha HD].
  split; [exact Ha |]. split; [| exact HD].
  unfold coef_c. pose proof (Rle_0_sqr (vxi p)). pose proof (Rle_0_sqr (vyi p)).
  unfold Rsqr in *. lra.
Qed.

(** The discriminant measures how far the current velocity is from the
    line of the change of velocity. *)
Lemma coef_discriminant (p : CPTG_Holo_Blend) (k : Z) :
  coef_a p k * coef_c p - (coef_b p k * coef_b p k) * (1 / 4)
  = 4 * ((k2 p k * vyi p - k4 p k * vxi p)
         * (k2 p k * vyi p - k4 p k * vxi p)).
Proof. unfold coef_a, coef_b, coef_c. field. Qed.

(** The directions whose distance is not a number: the closed form with
    the logarithms is called, the current velocity is on the line of the
    change of velocity, and it does not point along that change (the robot
    brakes on a straight line, or reverses). *)
Lemma distance_defined_iff (p : CPTG_Holo_Blend) (k : Z) :
  distance_defined p k
  <-> ~ ((Rabs (k2 p k) > eps \/ Rabs (k4 p k) > eps)
         /\ ~ (Rabs (coef_b p k) < eps /\ Rabs (coef_c p) < eps)
         /\ k2 p k * vyi p = k4 p k * vxi p
         /\ k2 p k * vxi p + k4 p k * vyi p <= 0).
Proof.
  unfold distance_defined. split.
  - intros Hdef (Hk & Hbc & Hcol & Hb).
    specialize (Hdef Hk Hbc).
    destruct (coef_blend p k Hk) as (Ha & Hc & HD).
    assert (Hz : log_arg_t0 (coef_a p k) (coef_b p k) (coef_c p) = 0).
    { apply log_arg_t0_zero; try assumption. split.
      - rewrite coef_discriminant. nra.
      - unfold coef_b. lra. }
    lra.
  - intros Hn Hk Hbc.
    destruct (coef_blend p k Hk) as (Ha & Hc & HD).
    destruct (log_arg_t0_nonneg _ (coef_b p k) _ Ha Hc HD) as [Hpos | Hz];
      [exact Hpos |].
    exfalso. apply Hn. symmetry in Hz.
    apply log_arg_t0_zero in Hz; try assumption.
    destruct Hz as [HD0 Hb]. rewrite coef_discriminant in HD0.
    split; [exact Hk |]. split; [exact Hbc |]. split.
    + assert (H : (k2 p k * vyi p - k4 p k * vxi p)
                  * (k2 p k * vyi p - k4 p k * vxi p) = 0) by lra.
      apply Rmult_integral in H. lra.
    + unfold coef_b in Hb. lra.
Qed.

(** On a direction whose distance is a number, both logarithms of the
    closed form have a positive argument at every time that is not
    negative. *)
Lemma distance_defined_log_args (p : CPTG_Holo_Blend) (k : Z) (t : R) :
  distance_defined p k ->
  Rabs (k2 p k) > eps \/ Rabs (k4 p k) > eps ->
  ~ (Rabs (coef_b p k) < eps /\ Rabs (coef_c p) < eps) ->
  0 <= t ->
  0 < log_arg_t t (coef_a p k) (coef_b p k) (coef_c p)
  /\ 0 < log_arg_t0 (coef_a p k) (coef_b p k) (coef_c p).
Proof.
  intros Hdef Hk Hbc Ht. specialize (Hdef Hk Hbc).
  destruct (coef_blend p k Hk) as (Ha & Hc & HD).
  split; [| exact Hdef]. apply log_arg_t_pos; assumption.
Qed.

Lemma distance_defined_from_rest (p : CPTG_Holo_Blend) (k : Z) :
  vxi p = 0 -> vyi p = 0 -> distance_defined p k.
Proof.
  intros Hx Hy _ Hbc. exfalso. apply Hbc.
  unfold coef_b, coef_c. rewrite Hx, Hy.
  replace (k2 p k * 0 * 4 + k4 p k * 0 * 4) with 0 by ring.
  replace (0 * 0 + 0 * 0) with 0 by ring.
  rewrite Rabs_R0. unfold eps. lra.
Qed.

Lemma distance_defined_along (p : CPTG_Holo_Blend) (k : Z) :
  0 < coef_b p k -> distance_defined p k.
Proof.
  intros Hb. apply distance_defined_iff. intros (_ & _ & _ & H).
  unfold coef_b in Hb. lra.
Qed.

Lemma distance_defined_across (p : CPTG_Holo_Blend) (k : Z) :
  k2 p k * vyi p <> k4 p k * vxi p -> distance_defined p k.
Proof.
  intros Hn. apply distance_defined_iff. intros (_ & _ & H & _).
  contradiction.
Qed.

(** C3 (a defect of the code): the travelled distance is not a number,
    at any step, on a direction for which the robot moves on the line of
    the change of velocity without pointing along it (it brakes on a
    straight line, or reverses).  There [calc_trans_distance_t_below_Tramp]
    calls the closed form with the logarithms, at every step of
    [getPathDist], before the end of the ramp and after it; the argument
    of the logarithm of [int_t0] is 0 and the factor that multiplies it is
    0: the source computes [log(0) * 0].  The real-valued functions of
    this development do not give the value of the source on such a
    direction, which is not [distance_defined]. *)
Theorem getPathDist_log_of_zero (p : CPTG_Holo_Blend) (k : Z) :
  Rabs (k2 p k) > eps \/ Rabs (k4 p k) > eps ->
  ~ (Rabs (coef_b p k) < eps /\ Rabs (coef_c p) < eps) ->
  k2 p k * vyi p = k4 p k * vxi p ->
  k2 p k * vxi p + k4 p k * vyi p <= 0 ->
  (forall t : R,
      calc_trans_distance_t_below_Tramp (k2 p k) (k4 p k) (vxi p) (vyi p) t
      = calc_trans_distance_t_below_Tramp_abc t
          (coef_a p k) (coef_b p k) (coef_c p))
  /\ (forall step : Z,
        getPathDist p k step
        = if Rlt_dec (PATH_TIME_STEP * IZR step) (T_ramp p)
          then calc_trans_distance_t_below_Tramp_abc
                 (PATH_TIME_STEP * IZR step)
                 (coef_a p k) (coef_b p k) (coef_c p)
          else (PATH_TIME_STEP * IZR step - T_ramp p) * V_MAX p
               + calc_trans_distance_t_below_Tramp_abc (T_ramp p)
                   (coef_a p k) (coef_b p k) (coef_c p))
  /\ log_arg_t0 (coef_a p k) (coef_b p k) (coef_c p) = 0
  /\ coef_a p k * coef_c p - (coef_b p k * coef_b p k) * (1 / 4) = 0
  /\ ~ distance_defined p k.
Proof.
  intros Hk Hbc Hcol Hb.
  destruct (coef_blend p k Hk) as (Ha & Hc & HD).
  assert (HD0 : coef_a p k * coef_c p - coef_b p k * coef_b p k * (1 / 4)
                = 0).
  { rewrite coef_discriminant. nra. }
  assert (Hcalc : forall t : R,
            calc_trans_distance_t_below_Tramp (k2 p k) (k4 p k) (vxi p)
              (vyi p) t
            = calc_trans_distance_t_below_Tramp_abc t
                (coef_a p k) (coef_b p k) (coef_c p)).
  { intros t. unfold calc_trans_distance_t_below_Tramp. cbv zeta.
    fold (coef_c p). fold (coef_a p k). fold (coef_b p k).
    destruct Hk as [Hk | Hk].
    + destruct (Rgt_dec (Rabs (k2 p k)) eps); [| contradiction].
      cbn [orb].
      destruct (Rlt_dec (Rabs (coef_b p k)) eps);
        destruct (Rlt_dec (Rabs (coef_c p)) eps); cbn [andb];
        try reflexivity.
      exfalso. apply Hbc. split; assumption.
    + destruct (Rgt_dec (Rabs (k4 p k)) eps); [| contradiction].
      rewrite orb_true_r.
      destruct (Rlt_dec (Rabs (coef_b p k)) eps);
        destruct (Rlt_dec (Rabs (coef_c p)) eps); cbn [andb];
        try reflexivity.
      exfalso. apply Hbc. split; assumption. }
  split; [exact Hcalc |]. split; [| split; [| split]].
  - intros step. unfold getPathDist, dist_at. rewrite !Hcalc. reflexivity.
  - apply log_arg_t0_zero; try assumption.
    split; [exact HD0 | unfold coef_b; lra].
  - exact HD0.
  - intros Hdef. apply distance_defined_iff in Hdef. apply Hdef.
    repeat split; assumption.
Qed.

Lemma initialize_straight_ahead (T V vx0 vy0 ref : R) :
  0 < T -> 0 < V -> initialize (straight_ahead T V vx0 vy0 ref) = Returns tt.
Proof.
  intros HT HV. pose proof PI_RGT_0 as Hpi.
  unfold initialize, straight_ahead, ASSERT_, bind; simpl.
  do 3 rtest. reflexivity.
Qed.

(** ** Heading *)

(** The heading at time [t]: the angle turned at full angular speed,
    capped by the angle of the direction, with the sign of that angle. *)
Lemma heading_closed_form (p : CPTG_Holo_Blend) (k : Z) (t : R) :
  0 < W_MAX p -> 0 <= t ->
  TPose2D.phi (pose_at p k t)
  = (if Rle_dec 0 (dir p k) then 1 else -1)
    * Rmin (t * W_MAX p) (Rabs (dir p k)).
Proof.
  intros HW Ht. unfold pose_at; simpl.
  set (d := dir p k). set (W := W_MAX p) in *.
  assert (HA : Rabs d / W * W = Rabs d) by (field; lra).
  set (A := Rabs d / W) in *.
  destruct (Rlt_dec t A) as [Hlt | Hge].
  - assert (HtW : t * W < Rabs d) by nra.
    rewrite Rmin_left by lra.
    assert (HA0 : 0 < A) by lra.
    assert (Hd : Rabs d = A * W) by lra.
    destruct (Rle_dec 0 d) as [Hs | Hs].
    + rewrite Rabs_right in Hd by lra. rewrite Hd. field. lra.
    + rewrite Rabs_left in Hd by lra.
      replace d with (- (A * W)) by lra. field. lra.
  - assert (HtW : Rabs d <= t * W) by nra.
    rewrite Rmin_right by lra.
    destruct (Rle_dec 0 d) as [Hs | Hs].
    + rewrite Rabs_right by lra. ring.
    + rewrite Rabs_left by lra. ring.
Qed.



(** ** From a distance to a step *)

Lemma round_near (z : Z) (v : R) :
  IZR z - / 2 <= v -> v < IZR z + / 2 -> round v = z.
Proof.
  intros H1 H2. unfold round.
  rewrite <- (up_tech (v + / 2) z).
  - lia.
  - lra.
  - rewrite plus_IZR. lra.
Qed.

Lemma getPathStepForDist_of_time (p : CPTG_Holo_Blend) (k : Z) (dist t : R) :
  solve_time p k dist = Returns t ->
  getPathStepForDist p k dist
  = Returns (if Rge_dec t 0
             then Some (to_uint16 (round (t / PATH_TIME_STEP)))
             else None).
Proof.
  intros H. unfold getPathStepForDist. rewrite H. simpl.
  destruct (Rge_dec t 0); reflexivity.
Qed.

Lemma solve_time_coasting (p : CPTG_Holo_Blend) (k : Z) (dist : R) :
  dist >= distAtRamp p k ->
  solve_time p k dist
  = Returns (T_ramp p + (dist - distAtRamp p k) / V_MAX p).
Proof.
  intros H. unfold solve_time. fold (distAtRamp p k).
  destruct (Rge_dec dist (distAtRamp p k)); [reflexivity | contradiction].
Qed.

Lemma coasting_time_ge (T V dist d0 : R) :
  0 < V -> dist >= d0 -> T <= T + (dist - d0) / V.
Proof.
  intros HV Hd.
  assert (0 <= (dist - d0) / V).
  { apply Rmult_le_pos; [lra |]. left. apply Rinv_0_lt_compat. exact HV. }
  lra.
Qed.

(** C6 (as the code has it): on a direction whose distance is a number,
    for a distance not below the one at the end of the ramp,
    [getPathStepForDist] succeeds; with
    [t = T_ramp + (dist - distAtRamp) / V_MAX], the step it returns is
    [round (t / PATH_TIME_STEP)] stored into a [uint16_t], that is reduced
    modulo 2^16, hence that very number when it is below 65536; [t] is
    past the ramp and the travelled distance at [t] is [dist].  Nothing is
    said of the directions whose distance is not a number, where the
    source compares [dist] with a NaN. *)
Theorem getPathStepForDist_coasting (p : CPTG_Holo_Blend) (k : Z) (dist : R) :
  initialize p = Returns tt ->
  distance_defined p k ->
  dist >= distAtRamp p k ->
  getPathStepForDist p k dist
  = Returns (Some (to_uint16
                     (round ((T_ramp p + (dist - distAtRamp p k) / V_MAX p)
                             / PATH_TIME_STEP))))
  /\ ((0 <= round ((T_ramp p + (dist - distAtRamp p k) / V_MAX p)
                   / PATH_TIME_STEP) < 65536)%Z ->
      getPathStepForDist p k dist
      = Returns (Some (round ((T_ramp p + (dist - distAtRamp p k) / V_MAX p)
                              / PATH_TIME_STEP))))
  /\ T_ramp p <= T_ramp p + (dist - distAtRamp p k) / V_MAX p
  /\ dist_at p k (T_ramp p + (dist - distAtRamp p k) / V_MAX p) = dist.
Proof.
  intros Hinit _ Hd. apply initialize_Returns in Hinit.
  destruct Hinit as (HT & HV & _ & _).
  pose proof (coasting_time_ge (T_ramp p) (V_MAX p) dist (distAtRamp p k)
                HV Hd) as Ht.
  set (t := T_ramp p + (dist - distAtRamp p k) / V_MAX p) in *.
  assert (Hstep : getPathStepForDist p k dist
                  = Returns (Some (to_uint16 (round (t / PATH_TIME_STEP))))).
  { rewrite (getPathStepForDist_of_time p k dist t)
      by (apply solve_time_coasting; assumption).
    destruct (Rge_dec t 0); [reflexivity | lra]. }
  split; [exact Hstep |]. split; [| split].
  - intros Hr. rewrite Hstep. unfold to_uint16.
    rewrite Z.mod_small by lia. reflexivity.
  - exact Ht.
  - unfold dist_at. destruct (Rlt_dec t (T_ramp p)); [lra |].
    fold (distAtRamp p k). unfold t. field. lra.
Qed.

(** ** Evaluation on the sample objects *)

Section StraightAhead.
Variables T V vx0 vy0 ref : R.
Variable k : Z.
Let p := straight_ahead T V vx0 vy0 ref.

Lemma straight_ahead_vxf : vxf p k = V.
Proof. unfold vxf, dir, p; simpl. rewrite cos_0. ring. Qed.

Lemma straight_ahead_vyf : vyf p k = 0.
Proof. unfold vyf, dir, p; simpl. rewrite sin_0. ring. Qed.

Lemma straight_ahead_k2 : k2 p k = (V - vx0) * (1 / (2 * T)).
Proof. unfold k2. rewrite straight_ahead_vxf. reflexivity. Qed.

Lemma straight_ahead_k4 : k4 p k = (0 - vy0) * (1 / (2 * T)).
Proof. unfold k4. rewrite straight_ahead_vyf. reflexivity. Qed.
End StraightAhead.

(** Ahead from a velocity that points ahead and is not above the final
    one, the distance is a number. *)
Lemma distance_defined_straight_ahead (T V vx0 ref : R) (k : Z) :
  0 < T -> 0 <= vx0 -> vx0 <= V ->
  distance_defined (straight_ahead T V vx0 0 ref) k.
Proof.
  intros HT H0 HV. apply distance_defined_iff.
  unfold coef_b, coef_c.
  rewrite straight_ahead_k2, straight_ahead_k4.
  cbn [vxi vyi curVelLocal straight_ahead TTwist2D.vx TTwist2D.vy].
  replace ((0 - 0) * (1 / (2 * T))) with 0 by (field; lra).
  intros (Hk & Hbc & _ & Hb).
  assert (HT2 : 0 < 1 / (2 * T)).
  { apply Rdiv_lt_0_compat; lra. }
  set (u := 1 / (2 * T)) in *. clearbody u.
  assert (Hp : 0 <= (V - vx0) * u) by nra.
  assert (Hp2 : 0 <= (V - vx0) * u * vx0) by nra.
  assert (Hz : (V - vx0) * u * vx0 = 0) by lra.
  apply Rmult_integral in Hz. destruct Hz as [Hz | Hz].
  - destruct Hk as [Hk | Hk]; [rewrite Hz in Hk | ];
      rewrite Rabs_R0 in Hk; unfold eps in Hk; lra.
  - apply Hbc. rewrite Hz.
    replace ((V - 0) * u * 0 * 4 + 0 * 0 * 4) with 0 by ring.
    replace (0 * 0 + 0 * 0) with 0 by ring.
    rewrite Rabs_R0. unfold eps. lra.
Qed.

(** ** The distance on the sample object moving backwards *)

Lemma reverse_coefficients_values :
  k2 ptg_reverse 0 = 1 /\ k4 ptg_reverse 0 = 0
  /\ vxi ptg_reverse = -1 /\ vyi ptg_reverse = 0.
Proof.
  unfold ptg_reverse. rewrite straight_ahead_k2, straight_ahead_k4.
  cbn [vxi vyi curVelLocal straight_ahead TTwist2D.vx TTwist2D.vy].
  repeat split; lra.
Qed.

Lemma getPathDist_log_of_zero_witness :
  initialize ptg_reverse = Returns tt
  /\ coef_a ptg_reverse 0 = 4 /\ coef_b ptg_reverse 0 = -4
  /\ coef_c ptg_reverse = 1
  /\ (forall step : Z,
        getPathDist ptg_reverse 0 step
        = if Rlt_dec (PATH_TIME_STEP * IZR step) (T_ramp ptg_reverse)
          then calc_trans_distance_t_below_Tramp_abc
                 (PATH_TIME_STEP * IZR step)
                 (coef_a ptg_reverse 0) (coef_b ptg_reverse 0)
                 (coef_c ptg_reverse)
          else (PATH_TIME_STEP * IZR step - T_ramp ptg_reverse)
               * V_MAX ptg_reverse
               + calc_trans_distance_t_below_Tramp_abc (T_ramp ptg_reverse)
                   (coef_a ptg_reverse 0) (coef_b ptg_reverse 0)
                   (coef_c ptg_reverse))
  /\ log_arg_t0 (coef_a ptg_reverse 0) (coef_b ptg_reverse 0)
       (coef_c ptg_reverse) = 0
  /\ coef_a ptg_reverse 0 * coef_c ptg_reverse
     - (coef_b ptg_reverse 0 * coef_b ptg_reverse 0) * (1 / 4) = 0
  /\ ~ distance_defined ptg_reverse 0.
Proof.
  destruct reverse_coefficients_values as (Hk2 & Hk4 & Hvx & Hvy).
  assert (Ha : coef_a ptg_reverse 0 = 4)
    by (unfold coef_a; rewrite Hk2, Hk4; lra).
  assert (Hb : coef_b ptg_reverse 0 = -4)
    by (unfold coef_b; rewrite Hk2, Hk4, Hvx, Hvy; lra).
  assert (Hc : coef_c ptg_reverse = 1)
    by (unfold coef_c; rewrite Hvx, Hvy; lra).
  assert (H1 : Rabs (k2 ptg_reverse 0) > eps \/ Rabs (k4 ptg_reverse 0) > eps).
  { left. rewrite Hk2, Rabs_right by lra. unfold eps. lra. }
  assert (H2 : ~ (Rabs (coef_b ptg_reverse 0) < eps
                  /\ Rabs (coef_c ptg_reverse) < eps)).
  { rewrite Hc. intros [_ H]. rewrite Rabs_right in H by lra.
    unfold eps in H. lra. }
  assert (H3 : k2 ptg_reverse 0 * vyi ptg_reverse
               = k4 ptg_reverse 0 * vxi ptg_reverse)
    by (rewrite Hk2, Hk4, Hvx, Hvy; lra).
  assert (H4 : k2 ptg_reverse 0 * vxi ptg_reverse
               + k4 ptg_reverse 0 * vyi ptg_reverse <= 0)
    by (rewrite Hk2, Hk4, Hvx, Hvy; lra).
  destruct (getPathDist_log_of_zero ptg_reverse 0 H1 H2 H3 H4)
    as (_ & Hdist & Hlog & Hdisc & Hnd).
  split; [apply initialize_straight_ahead; lra |].
  split; [exact Ha |]. split; [exact Hb |]. split; [exact Hc |].
  split; [exact Hdist |].
  split; [exact Hlog | split; [exact Hdisc | exact Hnd]].
Defined.

(** From rest, the distance is that of a constant acceleration. *)
Lemma calc_trans_distance_from_rest (k2 t : R) :
  k2 > eps -> calc_trans_distance_t_below_Tramp k2 0 0 0 t = k2 * (t * t).
Proof.
  unfold eps. intros Hk. unfold calc_trans_distance_t_below_Tramp.
  rewrite (Rabs_right k2) by lra.
  destruct (Rgt_dec k2 eps) as [_ | Hn]; [| unfold eps in Hn; lra].
  cbn [orb].
  replace (k2 * 0 * 4 + 0 * 0 * 4) with 0 by ring.
  replace (0 * 0 + 0 * 0) with 0 by ring.
  rewrite Rabs_R0.
  destruct (Rlt_dec 0 eps) as [_ | Hn]; [| unfold eps in Hn; lra].
  cbn [andb].
  replace (k2 * k2 * 4 + 0 * 0 * 4) with ((2 * k2) * (2 * k2)) by ring.
  rewrite sqrt_square by lra. lra.
Qed.

(** With the log term switched off by a vanishing discriminant, the
    antiderivative is a polynomial. *)
Lemma calc_abc_collinear (m q t : R) :
  0 < m -> 0 <= q -> 0 <= m * t + q ->
  calc_trans_distance_t_below_Tramp_abc t (m * m) (2 * m * q) (q * q)
  = q * t + m * (t * t) / 2.
Proof.
  intros Hm Hq Ht. unfold calc_trans_distance_t_below_Tramp_abc.
  replace (q * q + 2 * m * q * t + m * m * (t * t))
    with ((m * t + q) * (m * t + q)) by ring.
  rewrite !sqrt_square by lra.
  replace (m * m * (q * q) - 2 * m * q * (2 * m * q) * (1 / 4)) with 0
    by field.
  field. split; [| lra].
  unfold Rpower. pose proof (exp_pos (3 / 2 * ln (m * m))). lra.
Qed.

(** Blending ahead from a forward velocity [vx0]. *)
Lemma calc_trans_distance_ahead (k2 vx0 t : R) :
  k2 > eps -> vx0 * vx0 >= eps -> 0 <= vx0 -> 0 <= 2 * k2 * t + vx0 ->
  calc_trans_distance_t_below_Tramp k2 0 vx0 0 t = vx0 * t + k2 * (t * t).
Proof.
  unfold eps. intros Hk Hc Hv Ht. unfold calc_trans_distance_t_below_Tramp.
  rewrite (Rabs_right k2) by lra.
  destruct (Rgt_dec k2 eps) as [_ | Hn]; [| unfold eps in Hn; lra].
  cbn [orb].
  replace (vx0 * vx0 + 0 * 0) with (vx0 * vx0) by ring.
  rewrite (Rabs_right (vx0 * vx0)) by lra.
  destruct (Rlt_dec (vx0 * vx0) eps) as [Hn | _]; [unfold eps in Hn; lra |].
  rewrite andb_false_r.
  replace (k2 * k2 * 4 + 0 * 0 * 4) with ((2 * k2) * (2 * k2)) by ring.
  replace (k2 * vx0 * 4 + 0 * 0 * 4) with (2 * (2 * k2) * vx0) by ring.
  rewrite calc_abc_collinear by lra. lra.
Qed.

Lemma distAtRamp_rest : distAtRamp ptg_rest 0 = 1 / 2.
Proof.
  unfold distAtRamp, ptg_rest.
  rewrite straight_ahead_k2, straight_ahead_k4.
  cbn [T_ramp vxi vyi curVelLocal straight_ahead TTwist2D.vx TTwist2D.vy].
  replace ((1 - 0) * (1 / (2 * 1))) with (1 / 2) by lra.
  replace ((0 - 0) * (1 / (2 * 1))) with 0 by lra.
  rewrite calc_trans_distance_from_rest by (unfold eps; lra). lra.
Qed.

Lemma distAtRamp_blend : distAtRamp ptg_blend 0 = 0.095.
Proof.
  unfold distAtRamp, ptg_blend.
  rewrite straight_ahead_k2, straight_ahead_k4.
  cbn [T_ramp vxi vyi curVelLocal straight_ahead TTwist2D.vx TTwist2D.vy].
  replace ((0.1 - 0.09) * (1 / (2 * 1))) with 0.005 by lra.
  replace ((0 - 0) * (1 / (2 * 1))) with 0 by lra.
  rewrite calc_trans_distance_ahead by (unfold eps; lra). lra.
Qed.

Lemma coasting_time_rest (dist : R) :
  T_ramp ptg_rest + (dist - distAtRamp ptg_rest 0) / V_MAX ptg_rest
  = dist + 1 / 2.
Proof.
  rewrite distAtRamp_rest. cbn [T_ramp V_MAX ptg_rest straight_ahead]. lra.
Qed.

(** C6, the claim as stated fails: 699.5 m on the sample object at rest
    is reached at t = 700 s, whose step number 70000 does not fit 16 bits;
    the step returned is 4464. *)
Lemma getPathStepForDist_coasting_wraps :
  initialize ptg_rest = Returns tt
  /\ 699.5 >= distAtRamp ptg_rest 0
  /\ round ((T_ramp ptg_rest + (699.5 - distAtRamp ptg_rest 0)
                               / V_MAX ptg_rest) / PATH_TIME_STEP)
     = 70000%Z
  /\ getPathStepForDist ptg_rest 0 699.5 = Returns (Some 4464%Z).
Proof.
  assert (Hr : round ((699.5 + 1 / 2) / PATH_TIME_STEP) = 70000%Z).
  { apply round_near; unfold PATH_TIME_STEP; lra. }
  split; [apply initialize_straight_ahead; lra |].
  split; [rewrite distAtRamp_rest; lra |].
  split; [rewrite coasting_time_rest; exact Hr |].
  rewrite (getPathStepForDist_of_time ptg_rest 0 699.5 (699.5 + 1 / 2)).
  - destruct (Rge_dec (699.5 + 1 / 2) 0); [| lra]. rewrite Hr. reflexivity.
  - rewrite solve_time_coasting by (rewrite distAtRamp_rest; lra).
    rewrite coasting_time_rest. reflexivity.
Qed.

Lemma coasting_time_blend (dist : R) :
  T_ramp ptg_blend + (dist - distAtRamp ptg_blend 0) / V_MAX ptg_blend
  = 1 + (dist - 0.095) / 0.1.
Proof.
  rewrite distAtRamp_blend. cbn [T_ramp V_MAX ptg_blend straight_ahead].
  reflexivity.
Qed.

Lemma getPathStepForDist_coasting_witness :
  initialize ptg_blend = Returns tt
  /\ distance_defined ptg_blend 0
  /\ 1 >= distAtRamp ptg_blend 0
  /\ (0 <= round ((T_ramp ptg_blend + (1 - distAtRamp ptg_blend 0)
                                      / V_MAX ptg_blend) / PATH_TIME_STEP)
       < 65536)%Z
  /\ getPathStepForDist ptg_blend 0 1 = Returns (Some 1005%Z)
  /\ dist_at ptg_blend 0
       (T_ramp ptg_blend + (1 - distAtRamp ptg_blend 0) / V_MAX ptg_blend)
     = 1.
Proof.
  assert (Hi : initialize ptg_blend = Returns tt)
    by (apply initialize_straight_ahead; lra).
  assert (Hn : distance_defined ptg_blend 0)
    by (apply distance_defined_straight_ahead; lra).
  assert (Hd : 1 >= distAtRamp ptg_blend 0)
    by (rewrite distAtRamp_blend; lra).
  assert (Hround : round ((T_ramp ptg_blend + (1 - distAtRamp ptg_blend 0)
                                              / V_MAX ptg_blend)
                          / PATH_TIME_STEP) = 1005%Z).
  { rewrite coasting_time_blend.
    apply round_near; unfold PATH_TIME_STEP; lra. }
  assert (Hr : (0 <= round ((T_ramp ptg_blend + (1 - distAtRamp ptg_blend 0)
                                               / V_MAX ptg_blend)
                            / PATH_TIME_STEP) < 65536)%Z)
    by (rewrite Hround; lia).
  split; [exact Hi |]. split; [exact Hn |]. split; [exact Hd |].
  split; [exact Hr |]. split.
  - rewrite <- Hround.
    exact (proj1 (proj2 (getPathStepForDist_coasting ptg_blend 0 1 Hi Hn Hd))
             Hr).
  - exact (proj2 (proj2 (proj2
             (getPathStepForDist_coasting ptg_blend 0 1 Hi Hn Hd)))).
Defined.

(** ** The scan over the directions *)

(** What [n] turns from direction [k0] do to the state: either nothing,
    and then no direction met was better than the state; or the state is a
    direction met, strictly better than the initial state, not worse than
    any direction met, and strictly better than those met before it. *)
Lemma scan_spec (p : CPTG_Holo_Blend) (x y : R) (n : nat) :
  forall (k0 : Z) (st : found),
    (scan p x y n k0 st = st
     /\ forall j dj, (k0 <= j < k0 + Z.of_nat n)%Z ->
                     candidate p x y j = Some dj -> fst st <= dj)
    \/ ((k0 <= snd (scan p x y n k0 st) < k0 + Z.of_nat n)%Z
        /\ candidate p x y (snd (scan p x y n k0 st))
           = Some (fst (scan p x y n k0 st))
        /\ fst (scan p x y n k0 st) < fst st
        /\ (forall j dj, (k0 <= j < k0 + Z.of_nat n)%Z ->
                         candidate p x y j = Some dj ->
                         fst (scan p x y n k0 st) <= dj)
        /\ (forall j dj, (k0 <= j < snd (scan p x y n k0 st))%Z ->
                         candidate p x y j = Some dj ->
                         fst (scan p x y n k0 st) < dj)).
Proof.
  induction n as [| n IH]; intros k0 st.
  - left. split; [reflexivity |]. intros j dj Hj. lia.
  - cbn [scan].
    assert (Hcase :
      (exists d, candidate p x y k0 = Some d /\ d < fst st
                 /\ save_if_better st k0 (candidate p x y k0) = (d, k0))
      \/ (save_if_better st k0 (candidate p x y k0) = st
          /\ forall d, candidate p x y k0 = Some d -> fst st <= d)).
    { destruct (candidate p x y k0) as [d |] eqn:Hc; cbn [save_if_better].
      - destruct (Rlt_dec d (fst st)) as [Hlt | Hge].
        + left. exists d. auto.
        + right. split; [reflexivity |]. intros d' Hd'.
          injection Hd' as <-. lra.
      - right. split; [reflexivity |]. intros d' Hd'. discriminate. }
    destruct Hcase as [(d & Hc & Hlt & Hsave) | (Hsave & Hworse)];
      rewrite Hsave.
    + right.
      destruct (IH (k0 + 1)%Z (d, k0))
        as [(Heq & Hall) | (Hr & Hcr & Hb & Hall & Hbefore)].
      * rewrite Heq. cbn [fst snd] in *.
        split; [lia |]. split; [exact Hc |]. split; [exact Hlt |].
        split.
        -- intros j dj Hj Hcj.
           destruct (Z.eq_dec j k0) as [-> | Hne].
           ++ rewrite Hc in Hcj. injection Hcj as <-. lra.
           ++ apply (Hall j dj); [lia | exact Hcj].
        -- intros j dj Hj. lia.
      * cbn [fst snd] in *.
        split; [lia |]. split; [exact Hcr |]. split; [lra |].
        split.
        -- intros j dj Hj Hcj.
           destruct (Z.eq_dec j k0) as [-> | Hne].
           ++ rewrite Hc in Hcj. injection Hcj as <-. lra.
           ++ apply (Hall j dj); [lia | exact Hcj].
        -- intros j dj Hj Hcj.
           destruct (Z.eq_dec j k0) as [-> | Hne].
           ++ rewrite Hc in Hcj. injection Hcj as <-. lra.
           ++ apply (Hbefore j dj); [lia | exact Hcj].
    + destruct (IH (k0 + 1)%Z st)
        as [(Heq & Hall) | (Hr & Hcr & Hb & Hall & Hbefore)].
      * left. split; [exact Heq |].
        intros j dj Hj Hcj.
        destruct (Z.eq_dec j k0) as [-> | Hne].
        -- apply Hworse. exact Hcj.
        -- apply (Hall j dj); [lia | exact Hcj].
      * right.
        split; [lia |]. split; [exact Hcr |]. split; [exact Hb |].
        split.
        -- intros j dj Hj Hcj.
           destruct (Z.eq_dec j k0) as [-> | Hne].
           ++ pose proof (Hworse dj Hcj). lra.
           ++ apply (Hall j dj); [lia | exact Hcj].
        -- intros j dj Hj Hcj.
           destruct (Z.eq_dec j k0) as [-> | Hne].
           ++ pose proof (Hworse dj Hcj). lra.
           ++ apply (Hbefore j dj); [lia | exact Hcj].
Qed.

(** The shape of a successful call. *)
Lemma inverseMap_WS2TP_Some (p : CPTG_Holo_Blend) (x y : R) (k : Z) (d : R) :
  inverseMap_WS2TP p x y = Returns (Some (k, d)) ->
  (0 <= k < m_alphaValuesCount p)%Z
  /\ exists dk,
      candidate p x y k = Some dk
      /\ d = dk / refDistance p
      /\ (forall j dj, (0 <= j < m_alphaValuesCount p)%Z ->
                       candidate p x y j = Some dj -> dk <= dj)
      /\ (forall j dj, (0 <= j < k)%Z ->
                       candidate p x y j = Some dj -> dk < dj).
Proof.
  unfold inverseMap_WS2TP, ASSERT_, bind.
  destruct (sumbool_not _ _ _) as [_ | _]; [| discriminate].
  pose proof (scan_spec p x y (Z.to_nat (m_alphaValuesCount p)) 0 found_init)
    as Hscan.
  destruct (scan p x y (Z.to_nat (m_alphaValuesCount p)) 0 found_init)
    as [found_min_dist found_k] eqn:Hs.
  destruct (Z_ge_dec found_k 0) as [Hk | Hk]; [| discriminate].
  intros H. injection H as <- <-.
  destruct Hscan as [(Heq & _) | (Hr & Hc & _ & Hall & Hbefore)].
  - unfold found_init in Heq. injection Heq as _ Hk'. lia.
  - cbn [fst snd] in *.
    assert (Hn : (Z.of_nat (Z.to_nat (m_alphaValuesCount p))
                  = Z.max 0 (m_alphaValuesCount p))%Z) by lia.
    split; [lia |].
    exists found_min_dist. split; [exact Hc |]. split; [reflexivity |].
    split.
    + intros j dj Hj. apply Hall. lia.
    + exact Hbefore.
Qed.




(** ** The inverse map on the sample object at rest

    The target 8 m ahead: the ramp (1 s, 0.5 m) is too short, the point is
    reached while coasting, at t = 7.5 s, after 7 m. *)


Lemma solve_below_rest_x (e : R) :
  solve_below 1 e 1 0 8 axis_init = Some (mkAxis false (-1.0)).
Proof.
  unfold solve_below.
  replace (Rabs (1 - 0)) with 1 by (rewrite Rabs_right; lra).
  destruct (Rlt_dec 1 eps) as [H | _]; [unfold eps in H; lra |].
  replace ((1 * 8 * 2.0 - 0 * 8 * 2.0 + 1 * (0 * 0)) / 1) with (4 * 4) by lra.
  destruct (Rlt_dec (4 * 4) 0) as [H | _]; [lra |].
  rewrite sqrt_square by lra.
  replace (- (1 * (0 + 4)) / (1 - 0)) with (-4) by lra.
  replace (- (1 * (0 - 4)) / (1 - 0)) with 4 by lra.
  destruct (Rgt_dec (-4) 0) as [H | _]; [lra |].
  destruct (Rge_dec 4 0) as [_ | H]; [| lra].
  destruct (Rle_dec 4 1) as [H | _]; [lra |].
  reflexivity.
Qed.





Lemma DBL_MAX_above (v : R) : v <= 1000 -> v < DBL_MAX.
Proof.
  intros Hv. unfold DBL_MAX.
  assert (H : IZR 1000 < IZR (2 ^ 1024 - 2 ^ 971)).
  { apply IZR_lt. reflexivity. }
  lra.
Qed.




(** ** The Newton branch *)

(** The loop, turn by turn. *)

Lemma newton_iterate_S (a b c dist t0 : R) (j : nat) :
  newton_iterate a b c dist t0 (S j)
  = newton_iterate a b c dist (newton_update a b c dist t0) j.
Proof. unfold newton_iterate. apply Nat.iter_succ_r. Qed.

Lemma newton_iterate_0 (a b c dist t0 : R) :
  newton_iterate a b c dist t0 0 = t0.
Proof. reflexivity. Qed.

Lemma newton_iterate_1 (a b c dist t0 : R) :
  newton_iterate a b c dist t0 1 = newton_update a b c dist t0.
Proof. reflexivity. Qed.

Lemma newton_turns_0 (a b c dist t0 : R) : newton_turns a b c dist t0 0.
Proof. intros j Hj. lia. Qed.

Lemma newton_turns_S (a b c dist t0 : R) (m : nat) :
  newton_turns a b c dist t0 (S m)
  <-> (~ Rabs (calc_trans_distance_t_below_Tramp_abc t0 a b c - dist) < 1e-3
       /\ Rabs (sqrt (a * t0 * t0 + b * t0 + c)) > 1e-14)
      /\ newton_turns a b c dist (newton_update a b c dist t0) m.
Proof.
  unfold newton_turns. split.
  - intros H. split.
    + apply (H 0%nat). lia.
    + intros j Hj. rewrite <- newton_iterate_S. apply H. lia.
  - intros [H0 H] j Hj. destruct j as [| j].
    + exact H0.
    + rewrite newton_iterate_S. apply H. lia.
Qed.

(** The loop returns the value of [t_solved] after [m] turns, where [m]
    is the first turn, among the 10, at which the residual is below
    [1e-3], or 10 when there is none; it raises at the first turn whose
    derivative fails the assertion, when no earlier residual is below
    [1e-3]. *)
Lemma newton_spec (a b c dist : R) (n : nat) :
  forall t0 : R,
    (forall t : R,
        newton a b c dist n t0 = Returns t
        <-> exists m : nat,
              (m <= n)%nat
              /\ t = newton_iterate a b c dist t0 m
              /\ newton_turns a b c dist t0 m
              /\ (Rabs (calc_trans_distance_t_below_Tramp_abc t a b c - dist)
                    < 1e-3
                  \/ m = n))
    /\ (newton a b c dist n t0 = Throws
        <-> exists m : nat,
              (m < n)%nat
              /\ newton_turns a b c dist t0 m
              /\ ~ Rabs (calc_trans_distance_t_below_Tramp_abc
                           (newton_iterate a b c dist t0 m) a b c - dist)
                    < 1e-3
              /\ ~ Rabs (sqrt (a * newton_iterate a b c dist t0 m
                                 * newton_iterate a b c dist t0 m
                               + b * newton_iterate a b c dist t0 m + c))
                    > 1e-14).
Proof.
  induction n as [| n IH]; intros t0.
  - cbn [newton]. split.
    + intros t. split.
      * intros H. injection H as <-. exists 0%nat.
        split; [lia |]. split; [reflexivity |].
        split; [apply newton_turns_0 | now right].
      * intros (m & Hm & Ht & _). assert (m = 0%nat) by lia. subst m.
        rewrite Ht. reflexivity.
    + split; [discriminate |]. intros (m & Hm & _). lia.
  - cbn [newton].
    destruct (Rlt_dec
                (Rabs (calc_trans_distance_t_below_Tramp_abc t0 a b c - dist))
                1e-3) as [Hres | Hres].
    + split.
      * intros t. split.
        -- intros H. injection H as <-. exists 0%nat.
           split; [lia |]. split; [reflexivity |].
           split; [apply newton_turns_0 | now left].
        -- intros (m & Hm & Ht & Hturns & _). destruct m as [| m].
           ++ rewrite Ht. reflexivity.
           ++ apply newton_turns_S in Hturns.
              destruct Hturns as [[H _] _]. contradiction.
      * split; [discriminate |].
        intros (m & Hm & Hturns & Hr & _). destruct m as [| m].
        -- contradiction.
        -- apply newton_turns_S in Hturns.
           destruct Hturns as [[H _] _]. contradiction.
    + unfold ASSERT_, bind.
      destruct (Rgt_dec (Rabs (sqrt (a * t0 * t0 + b * t0 + c))) 1e-14)
        as [Hd | Hd].
      * destruct (IH (newton_update a b c dist t0)) as [IHr IHt].
        change (t0 - (calc_trans_distance_t_below_Tramp_abc t0 a b c - dist)
                     / sqrt (a * t0 * t0 + b * t0 + c))
          with (newton_update a b c dist t0).
        split.
        -- intros t. rewrite IHr. split.
           ++ intros (m & Hm & Ht & Hturns & Hstop). exists (S m).
              split; [lia |]. split; [rewrite newton_iterate_S; exact Ht |].
              split; [apply newton_turns_S; split; [split |]; assumption |].
              destruct Hstop as [Hlt | ->]; [now left | now right].
           ++ intros (m & Hm & Ht & Hturns & Hstop). destruct m as [| m].
              ** exfalso. destruct Hstop as [Hlt | Hz]; [| lia].
                 rewrite Ht in Hlt. contradiction.
              ** apply newton_turns_S in Hturns.
                 destruct Hturns as [_ Hturns]. exists m.
                 split; [lia |].
                 split; [rewrite <- newton_iterate_S; exact Ht |].
                 split; [exact Hturns |].
                 destruct Hstop as [Hlt | Hz]; [now left | right; lia].
        -- rewrite IHt. split.
           ++ intros (m & Hm & Hturns & Hr & Hbad). exists (S m).
              split; [lia |].
              split; [apply newton_turns_S; split; [split |]; assumption |].
              rewrite newton_iterate_S. split; assumption.
           ++ intros (m & Hm & Hturns & Hr & Hbad). destruct m as [| m].
              ** contradiction.
              ** apply newton_turns_S in Hturns.
                 destruct Hturns as [_ Hturns]. exists m.
                 split; [lia |]. split; [exact Hturns |].
                 rewrite <- newton_iterate_S. split; assumption.
      * split.
        -- intros t. split; [discriminate |].
           intros (m & Hm & Ht & Hturns & Hstop). destruct m as [| m].
           ++ exfalso. destruct Hstop as [Hlt | Hz]; [| lia].
              rewrite Ht in Hlt. contradiction.
           ++ apply newton_turns_S in Hturns.
              destruct Hturns as [[_ H] _]. contradiction.
        -- split; [| reflexivity]. intros _. exists 0%nat.
           split; [lia |]. split; [apply newton_turns_0 |].
           split; assumption.
Qed.

Lemma solve_time_newton (p : CPTG_Holo_Blend) (k : Z) (dist : R) :
  ~ dist >= distAtRamp p k ->
  ~ (Rabs (k2 p k) < eps /\ Rabs (k4 p k) < eps) ->
  ~ (Rabs (k2 p k * vxi p * 4 + k4 p k * vyi p * 4) < eps
     /\ Rabs (vxi p * vxi p + vyi p * vyi p) < eps) ->
  solve_time p k dist
  = newton (k2 p k * k2 p k * 4 + k4 p k * k4 p k * 4)
           (k2 p k * vxi p * 4 + k4 p k * vyi p * 4)
           (vxi p * vxi p + vyi p * vyi p)
           dist 10 (T_ramp p * 0.6).
Proof.
  intros Hd Hk Hbc. unfold solve_time. fold (distAtRamp p k).
  destruct (Rge_dec dist (distAtRamp p k)); [contradiction |].
  destruct (Rlt_dec (Rabs (k2 p k)) eps);
    destruct (Rlt_dec (Rabs (k4 p k)) eps); cbn [andb];
    try (exfalso; apply Hk; split; assumption);
    destruct (Rlt_dec (Rabs (k2 p k * vxi p * 4 + k4 p k * vyi p * 4)) eps);
    destruct (Rlt_dec (Rabs (vxi p * vxi p + vyi p * vyi p)) eps);
    cbn [andb];
    try (exfalso; apply Hbc; split; assumption);
    reflexivity.
Qed.

(** C1 (as the code has it): on the general branch, when every residual
    that the loop evaluates is a number, [getPathStepForDist] runs the
    Newton loop from [0.6 * T_ramp].  The time [t] it leaves the loop with
    is the value after [m] turns, where [m] is the first turn, among the
    10, at which the residual is below [1e-3], or 10 when there is none,
    in which case the residual of [t] may be anything.  The loop, and the
    call with it, raises exactly when a turn before that meets a
    derivative that fails the assertion.  The call returns the step of [t]
    when [t] is not negative and reports failure only when it is: no test
    compares [t] with [T_ramp], nor the last residual with [1e-3]. *)
Theorem getPathStepForDist_newton (p : CPTG_Holo_Blend) (k : Z) (dist : R) :
  initialize p = Returns tt ->
  general_branch p k dist ->
  newton_defined (coef_a p k) (coef_b p k) (coef_c p) dist (T_ramp p * 0.6) ->
  (forall t : R,
      solve_time p k dist = Returns t
      <-> exists m : nat,
            (m <= 10)%nat
            /\ t = newton_iterate (coef_a p k) (coef_b p k) (coef_c p) dist
                     (T_ramp p * 0.6) m
            /\ newton_turns (coef_a p k) (coef_b p k) (coef_c p) dist
                 (T_ramp p * 0.6) m
            /\ (Rabs (calc_trans_distance_t_below_Tramp_abc t
                        (coef_a p k) (coef_b p k) (coef_c p) - dist) < 1e-3
                \/ m = 10%nat))
  /\ (solve_time p k dist = Throws
      <-> exists m : nat,
            (m < 10)%nat
            /\ newton_turns (coef_a p k) (coef_b p k) (coef_c p) dist
                 (T_ramp p * 0.6) m
            /\ ~ Rabs (calc_trans_distance_t_below_Tramp_abc
                         (newton_iterate (coef_a p k) (coef_b p k) (coef_c p)
                            dist (T_ramp p * 0.6) m)
                         (coef_a p k) (coef_b p k) (coef_c p) - dist) < 1e-3
            /\ ~ Rabs (sqrt (newton_speed2 p k
                               (newton_iterate (coef_a p k) (coef_b p k)
                                  (coef_c p) dist (T_ramp p * 0.6) m)))
                  > 1e-14)
  /\ (solve_time p k dist = Throws -> getPathStepForDist p k dist = Throws)
  /\ (forall t : R,
        solve_time p k dist = Returns t ->
        (t >= 0 ->
         getPathStepForDist p k dist
         = Returns (Some (to_uint16 (round (t / PATH_TIME_STEP)))))
        /\ (t < 0 -> getPathStepForDist p k dist = Returns None)).
Proof.
  intros _ (Hd & Hk & Hbc) _.
  pose proof (solve_time_newton p k dist Hd Hk Hbc) as Hn.
  fold (coef_a p k) (coef_b p k) (coef_c p) in Hn.
  destruct (newton_spec (coef_a p k) (coef_b p k) (coef_c p) dist 10
              (T_ramp p * 0.6)) as [Hr Ht].
  split; [| split; [| split]].
  - intros t. rewrite Hn. apply Hr.
  - rewrite Hn. exact Ht.
  - intros H. unfold getPathStepForDist. rewrite H. reflexivity.
  - intros t Hrun. rewrite (getPathStepForDist_of_time p k dist t Hrun).
    split; intros H0; destruct (Rge_dec t 0); try reflexivity;
      try contradiction; lra.
Qed.

(** The loop on a speed that is linear in time, [m t + q]. *)
Section LinearSpeed.
Variables m q dist : R.
Hypothesis m_pos : 0 < m.
Hypothesis q_nonneg : 0 <= q.

Lemma speed_linear (t : R) :
  0 <= m * t + q ->
  sqrt (m * m * t * t + 2 * m * q * t + q * q) = m * t + q.
Proof.
  intros Ht.
  replace (m * m * t * t + 2 * m * q * t + q * q)
    with ((m * t + q) * (m * t + q)) by ring.
  apply sqrt_square. exact Ht.
Qed.

Lemma newton_linear_stop (n : nat) (t : R) :
  0 <= m * t + q ->
  Rabs (q * t + m * (t * t) / 2 - dist) < 1e-3 ->
  newton (m * m) (2 * m * q) (q * q) dist (S n) t = Returns t.
Proof.
  intros Ht Hres. cbn [newton].
  rewrite calc_abc_collinear by assumption.
  destruct (Rlt_dec _ _); [reflexivity | contradiction].
Qed.

Lemma newton_linear_continue (n : nat) (t : R) :
  1e-14 < m * t + q ->
  ~ Rabs (q * t + m * (t * t) / 2 - dist) < 1e-3 ->
  newton (m * m) (2 * m * q) (q * q) dist (S n) t
  = newton (m * m) (2 * m * q) (q * q) dist n
      (t - (q * t + m * (t * t) / 2 - dist) / (m * t + q)).
Proof.
  intros Ht Hres. cbn [newton].
  rewrite calc_abc_collinear by lra.
  destruct (Rlt_dec _ _); [contradiction |].
  rewrite speed_linear by lra.
  unfold ASSERT_, bind.
  rewrite (Rabs_right (m * t + q)) by lra.
  destruct (Rgt_dec _ _); [reflexivity | lra].
Qed.
Lemma newton_update_linear (t : R) :
  0 <= m * t + q ->
  newton_update (m * m) (2 * m * q) (q * q) dist t
  = t - (q * t + m * (t * t) / 2 - dist) / (m * t + q).
Proof.
  intros Ht. unfold newton_update.
  rewrite calc_abc_collinear by assumption.
  rewrite speed_linear by assumption. reflexivity.
Qed.

(** The arguments of the logarithms on such a speed. *)
Lemma log_args_linear (t : R) :
  0 <= m * t + q ->
  log_arg_t t (m * m) (2 * m * q) (q * q) = 2 * (m * t + q)
  /\ log_arg_t0 (m * m) (2 * m * q) (q * q) = 2 * q.
Proof.
  intros Ht. unfold log_arg_t, log_arg_t0.
  replace (q * q + 2 * m * q * t + m * m * (t * t))
    with ((m * t + q) * (m * t + q)) by ring.
  rewrite !sqrt_square by lra. split; field; lra.
Qed.
End LinearSpeed.

(** ** The Newton branch on the sample objects *)

Lemma blend_coefficients_values :
  k2 ptg_blend 0 = 0.005 /\ k4 ptg_blend 0 = 0
  /\ vxi ptg_blend = 0.09 /\ vyi ptg_blend = 0.
Proof.
  unfold ptg_blend. rewrite straight_ahead_k2, straight_ahead_k4.
  cbn [vxi vyi curVelLocal straight_ahead TTwist2D.vx TTwist2D.vy].
  repeat split; lra.
Qed.

Lemma general_branch_blend : general_branch ptg_blend 0 0.0949.
Proof.
  destruct blend_coefficients_values as (Hk2 & Hk4 & Hvx & Hvy).
  unfold general_branch. rewrite distAtRamp_blend, Hk2, Hk4, Hvx, Hvy.
  unfold eps. split; [lra |]. split.
  - intros [H _]. rewrite Rabs_right in H; lra.
  - intros [_ H]. rewrite Rabs_right in H; lra.
Qed.

Lemma solve_time_blend : solve_time ptg_blend 0 0.0949 = Returns (967 / 960).
Proof.
  destruct general_branch_blend as (Hd & Hk & Hbc).
  rewrite (solve_time_newton _ _ _ Hd Hk Hbc).
  destruct blend_coefficients_values as (-> & -> & -> & ->).
  cbn [T_ramp ptg_blend straight_ahead].
  replace (0.005 * 0.005 * 4 + 0 * 0 * 4) with (0.01 * 0.01) by lra.
  replace (0.005 * 0.09 * 4 + 0 * 0 * 4) with (2 * 0.01 * 0.09) by lra.
  replace (0.09 * 0.09 + 0 * 0) with (0.09 * 0.09) by lra.
  replace (1 * 0.6) with 0.6 by lra.
  rewrite newton_linear_continue; try lra.
  - replace (0.6 - (0.09 * 0.6 + 0.01 * (0.6 * 0.6) / 2 - 0.0949)
                   / (0.01 * 0.6 + 0.09))
      with (967 / 960) by lra.
    apply newton_linear_stop; try lra.
    rewrite Rabs_right by lra. lra.
  - rewrite Rabs_left by lra. lra.
Qed.

Lemma getPathStepForDist_blend :
  getPathStepForDist ptg_blend 0 0.0949 = Returns (Some 101%Z).
Proof.
  rewrite (getPathStepForDist_of_time _ _ _ _ solve_time_blend).
  destruct (Rge_dec (967 / 960) 0) as [_ | H]; [| lra].
  rewrite (round_near 101) by (unfold PATH_TIME_STEP; lra).
  reflexivity.
Qed.

Lemma slow_coefficients_values :
  k2 ptg_slow 0 = 0.02 /\ k4 ptg_slow 0 = 0
  /\ vxi ptg_slow = 0.01 /\ vyi ptg_slow = 0.
Proof.
  unfold ptg_slow. rewrite straight_ahead_k2, straight_ahead_k4.
  cbn [vxi vyi curVelLocal straight_ahead TTwist2D.vx TTwist2D.vy].
  repeat split; lra.
Qed.

Lemma distAtRamp_slow : distAtRamp ptg_slow 0 = 20010.
Proof.
  destruct slow_coefficients_values as (Hk2 & Hk4 & Hvx & Hvy).
  unfold distAtRamp. rewrite Hk2, Hk4, Hvx, Hvy.
  cbn [T_ramp ptg_slow straight_ahead].
  rewrite calc_trans_distance_ahead by (unfold eps; lra). lra.
Qed.

Lemma general_branch_slow : general_branch ptg_slow 0 0.
Proof.
  destruct slow_coefficients_values as (Hk2 & Hk4 & Hvx & Hvy).
  unfold general_branch. rewrite distAtRamp_slow, Hk2, Hk4, Hvx, Hvy.
  unfold eps. split; [lra |]. split.
  - intros [H _]. rewrite Rabs_right in H; lra.
  - intros [_ H]. rewrite Rabs_right in H; lra.
Qed.

(** From far enough, each update of the loop about halves the time, and
    the cap is reached before the residual is small. *)
Lemma newton_slow (n : nat) :
  forall t : R,
    2 ^ n * 0.5 - 0.25 <= t ->
    exists t' : R,
      newton (0.04 * 0.04) (2 * 0.04 * 0.01) (0.01 * 0.01) 0 n t = Returns t'
      /\ 0.25 <= t' <= t.
Proof.
  induction n as [| n IH]; intros t Ht.
  - exists t. split; [reflexivity |]. cbn [pow] in Ht. lra.
  - assert (Hp : 1 <= 2 ^ n) by (apply pow_R1_Rle; lra).
    cbn [pow] in Ht.
    assert (Ht1 : 0.75 <= t) by lra.
    assert (Hres : ~ Rabs (0.01 * t + 0.04 * (t * t) / 2 - 0) < 1e-3).
    { rewrite Rabs_right by nra. nra. }
    rewrite newton_linear_continue by (lra || exact Hres).
    set (N := 0.01 * t + 0.04 * (t * t) / 2 - 0).
    set (D := 0.04 * t + 0.01).
    assert (HD : 0 < D) by (unfold D; lra).
    assert (HND : N / D * D = N) by (field; lra).
    assert (Hlo : N / D <= t / 2 + 0.125) by (unfold N, D in *; nra).
    assert (Hhi : 0 <= N / D) by (unfold N, D in *; nra).
    destruct (IH (t - N / D)) as (t' & Hrun & Hrange); [lra |].
    exists t'. split; [exact Hrun | lra].
Qed.

Lemma solve_time_slow :
  exists t : R,
    solve_time ptg_slow 0 0 = Returns t
    /\ 0.25 <= t <= 600
    /\ ~ Rabs (calc_trans_distance_t_below_Tramp_abc t
                 (k2 ptg_slow 0 * k2 ptg_slow 0 * 4
                  + k4 ptg_slow 0 * k4 ptg_slow 0 * 4)
                 (k2 ptg_slow 0 * vxi ptg_slow * 4
                  + k4 ptg_slow 0 * vyi ptg_slow * 4)
                 (vxi ptg_slow * vxi ptg_slow + vyi ptg_slow * vyi ptg_slow)
               - 0) < 1e-3.
Proof.
  destruct general_branch_slow as (Hd & Hk & Hbc).
  rewrite (solve_time_newton _ _ _ Hd Hk Hbc).
  destruct slow_coefficients_values as (-> & -> & -> & ->).
  cbn [T_ramp ptg_slow straight_ahead].
  replace (0.02 * 0.02 * 4 + 0 * 0 * 4) with (0.04 * 0.04) by lra.
  replace (0.02 * 0.01 * 4 + 0 * 0 * 4) with (2 * 0.04 * 0.01) by lra.
  replace (0.01 * 0.01 + 0 * 0) with (0.01 * 0.01) by lra.
  destruct (newton_slow 10 (1000 * 0.6)) as (t & Hrun & Hrange).
  - cbn [pow]. lra.
  - exists t. split; [exact Hrun |]. split; [lra |].
    rewrite calc_abc_collinear by nra.
    rewrite Rabs_right by nra. nra.
Qed.

(** C1, the claim as stated fails, in both of its parts.  On the sample
    object moving ahead, the distance 0.0949 m reaches the general branch
    and the call succeeds with t = 967/960 s, past the ramp of 1 s (step
    101).  On the sample object with the long ramp, the distance 0 reaches
    the general branch and the call succeeds with a time within the ramp
    whose residual is not below [1e-3]. *)
Lemma getPathStepForDist_newton_unchecked :
  (initialize ptg_blend = Returns tt
   /\ 0 <= 0.0949 <= distAtRamp ptg_blend 0
   /\ general_branch ptg_blend 0 0.0949
   /\ solve_time ptg_blend 0 0.0949 = Returns (967 / 960)
   /\ T_ramp ptg_blend < 967 / 960
   /\ getPathStepForDist ptg_blend 0 0.0949 = Returns (Some 101%Z))
  /\ (initialize ptg_slow = Returns tt
      /\ 0 <= 0 <= distAtRamp ptg_slow 0
      /\ general_branch ptg_slow 0 0
      /\ exists t : R,
          solve_time ptg_slow 0 0 = Returns t
          /\ 0 <= t <= T_ramp ptg_slow
          /\ ~ Rabs (calc_trans_distance_t_below_Tramp_abc t
                       (k2 ptg_slow 0 * k2 ptg_slow 0 * 4
                        + k4 ptg_slow 0 * k4 ptg_slow 0 * 4)
                       (k2 ptg_slow 0 * vxi ptg_slow * 4
                        + k4 ptg_slow 0 * vyi ptg_slow * 4)
                       (vxi ptg_slow * vxi ptg_slow
                        + vyi ptg_slow * vyi ptg_slow) - 0) < 1e-3
          /\ getPathStepForDist ptg_slow 0 0
             = Returns (Some (to_uint16 (round (t / PATH_TIME_STEP))))).
Proof.
  split.
  - split; [apply initialize_straight_ahead; lra |].
    split; [rewrite distAtRamp_blend; lra |].
    split; [exact general_branch_blend |].
    split; [exact solve_time_blend |].
    split; [cbn [T_ramp ptg_blend straight_ahead]; lra |].
    exact getPathStepForDist_blend.
  - split; [apply initialize_straight_ahead; lra |].
    split; [rewrite distAtRamp_slow; lra |].
    split; [exact general_branch_slow |].
    destruct solve_time_slow as (t & Hrun & Hrange & Hres).
    exists t. split; [exact Hrun |].
    split; [cbn [T_ramp ptg_slow straight_ahead]; lra |].
    split; [exact Hres |].
    rewrite (getPathStepForDist_of_time _ _ _ _ Hrun).
    destruct (Rge_dec t 0); [reflexivity | lra].
Qed.

Lemma blend_coef_values :
  coef_a ptg_blend 0 = 0.01 * 0.01
  /\ coef_b ptg_blend 0 = 2 * 0.01 * 0.09
  /\ coef_c ptg_blend = 0.09 * 0.09.
Proof.
  destruct blend_coefficients_values as (Hk2 & Hk4 & Hvx & Hvy).
  unfold coef_a, coef_b, coef_c. rewrite Hk2, Hk4, Hvx, Hvy.
  repeat split; lra.
Qed.

Lemma newton_iterate_blend :
  newton_iterate (0.01 * 0.01) (2 * 0.01 * 0.09) (0.09 * 0.09) 0.0949 0.6 1
  = 967 / 960.
Proof.
  rewrite newton_iterate_1, newton_update_linear by lra. lra.
Qed.

(** Both turns of the loop on the sample object evaluate numbers. *)
Lemma newton_defined_blend :
  newton_defined (coef_a ptg_blend 0) (coef_b ptg_blend 0) (coef_c ptg_blend)
    0.0949 (T_ramp ptg_blend * 0.6).
Proof.
  destruct blend_coef_values as (-> & -> & ->).
  cbn [T_ramp ptg_blend straight_ahead].
  replace (1 * 0.6) with 0.6 by lra.
  split.
  - destruct (log_args_linear 0.01 0.09 ltac:(lra) ltac:(lra) 0 ltac:(lra))
      as [_ ->]. lra.
  - intros j Hj Hturns. destruct j as [| [| j]].
    + rewrite newton_iterate_0.
      destruct (log_args_linear 0.01 0.09 ltac:(lra) ltac:(lra) 0.6
                  ltac:(lra)) as [-> _]. lra.
    + rewrite newton_iterate_blend.
      destruct (log_args_linear 0.01 0.09 ltac:(lra) ltac:(lra) (967 / 960)
                  ltac:(lra)) as [-> _]. lra.
    + exfalso. destruct (Hturns 1%nat ltac:(lia)) as [Hres _].
      apply Hres. rewrite newton_iterate_blend.
      rewrite calc_abc_collinear by lra.
      rewrite Rabs_right by lra. lra.
Qed.

Lemma getPathStepForDist_newton_witness :
  initialize ptg_blend = Returns tt
  /\ general_branch ptg_blend 0 0.0949
  /\ newton_defined (coef_a ptg_blend 0) (coef_b ptg_blend 0)
       (coef_c ptg_blend) 0.0949 (T_ramp ptg_blend * 0.6)
  /\ solve_time ptg_blend 0 0.0949 = Returns (967 / 960)
  /\ (exists m : nat,
        (m <= 10)%nat
        /\ 967 / 960
           = newton_iterate (coef_a ptg_blend 0) (coef_b ptg_blend 0)
               (coef_c ptg_blend) 0.0949 (T_ramp ptg_blend * 0.6) m
        /\ newton_turns (coef_a ptg_blend 0) (coef_b ptg_blend 0)
             (coef_c ptg_blend) 0.0949 (T_ramp ptg_blend * 0.6) m
        /\ (Rabs (calc_trans_distance_t_below_Tramp_abc (967 / 960)
                    (coef_a ptg_blend 0) (coef_b ptg_blend 0)
                    (coef_c ptg_blend) - 0.0949) < 1e-3
            \/ m = 10%nat))
  /\ 967 / 960 >= 0
  /\ getPathStepForDist ptg_blend 0 0.0949
     = Returns (Some (to_uint16 (round (967 / 960 / PATH_TIME_STEP)))).
Proof.
  assert (Hi : initialize ptg_blend = Returns tt)
    by (apply initialize_straight_ahead; lra).
  assert (H0 : 967 / 960 >= 0) by lra.
  pose proof (getPathStepForDist_newton ptg_blend 0 0.0949 Hi
                general_branch_blend newton_defined_blend)
    as (Hret & _ & _ & Hstep).
  split; [exact Hi |]. split; [exact general_branch_blend |].
  split; [exact newton_defined_blend |]. split; [exact solve_time_blend |].
  split; [exact (proj1 (Hret (967 / 960)) solve_time_blend) |].
  split; [exact H0 |].
  exact (proj1 (Hstep (967 / 960) solve_time_blend) H0).
Defined.

(** ** A tie between two directions

    On the sample object with two directions, the target 1 m ahead lies
    within the position tolerance of both directions at time 0: both reach
    the comparison with distance 0, and the first one is kept. *)






(** ** The tolerances on a sample object *)

(** C2, the claim as stated fails: for one direction, a maximal speed of
    1 m/s and the target (1, 0), the position tolerance is 2.1 * 2 pi and
    not 2 * 2 pi, and the time tolerance, 2 * 2 pi, is the double neither
    of the position tolerance nor of the value claimed for it. *)
Lemma inverseMap_tolerances_differ :
  eps_distance ptg_rest 1 0
  <> 2 * (2 * PI / IZR (m_alphaValuesCount ptg_rest)) * sqrt (1 * 1 + 0 * 0)
  /\ TIME_MISMATCH_TOLERANCE ptg_rest 1 0 <> 2 * eps_distance ptg_rest 1 0
  /\ TIME_MISMATCH_TOLERANCE ptg_rest 1 0
     <> 2 * (2 * (2 * PI / IZR (m_alphaValuesCount ptg_rest))
             * sqrt (1 * 1 + 0 * 0)).
Proof.
  unfold eps_distance, TIME_MISMATCH_TOLERANCE.
  cbn [m_alphaValuesCount V_MAX ptg_rest straight_ahead].
  replace (1 * 1 + 0 * 0) with (1 * 1) by ring.
  rewrite sqrt_square by lra.
  pose proof PI_RGT_0 as Hpi.
  repeat split; lra.
Qed.

Lemma sqrt_between (v lo hi : R) :
  0 <= lo -> lo * lo <= v -> v <= hi * hi -> 0 <= hi -> lo <= sqrt v <= hi.
Proof.
  intros Hlo H1 H2 Hhi. split.
  - rewrite <- (sqrt_square lo) by exact Hlo. apply sqrt_le_1_alt. exact H1.
  - rewrite <- (sqrt_square hi) by exact Hhi. apply sqrt_le_1_alt. exact H2.
Qed.

Lemma PI_bounds : 3 < PI <= 4.
Proof. pose proof PI2_3_2. pose proof PI_4. lra. Qed.

(** Straight ahead from rest.  With a single direction the target
    (8, 3) is within the position tolerance of the axis, and a candidate.
    With 31 directions the target (3, 5) is outside the position
    tolerance of direction 15, and the time 2.5 s of its first coordinate
    is farther from [-1] than the tolerance on the times: direction 15 is
    no candidate. *)
Lemma inverseMap_tolerances_witness :
  (initialize ptg_rest = Returns tt
   /\ Rabs 3
      < 2.1 * (2 * PI / IZR (m_alphaValuesCount ptg_rest))
        * sqrt (8 * 8 + 3 * 3)
   /\ exists d : R, candidate ptg_rest 8 3 0 = Some d)
  /\ (initialize ptg_fan = Returns tt
      /\ index2alpha ptg_fan 15 = 0
      /\ ~ Rabs 5
           < 2.1 * (2 * PI / IZR (m_alphaValuesCount ptg_fan))
             * sqrt (3 * 3 + 5 * 5)
      /\ Rabs ((3 - T_ramp ptg_fan * V_MAX ptg_fan / 2) / V_MAX ptg_fan
               - -1.0)
         > 2 * (2 * PI / IZR (m_alphaValuesCount ptg_fan))
           * sqrt (3 * 3 + 5 * 5) / V_MAX ptg_fan
      /\ candidate ptg_fan 3 5 15 = None).
Proof.
  pose proof PI_bounds as Hpi.
  split.
  - assert (Hi : initialize ptg_rest = Returns tt)
      by (apply initialize_straight_ahead; lra).
    assert (Hs : 8 <= sqrt (8 * 8 + 3 * 3) <= 9)
      by (apply sqrt_between; lra).
    assert (Hy : Rabs 3
                 < 2.1 * (2 * PI / IZR (m_alphaValuesCount ptg_rest))
                   * sqrt (8 * 8 + 3 * 3)).
    { cbn [m_alphaValuesCount ptg_rest straight_ahead].
      rewrite Rabs_right by lra. nra. }
    assert (HV : eps <= V_MAX ptg_rest)
      by (cbn [V_MAX ptg_rest straight_ahead]; unfold eps; lra).
    assert (H8 : 0 <= 8) by lra.
    split; [exact Hi |]. split; [exact Hy |].
    pose proof (inverseMap_tolerances ptg_rest 8 3)
      as (_ & _ & _ & _ & _ & _ & Hend).
    destruct (Hend 0%Z Hi eq_refl eq_refl eq_refl HV H8) as [Hnear _].
    exact (Hnear Hy).
  - assert (Hi : initialize ptg_fan = Returns tt).
    { unfold initialize, ptg_fan, ASSERT_, bind; simpl.
      repeat rtest. reflexivity. }
    assert (Hd : index2alpha ptg_fan 15 = 0).
    { cbn [index2alpha ptg_fan]. lra. }
    assert (Hs : 5 <= sqrt (3 * 3 + 5 * 5) <= 6)
      by (apply sqrt_between; lra).
    assert (Hy : ~ Rabs 5
                   < 2.1 * (2 * PI / IZR (m_alphaValuesCount ptg_fan))
                     * sqrt (3 * 3 + 5 * 5)).
    { cbn [m_alphaValuesCount ptg_fan].
      rewrite Rabs_right by lra. nra. }
    assert (Hm : Rabs ((3 - T_ramp ptg_fan * V_MAX ptg_fan / 2)
                       / V_MAX ptg_fan - -1.0)
                 > 2 * (2 * PI / IZR (m_alphaValuesCount ptg_fan))
                   * sqrt (3 * 3 + 5 * 5) / V_MAX ptg_fan).
    { cbn [m_alphaValuesCount T_ramp V_MAX ptg_fan].
      rewrite Rabs_right by lra. nra. }
    assert (HV : eps <= V_MAX ptg_fan)
      by (cbn [V_MAX ptg_fan]; unfold eps; lra).
    assert (H3 : 0 <= 3) by lra.
    split; [exact Hi |]. split; [exact Hd |]. split; [exact Hy |].
    split; [exact Hm |].
    pose proof (inverseMap_tolerances ptg_fan 3 5)
      as (_ & _ & _ & _ & _ & _ & Hend).
    destruct (Hend 15%Z Hi eq_refl eq_refl Hd HV H3) as [_ Hfar].
    exact (proj2 (Hfar Hy) (or_intror Hm)).
Defined.

(** * Further properties *)

(** ** The inverse map: when it raises, when it finds nothing *)

(** The call away from the origin, in terms of the state left by the
    scan. *)
Lemma inverseMap_WS2TP_scan (p : CPTG_Holo_Blend) (x y : R) :
  x <> 0 \/ y <> 0 ->
  inverseMap_WS2TP p x y
  = Returns
      (if Z_ge_dec
            (snd (scan p x y (Z.to_nat (m_alphaValuesCount p)) 0 found_init))
            0
       then Some
              (snd (scan p x y (Z.to_nat (m_alphaValuesCount p)) 0
                      found_init),
               fst (scan p x y (Z.to_nat (m_alphaValuesCount p)) 0
                      found_init) / refDistance p)
       else None).
Proof.
  intros Hxy. unfold inverseMap_WS2TP, ASSERT_, bind.
  destruct (sumbool_not _ _ _) as [_ | [Hx Hy]]; [| tauto].
  destruct (scan _ _ _ _ _ _) as [found_min_dist found_k]. cbn [fst snd].
  destruct (Z_ge_dec found_k 0); reflexivity.
Qed.

(** Away from the origin the call has one of two outcomes. *)
Lemma inverseMap_WS2TP_cases (p : CPTG_Holo_Blend) (x y : R) :
  x <> 0 \/ y <> 0 ->
  (inverseMap_WS2TP p x y = Returns None
   /\ forall j dj, (0 <= j < m_alphaValuesCount p)%Z ->
                   candidate p x y j = Some dj -> DBL_MAX <= dj)
  \/ (exists (k : Z) (dk : R),
         inverseMap_WS2TP p x y = Returns (Some (k, dk / refDistance p))
         /\ (0 <= k < m_alphaValuesCount p)%Z
         /\ candidate p x y k = Some dk /\ dk < DBL_MAX).
Proof.
  intros Hxy. rewrite (inverseMap_WS2TP_scan p x y Hxy).
  pose proof (scan_spec p x y (Z.to_nat (m_alphaValuesCount p)) 0 found_init)
    as Hscan.
  assert (Hn : (0 + Z.of_nat (Z.to_nat (m_alphaValuesCount p))
                = Z.max 0 (m_alphaValuesCount p))%Z) by lia.
  rewrite Hn in Hscan. clear Hn.
  destruct (scan p x y (Z.to_nat (m_alphaValuesCount p)) 0 found_init)
    as [found_min_dist found_k].
  cbn [fst snd found_init] in *.
  destruct Hscan as [(Heq & Hall) | (Hr & Hc & Hlt & _ & _)].
  - injection Heq as -> ->.
    destruct (Z_ge_dec (-1) 0) as [H | _]; [lia |].
    left. split; [reflexivity |].
    intros j dj Hj Hcj. apply (Hall j dj); [lia | exact Hcj].
  - destruct (Z_ge_dec found_k 0) as [_ | H]; [| lia].
    right. exists found_k, found_min_dist.
    split; [reflexivity |]. split; [lia |]. split; assumption.
Qed.


(** X3: without any direction to scan, every point away from the origin
    is reported as "no solution" and is out of the domain. *)
Theorem inverseMap_WS2TP_no_direction (p : CPTG_Holo_Blend) (x y : R) :
  (m_alphaValuesCount p <= 0)%Z -> x <> 0 \/ y <> 0 ->
  inverseMap_WS2TP p x y = Returns None
  /\ PTG_IsIntoDomain p x y = Returns false.
Proof.
  intros Hn Hxy.
  assert (H : inverseMap_WS2TP p x y = Returns None).
  { destruct (inverseMap_WS2TP_cases p x y Hxy)
      as [(Hnone & _) | (k & dk & _ & Hk & _)]; [exact Hnone | lia]. }
  split; [exact H |]. unfold PTG_IsIntoDomain. rewrite H. reflexivity.
Qed.



Lemma inverseMap_WS2TP_no_direction_witness :
  (m_alphaValuesCount ptg_empty <= 0)%Z
  /\ (1 <> 0 \/ 0 <> 0)
  /\ inverseMap_WS2TP ptg_empty 1 0 = Returns None
  /\ PTG_IsIntoDomain ptg_empty 1 0 = Returns false.
Proof.
  assert (Hn : (m_alphaValuesCount ptg_empty <= 0)%Z)
    by (cbn [m_alphaValuesCount ptg_empty]; lia).
  assert (Hxy : 1 <> 0 \/ 0 <> 0) by (left; lra).
  split; [exact Hn |]. split; [exact Hxy |].
  exact (inverseMap_WS2TP_no_direction ptg_empty 1 0 Hn Hxy).
Defined.

(** ** The path: its start, its continuity, its straight part *)

Lemma cos2_sin2 (d : R) : cos d * cos d + sin d * sin d = 1.
Proof. pose proof (sin2_cos2 d) as H. unfold Rsqr in H. lra. Qed.

(** X4: on an initialized object every path starts at the pose of the
    robot, (0, 0) with heading 0; on a direction whose distance is a
    number, the travelled distance is 0 at step 0 and negative at no
    step. *)
Theorem path_start (p : CPTG_Holo_Blend) (k : Z) :
  initialize p = Returns tt ->
  getPathPose p k 0 = TPose2D.mk 0 0 0
  /\ (distance_defined p k ->
      getPathDist p k 0 = 0
      /\ forall step : Z, (0 <= step)%Z -> 0 <= getPathDist p k step).
Proof.
  intros Hinit. apply initialize_Returns in Hinit.
  destruct Hinit as (HT & HV & HW & _).
  assert (H0 : dist_at p k 0 = 0).
  { unfold dist_at. destruct (Rlt_dec 0 (T_ramp p)); [| lra].
    apply calc_trans_distance_0. }
  split; [| intros _; split].
  - unfold getPathPose, pose_at.
    replace (PATH_TIME_STEP * 0) with 0 by ring.
    destruct (Rlt_dec 0 (T_ramp p)) as [_ | H]; [| lra].
    destruct (Rlt_dec 0 (Rabs (dir p k) / W_MAX p)) as [H | H].
    + f_equal; unfold Rdiv; ring.
    + assert (Hd : Rabs (dir p k) / W_MAX p * W_MAX p = Rabs (dir p k))
        by (field; lra).
      pose proof (Rabs_pos (dir p k)) as Hp.
      assert (Hz : Rabs (dir p k) = 0) by nra.
      assert (Hdir : dir p k = 0).
      { destruct (Req_dec (dir p k) 0) as [E | E]; [exact E |].
        apply Rabs_no_R0 in E. contradiction. }
      rewrite Hdir. f_equal; ring.
  - unfold getPathDist. replace (PATH_TIME_STEP * 0) with 0 by ring.
    exact H0.
  - intros step Hs. unfold getPathDist. rewrite <- H0.
    pose proof PATH_TIME_STEP_pos. apply IZR_le in Hs.
    apply dist_at_mono; nra.
Qed.

Lemma path_start_witness :
  initialize ptg_blend = Returns tt
  /\ distance_defined ptg_blend 0
  /\ getPathPose ptg_blend 0 0 = TPose2D.mk 0 0 0
  /\ 0 <= getPathDist ptg_blend 0 7.
Proof.
  assert (H : initialize ptg_blend = Returns tt)
    by (apply initialize_straight_ahead; lra).
  assert (Hn : distance_defined ptg_blend 0)
    by (apply distance_defined_straight_ahead; lra).
  split; [exact H |]. split; [exact Hn |].
  split; [exact (proj1 (path_start ptg_blend 0 H)) |].
  apply (proj2 (proj2 (path_start ptg_blend 0 H) Hn) 7%Z). lia.
Defined.

(** X25: on an initialized object, for a direction whose distance is a
    number, the travelled distance does not decrease from a step to a
    later one; and between two times past the ramp it grows by exactly
    [V_MAX] times the elapsed time, whether the times are arbitrary or
    those of two steps. *)
Theorem getPathDist_monotone (p : CPTG_Holo_Blend) (k : Z) :
  initialize p = Returns tt ->
  distance_defined p k ->
  (forall step1 step2 : Z,
      (0 <= step1)%Z -> (step1 <= step2)%Z ->
      getPathDist p k step1 <= getPathDist p k step2)
  /\ (forall t1 t2 : R,
        T_ramp p <= t1 -> t1 < t2 ->
        dist_at p k t2 - dist_at p k t1 = V_MAX p * (t2 - t1))
  /\ (forall step1 step2 : Z,
        T_ramp p <= PATH_TIME_STEP * IZR step1 -> (step1 < step2)%Z ->
        getPathDist p k step2 - getPathDist p k step1
        = V_MAX p * (PATH_TIME_STEP * IZR step2 - PATH_TIME_STEP * IZR step1)).
Proof.
  intros Hinit _. apply initialize_Returns in Hinit.
  destruct Hinit as (HT & HV & _ & _).
  pose proof PATH_TIME_STEP_pos as Hq.
  assert (Hlin : forall t1 t2 : R,
             T_ramp p <= t1 -> t1 < t2 ->
             dist_at p k t2 - dist_at p k t1 = V_MAX p * (t2 - t1)).
  { intros t1 t2 H1 H2. unfold dist_at.
    destruct (Rlt_dec t1 (T_ramp p)), (Rlt_dec t2 (T_ramp p)); lra. }
  split; [| split].
  - intros s1 s2 H0 H12. unfold getPathDist.
    apply IZR_le in H0. apply IZR_le in H12.
    apply dist_at_mono; nra.
  - exact Hlin.
  - intros s1 s2 H1 H12. unfold getPathDist. apply Hlin; [assumption |].
    apply IZR_lt in H12. nra.
Qed.

Lemma getPathDist_monotone_witness :
  initialize ptg_blend = Returns tt
  /\ distance_defined ptg_blend 0
  /\ getPathDist ptg_blend 0 3 <= getPathDist ptg_blend 0 7
  /\ getPathDist ptg_blend 0 250 - getPathDist ptg_blend 0 150
     = V_MAX ptg_blend
       * (PATH_TIME_STEP * IZR 250 - PATH_TIME_STEP * IZR 150).
Proof.
  assert (H : initialize ptg_blend = Returns tt)
    by (apply initialize_straight_ahead; lra).
  assert (Hn : distance_defined ptg_blend 0)
    by (apply distance_defined_straight_ahead; lra).
  split; [exact H |]. split; [exact Hn |]. split.
  - apply (proj1 (getPathDist_monotone ptg_blend 0 H Hn) 3%Z 7%Z); lia.
  - apply (proj2 (proj2 (getPathDist_monotone ptg_blend 0 H Hn)) 150%Z 250%Z);
      [| lia].
    cbn [T_ramp ptg_blend straight_ahead]. unfold PATH_TIME_STEP. lra.
Defined.

Lemma Rabs_le_bounds (v M : R) : Rabs v <= M -> - M <= v <= M.
Proof. unfold Rabs. destruct (Rcase_abs v); lra. Qed.

(** One coordinate of the position, as [getPathPose] computes it from the
    initial and the final velocity on that axis. *)
Lemma axis_position_lipschitz (T vi vf M t1 t2 : R) :
  0 < T -> Rabs vi <= M -> Rabs vf <= M -> 0 <= t1 -> t1 <= t2 ->
  Rabs ((if Rlt_dec t2 T
         then vi * t2 + t2 * t2 * (1 / (2 * T)) * (vf - vi)
         else T * 0.5 * (vi + vf) + (t2 - T) * vf)
        - (if Rlt_dec t1 T
           then vi * t1 + t1 * t1 * (1 / (2 * T)) * (vf - vi)
           else T * 0.5 * (vi + vf) + (t1 - T) * vf))
  <= M * (t2 - t1).
Proof.
  intros HT Hvi Hvf H0 H12.
  apply Rabs_le_bounds in Hvi. apply Rabs_le_bounds in Hvf.
  assert (Hu : 2 * T * (1 / (2 * T)) = 1) by (field; lra).
  assert (Hupos : 0 < 1 / (2 * T)).
  { apply Rdiv_lt_0_compat; lra. }
  set (u := 1 / (2 * T)) in *.
  assert (Hramp : forall s1 s2, 0 <= s1 -> s1 <= s2 -> s2 <= T ->
            - (M * (s2 - s1))
            <= (vi * s2 + s2 * s2 * u * (vf - vi))
               - (vi * s1 + s1 * s1 * u * (vf - vi))
            <= M * (s2 - s1)).
  { intros s1 s2 Hs0 Hs12 Hs2.
    set (l := (s1 + s2) * u).
    assert (Hl0 : 0 <= l) by (unfold l; nra).
    assert (Hl1 : l <= 1) by (unfold l; nra).
    replace ((vi * s2 + s2 * s2 * u * (vf - vi))
             - (vi * s1 + s1 * s1 * u * (vf - vi)))
      with ((s2 - s1) * (vi + l * (vf - vi))) by (unfold l; ring).
    assert (Hc1 : vi + l * (vf - vi) <= M) by nra.
    assert (Hc2 : - M <= vi + l * (vf - vi)) by nra.
    split; nra. }
  assert (Hend : vi * T + T * T * u * (vf - vi) = T * 0.5 * (vi + vf)).
  { replace (T * T * u * (vf - vi)) with (T * (2 * T * u) * (vf - vi) / 2)
      by field.
    rewrite Hu. lra. }
  apply Rabs_le.
  destruct (Rlt_dec t2 T) as [H2 | H2]; destruct (Rlt_dec t1 T) as [H1 | H1];
    try lra.
  - apply Hramp; lra.
  - pose proof (Hramp t1 T H0 (Rlt_le _ _ H1) (Rle_refl T)) as Hr.
    rewrite Hend in Hr. split; nra.
  - split; nra.
Qed.

(** X5: the position along a path never jumps: on each axis it moves,
    between two times, by at most the elapsed time multiplied by the larger
    of the initial and the final speed on that axis.  In particular the
    ramp and the straight part meet at [T_ramp]. *)
Theorem getPathPose_position_lipschitz
  (p : CPTG_Holo_Blend) (k : Z) (t1 t2 : R) :
  initialize p = Returns tt -> 0 <= t1 -> t1 <= t2 ->
  Rabs (TPose2D.x (pose_at p k t2) - TPose2D.x (pose_at p k t1))
  <= Rmax (Rabs (vxi p)) (Rabs (vxf p k)) * (t2 - t1)
  /\ Rabs (TPose2D.y (pose_at p k t2) - TPose2D.y (pose_at p k t1))
     <= Rmax (Rabs (vyi p)) (Rabs (vyf p k)) * (t2 - t1).
Proof.
  intros Hinit H0 H12. apply initialize_Returns in Hinit.
  destruct Hinit as (HT & _ & _ & _).
  unfold pose_at. cbn [TPose2D.x TPose2D.y]. unfold TR2_.
  split; apply axis_position_lipschitz;
    try lra; try apply Rmax_l; try apply Rmax_r.
Qed.

Lemma getPathPose_position_lipschitz_witness :
  initialize ptg_blend = Returns tt
  /\ 0 <= 0.5 /\ 0.5 <= 2
  /\ Rabs (TPose2D.x (pose_at ptg_blend 0 2)
           - TPose2D.x (pose_at ptg_blend 0 0.5))
     <= Rmax (Rabs (vxi ptg_blend)) (Rabs (vxf ptg_blend 0)) * (2 - 0.5).
Proof.
  assert (H : initialize ptg_blend = Returns tt)
    by (apply initialize_straight_ahead; lra).
  assert (H0 : 0 <= 0.5) by lra.
  assert (H12 : 0.5 <= 2) by lra.
  split; [exact H |]. split; [exact H0 |]. split; [exact H12 |].
  exact (proj1 (getPathPose_position_lipschitz ptg_blend 0 0.5 2 H H0 H12)).
Defined.

(** X6: past the ramp the robot moves at the final velocity: between two
    times not before [T_ramp] the position changes by the elapsed time
    multiplied by [(vxf, vyf)]; the length of that move is [V_MAX] times
    the elapsed time and, on a direction whose distance is a number, the
    growth of the travelled distance. *)
Theorem coasting_displacement (p : CPTG_Holo_Blend) (k : Z) (t1 t2 : R) :
  initialize p = Returns tt -> T_ramp p <= t1 -> t1 <= t2 ->
  TPose2D.x (pose_at p k t2) - TPose2D.x (pose_at p k t1)
  = V_MAX p * cos (index2alpha p k) * (t2 - t1)
  /\ TPose2D.y (pose_at p k t2) - TPose2D.y (pose_at p k t1)
     = V_MAX p * sin (index2alpha p k) * (t2 - t1)
  /\ sqrt ((TPose2D.x (pose_at p k t2) - TPose2D.x (pose_at p k t1))
           * (TPose2D.x (pose_at p k t2) - TPose2D.x (pose_at p k t1))
           + (TPose2D.y (pose_at p k t2) - TPose2D.y (pose_at p k t1))
             * (TPose2D.y (pose_at p k t2) - TPose2D.y (pose_at p k t1)))
     = V_MAX p * (t2 - t1)
  /\ (distance_defined p k ->
      sqrt ((TPose2D.x (pose_at p k t2) - TPose2D.x (pose_at p k t1))
            * (TPose2D.x (pose_at p k t2) - TPose2D.x (pose_at p k t1))
            + (TPose2D.y (pose_at p k t2) - TPose2D.y (pose_at p k t1))
              * (TPose2D.y (pose_at p k t2) - TPose2D.y (pose_at p k t1)))
      = dist_at p k t2 - dist_at p k t1).
Proof.
  intros Hinit H1 H12. apply initialize_Returns in Hinit.
  destruct Hinit as (HT & HV & _ & _).
  assert (Hx : TPose2D.x (pose_at p k t2) - TPose2D.x (pose_at p k t1)
               = V_MAX p * cos (index2alpha p k) * (t2 - t1)).
  { unfold pose_at. cbn [TPose2D.x]. unfold vxf, dir.
    destruct (Rlt_dec t2 (T_ramp p)); [lra |].
    destruct (Rlt_dec t1 (T_ramp p)); [lra |]. ring. }
  assert (Hy : TPose2D.y (pose_at p k t2) - TPose2D.y (pose_at p k t1)
               = V_MAX p * sin (index2alpha p k) * (t2 - t1)).
  { unfold pose_at. cbn [TPose2D.y]. unfold vyf, dir.
    destruct (Rlt_dec t2 (T_ramp p)); [lra |].
    destruct (Rlt_dec t1 (T_ramp p)); [lra |]. ring. }
  split; [exact Hx |]. split; [exact Hy |].
  rewrite Hx, Hy.
  assert (Hlen :
    sqrt (V_MAX p * cos (index2alpha p k) * (t2 - t1)
          * (V_MAX p * cos (index2alpha p k) * (t2 - t1))
          + V_MAX p * sin (index2alpha p k) * (t2 - t1)
            * (V_MAX p * sin (index2alpha p k) * (t2 - t1)))
    = V_MAX p * (t2 - t1)).
  { apply sqrt_lem_1.
    + pose proof (Rle_0_sqr (V_MAX p * cos (index2alpha p k) * (t2 - t1))).
      pose proof (Rle_0_sqr (V_MAX p * sin (index2alpha p k) * (t2 - t1))).
      unfold Rsqr in *. lra.
    + nra.
    + pose proof (cos2_sin2 (index2alpha p k)) as Hcs.
      replace (V_MAX p * cos (index2alpha p k) * (t2 - t1)
               * (V_MAX p * cos (index2alpha p k) * (t2 - t1))
               + V_MAX p * sin (index2alpha p k) * (t2 - t1)
                 * (V_MAX p * sin (index2alpha p k) * (t2 - t1)))
        with (V_MAX p * (t2 - t1) * (V_MAX p * (t2 - t1))
              * (cos (index2alpha p k) * cos (index2alpha p k)
                 + sin (index2alpha p k) * sin (index2alpha p k))) by ring.
      rewrite Hcs. ring. }
  split; [exact Hlen |].
  intros _. rewrite Hlen. unfold dist_at.
  destruct (Rlt_dec t2 (T_ramp p)); [lra |].
  destruct (Rlt_dec t1 (T_ramp p)); [lra |]. ring.
Qed.

Lemma coasting_displacement_witness :
  initialize ptg_blend = Returns tt
  /\ T_ramp ptg_blend <= 2 /\ 2 <= 3
  /\ distance_defined ptg_blend 0
  /\ TPose2D.x (pose_at ptg_blend 0 3) - TPose2D.x (pose_at ptg_blend 0 2)
     = V_MAX ptg_blend * cos (index2alpha ptg_blend 0) * (3 - 2)
  /\ sqrt ((TPose2D.x (pose_at ptg_blend 0 3)
            - TPose2D.x (pose_at ptg_blend 0 2))
           * (TPose2D.x (pose_at ptg_blend 0 3)
              - TPose2D.x (pose_at ptg_blend 0 2))
           + (TPose2D.y (pose_at ptg_blend 0 3)
              - TPose2D.y (pose_at ptg_blend 0 2))
             * (TPose2D.y (pose_at ptg_blend 0 3)
                - TPose2D.y (pose_at ptg_blend 0 2)))
     = dist_at ptg_blend 0 3 - dist_at ptg_blend 0 2.
Proof.
  assert (H : initialize ptg_blend = Returns tt)
    by (apply initialize_straight_ahead; lra).
  assert (H1 : T_ramp ptg_blend <= 2)
    by (cbn [T_ramp ptg_blend straight_ahead]; lra).
  assert (H12 : 2 <= 3) by lra.
  assert (Hn : distance_defined ptg_blend 0)
    by (apply distance_defined_straight_ahead; lra).
  split; [exact H |]. split; [exact H1 |]. split; [exact H12 |].
  split; [exact Hn |]. split.
  - exact (proj1 (coasting_displacement ptg_blend 0 2 3 H H1 H12)).
  - exact (proj2 (proj2 (proj2
             (coasting_displacement ptg_blend 0 2 3 H H1 H12))) Hn).
Defined.

(** ** Paths that start from rest *)

Lemma final_speed_sqr (p : CPTG_Holo_Blend) (k : Z) :
  vxf p k * vxf p k + vyf p k * vyf p k = V_MAX p * V_MAX p.
Proof.
  unfold vxf, vyf. pose proof (cos2_sin2 (dir p k)) as Hcs.
  replace (V_MAX p * cos (dir p k) * (V_MAX p * cos (dir p k))
           + V_MAX p * sin (dir p k) * (V_MAX p * sin (dir p k)))
    with (V_MAX p * V_MAX p
          * (cos (dir p k) * cos (dir p k) + sin (dir p k) * sin (dir p k)))
    by ring.
  rewrite Hcs. ring.
Qed.

Lemma final_speed_norm (p : CPTG_Holo_Blend) (k : Z) :
  0 <= V_MAX p ->
  sqrt (vxf p k * vxf p k + vyf p k * vyf p k) = V_MAX p.
Proof.
  intros HV. rewrite final_speed_sqr. apply sqrt_square. exact HV.
Qed.

(** The travelled distance during the ramp when the robot starts from
    rest: that of a constant acceleration [V_MAX / T_ramp]. *)
Lemma calc_trans_distance_rest (p : CPTG_Holo_Blend) (k : Z) (t : R) :
  0 < T_ramp p -> 0 < V_MAX p -> vxi p = 0 -> vyi p = 0 ->
  Rabs (k2 p k) > eps \/ Rabs (k4 p k) > eps ->
  calc_trans_distance_t_below_Tramp (k2 p k) (k4 p k) (vxi p) (vyi p) t
  = V_MAX p / T_ramp p * (t * t) / 2.
Proof.
  intros HT HV Hx Hy Hk. unfold calc_trans_distance_t_below_Tramp.
  assert (Hor : orb (if Rgt_dec (Rabs (k2 p k)) eps then true else false)
                    (if Rgt_dec (Rabs (k4 p k)) eps then true else false)
                = true).
  { destruct (Rgt_dec (Rabs (k2 p k)) eps); [reflexivity |].
    destruct (Rgt_dec (Rabs (k4 p k)) eps); [reflexivity | tauto]. }
  rewrite Hor, Hx, Hy.
  replace (k2 p k * 0 * 4 + k4 p k * 0 * 4) with 0 by ring.
  replace (0 * 0 + 0 * 0) with 0 by ring.
  rewrite Rabs_R0.
  destruct (Rlt_dec 0 eps) as [_ | H]; [| unfold eps in H; lra].
  cbn [andb].
  replace (k2 p k * k2 p k * 4 + k4 p k * k4 p k * 4)
    with ((V_MAX p / T_ramp p) * (V_MAX p / T_ramp p)).
  - rewrite sqrt_square; [lra |].
    apply Rlt_le. apply Rdiv_lt_0_compat; assumption.
  - unfold k2, k4, TR2_. rewrite Hx, Hy.
    replace ((vxf p k - 0) * (1 / (2 * T_ramp p))
             * ((vxf p k - 0) * (1 / (2 * T_ramp p))) * 4
             + (vyf p k - 0) * (1 / (2 * T_ramp p))
               * ((vyf p k - 0) * (1 / (2 * T_ramp p))) * 4)
      with ((vxf p k * vxf p k + vyf p k * vyf p k)
            / (T_ramp p * T_ramp p)) by (field; lra).
    rewrite final_speed_sqr. field. lra.
Qed.

(** X7: when the robot starts from rest (and the acceleration is not
    below the threshold of the degenerate case), the path of a direction
    is the straight ray of that direction, measured by the travelled
    distance: the pose is the distance times [(cos dir, sin dir)], and the
    travelled distance is the distance from the start. *)
Theorem straight_from_rest (p : CPTG_Holo_Blend) (k : Z) (t : R) :
  initialize p = Returns tt -> vxi p = 0 -> vyi p = 0 ->
  Rabs (k2 p k) > eps \/ Rabs (k4 p k) > eps ->
  0 <= t ->
  TPose2D.x (pose_at p k t) = dist_at p k t * cos (index2alpha p k)
  /\ TPose2D.y (pose_at p k t) = dist_at p k t * sin (index2alpha p k)
  /\ sqrt (TPose2D.x (pose_at p k t) * TPose2D.x (pose_at p k t)
           + TPose2D.y (pose_at p k t) * TPose2D.y (pose_at p k t))
     = dist_at p k t.
Proof.
  intros Hinit Hx Hy Hk Ht. apply initialize_Returns in Hinit.
  destruct Hinit as (HT & HV & _ & _).
  assert (Hd : dist_at p k t
               = if Rlt_dec t (T_ramp p)
                 then V_MAX p / T_ramp p * (t * t) / 2
                 else (t - T_ramp p) * V_MAX p
                      + V_MAX p / T_ramp p * (T_ramp p * T_ramp p) / 2).
  { unfold dist_at. rewrite !calc_trans_distance_rest by assumption.
    reflexivity. }
  assert (Hd0 : 0 <= dist_at p k t).
  { rewrite <- (calc_trans_distance_0 (k2 p k) (k4 p k) (vxi p) (vyi p)).
    replace (calc_trans_distance_t_below_Tramp (k2 p k) (k4 p k) (vxi p)
               (vyi p) 0) with (dist_at p k 0).
    - apply dist_at_mono; lra.
    - unfold dist_at. destruct (Rlt_dec 0 (T_ramp p)); [reflexivity | lra]. }
  assert (Hpx : TPose2D.x (pose_at p k t)
                = dist_at p k t * cos (index2alpha p k)).
  { rewrite Hd. unfold pose_at. cbn [TPose2D.x].
    unfold TR2_, vxf, dir. rewrite Hx.
    destruct (Rlt_dec t (T_ramp p)); cbv beta iota;
      try replace 0.5 with (/ 2) by lra; field; lra. }
  assert (Hpy : TPose2D.y (pose_at p k t)
                = dist_at p k t * sin (index2alpha p k)).
  { rewrite Hd. unfold pose_at. cbn [TPose2D.y].
    unfold TR2_, vyf, dir. rewrite Hy.
    destruct (Rlt_dec t (T_ramp p)); cbv beta iota;
      try replace 0.5 with (/ 2) by lra; field; lra. }
  split; [exact Hpx |]. split; [exact Hpy |].
  rewrite Hpx, Hpy. apply sqrt_lem_1; [| exact Hd0 |].
  - pose proof (Rle_0_sqr (dist_at p k t * cos (index2alpha p k))).
    pose proof (Rle_0_sqr (dist_at p k t * sin (index2alpha p k))).
    unfold Rsqr in *. lra.
  - pose proof (cos2_sin2 (index2alpha p k)) as Hcs.
    replace (dist_at p k t * cos (index2alpha p k)
             * (dist_at p k t * cos (index2alpha p k))
             + dist_at p k t * sin (index2alpha p k)
               * (dist_at p k t * sin (index2alpha p k)))
      with (dist_at p k t * dist_at p k t
            * (cos (index2alpha p k) * cos (index2alpha p k)
               + sin (index2alpha p k) * sin (index2alpha p k))) by ring.
    rewrite Hcs. ring.
Qed.

Lemma rest_accelerates :
  Rabs (k2 ptg_rest 0) > eps \/ Rabs (k4 ptg_rest 0) > eps.
Proof.
  left. unfold ptg_rest. rewrite straight_ahead_k2.
  rewrite Rabs_right by lra. unfold eps. lra.
Qed.

Lemma straight_from_rest_witness :
  initialize ptg_rest = Returns tt
  /\ vxi ptg_rest = 0 /\ vyi ptg_rest = 0
  /\ (Rabs (k2 ptg_rest 0) > eps \/ Rabs (k4 ptg_rest 0) > eps)
  /\ 0 <= 3
  /\ TPose2D.x (pose_at ptg_rest 0 3)
     = dist_at ptg_rest 0 3 * cos (index2alpha ptg_rest 0).
Proof.
  assert (Hi : initialize ptg_rest = Returns tt)
    by (apply initialize_straight_ahead; lra).
  assert (Hx : vxi ptg_rest = 0) by reflexivity.
  assert (Hy : vyi ptg_rest = 0) by reflexivity.
  assert (Ht : 0 <= 3) by lra.
  split; [exact Hi |]. split; [exact Hx |]. split; [exact Hy |].
  split; [exact rest_accelerates |]. split; [exact Ht |].
  exact (proj1 (straight_from_rest ptg_rest 0 3 Hi Hx Hy rest_accelerates Ht)).
Defined.

(** ** From a distance to a step, outside the Newton branch *)

Lemma Rpower_quarter_sqr (a : R) :
  0 < a -> Rpower a (1 / 4) * Rpower a (1 / 4) = sqrt a.
Proof.
  intros Ha. rewrite <- Rpower_plus.
  replace (1 / 4 + 1 / 4) with (/ 2) by lra.
  apply Rpower_sqrt. exact Ha.
Qed.

Lemma solve_time_start_of_ramp (p : CPTG_Holo_Blend) (k : Z) (dist : R) :
  Rabs (k2 p k) > eps \/ Rabs (k4 p k) > eps ->
  Rabs (k2 p k * vxi p * 4 + k4 p k * vyi p * 4) < eps ->
  Rabs (vxi p * vxi p + vyi p * vyi p) < eps ->
  ~ dist >= distAtRamp p k ->
  solve_time p k dist
  = Returns (sqrt 2 * 1
             / Rpower (k2 p k * k2 p k * 4 + k4 p k * k4 p k * 4) (1 / 4)
             * sqrt dist).
Proof.
  intros Hk Hb Hc Hd. unfold solve_time. cbv zeta. fold (distAtRamp p k).
  destruct (Rge_dec dist (distAtRamp p k)); [contradiction |].
  assert (Hand : andb (if Rlt_dec (Rabs (k2 p k)) eps then true else false)
                      (if Rlt_dec (Rabs (k4 p k)) eps then true else false)
                 = false).
  { destruct (Rlt_dec (Rabs (k2 p k)) eps);
      destruct (Rlt_dec (Rabs (k4 p k)) eps); try reflexivity.
    destruct Hk; lra. }
  rewrite Hand.
  destruct (Rlt_dec (Rabs (k2 p k * vxi p * 4 + k4 p k * vyi p * 4)) eps);
    [| contradiction].
  destruct (Rlt_dec (Rabs (vxi p * vxi p + vyi p * vyi p)) eps);
    [| contradiction].
  reflexivity.
Qed.

Lemma calc_trans_distance_start_of_ramp (k2 k4 vxi vyi t : R) :
  Rabs k2 > eps \/ Rabs k4 > eps ->
  Rabs (k2 * vxi * 4 + k4 * vyi * 4) < eps ->
  Rabs (vxi * vxi + vyi * vyi) < eps ->
  calc_trans_distance_t_below_Tramp k2 k4 vxi vyi t
  = sqrt (k2 * k2 * 4 + k4 * k4 * 4) * (t * t) * 0.5.
Proof.
  intros Hk Hb Hc. unfold calc_trans_distance_t_below_Tramp. cbv zeta.
  assert (Hor : orb (if Rgt_dec (Rabs k2) eps then true else false)
                    (if Rgt_dec (Rabs k4) eps then true else false) = true).
  { destruct (Rgt_dec (Rabs k2) eps); [reflexivity |].
    destruct (Rgt_dec (Rabs k4) eps); [reflexivity | tauto]. }
  rewrite Hor.
  destruct (Rlt_dec (Rabs (k2 * vxi * 4 + k4 * vyi * 4)) eps);
    [| contradiction].
  destruct (Rlt_dec (Rabs (vxi * vxi + vyi * vyi)) eps); [| contradiction].
  reflexivity.
Qed.

(** X8: in the branch of a start from rest (initial velocity below the
    thresholds, acceleration above), the closed form of
    [getPathStepForDist] is an exact inverse of the travelled distance: for
    a distance from 0 up to, but excluding, the distance at the end of the
    ramp, the time solved lies in the ramp and the distance travelled at
    that time is the distance asked for; the call succeeds. *)
Theorem getPathStepForDist_start_of_ramp
  (p : CPTG_Holo_Blend) (k : Z) (dist : R) :
  initialize p = Returns tt ->
  Rabs (k2 p k) > eps \/ Rabs (k4 p k) > eps ->
  Rabs (k2 p k * vxi p * 4 + k4 p k * vyi p * 4) < eps ->
  Rabs (vxi p * vxi p + vyi p * vyi p) < eps ->
  0 <= dist -> dist < distAtRamp p k ->
  exists t : R,
    solve_time p k dist = Returns t
    /\ 0 <= t < T_ramp p
    /\ dist_at p k t = dist
    /\ getPathStepForDist p k dist
       = Returns (Some (to_uint16 (round (t / PATH_TIME_STEP)))).
Proof.
  intros Hinit Hk Hb Hc Hd0 Hd. apply initialize_Returns in Hinit.
  destruct Hinit as (HT & HV & _ & _).
  destruct (blend_coefficients (k2 p k) (k4 p k) (vxi p) (vyi p) Hk)
    as [Ha _].
  set (a := k2 p k * k2 p k * 4 + k4 p k * k4 p k * 4) in *.
  pose proof (Rpower_quarter_sqr a Ha) as Hr2.
  assert (Hr : 0 < Rpower a (1 / 4)) by apply exp_pos.
  pose proof (sqrt_lt_R0 a Ha) as Hsa.
  set (r := Rpower a (1 / 4)) in *.
  pose proof Rlt_sqrt2_0 as H2.
  pose proof (sqrt_sqrt 2 ltac:(lra)) as H22.
  pose proof (sqrt_pos dist) as Hsd.
  pose proof (sqrt_sqrt dist Hd0) as Hsd2.
  set (t := sqrt 2 * 1 / r * sqrt dist).
  assert (Hrun : solve_time p k dist = Returns t).
  { apply solve_time_start_of_ramp; try assumption. lra. }
  assert (Ht0 : 0 <= t).
  { unfold t. apply Rmult_le_pos; [| exact Hsd].
    apply Rlt_le. apply Rdiv_lt_0_compat; lra. }
  assert (Htt : sqrt a * (t * t) = 2 * dist).
  { unfold t.
    replace (sqrt 2 * 1 / r * sqrt dist * (sqrt 2 * 1 / r * sqrt dist))
      with ((sqrt 2 * sqrt 2) * (sqrt dist * sqrt dist) / (r * r))
      by (field; lra).
    rewrite H22, Hsd2, Hr2. field. lra. }
  assert (HdT : distAtRamp p k = sqrt a * (T_ramp p * T_ramp p) * 0.5).
  { unfold distAtRamp.
    apply calc_trans_distance_start_of_ramp; assumption. }
  assert (HtT : t < T_ramp p).
  { destruct (Rlt_dec t (T_ramp p)) as [H | H]; [exact H |].
    exfalso. assert (T_ramp p * T_ramp p <= t * t) by nra. nra. }
  exists t. split; [exact Hrun |]. split; [lra |]. split.
  - unfold dist_at. destruct (Rlt_dec t (T_ramp p)); [| lra].
    rewrite calc_trans_distance_start_of_ramp by assumption.
    fold a. lra.
  - rewrite (getPathStepForDist_of_time p k dist t Hrun).
    destruct (Rge_dec t 0); [reflexivity | lra].
Qed.

Lemma getPathStepForDist_start_of_ramp_witness :
  initialize ptg_rest = Returns tt
  /\ (Rabs (k2 ptg_rest 0) > eps \/ Rabs (k4 ptg_rest 0) > eps)
  /\ Rabs (k2 ptg_rest 0 * vxi ptg_rest * 4 + k4 ptg_rest 0 * vyi ptg_rest * 4)
     < eps
  /\ Rabs (vxi ptg_rest * vxi ptg_rest + vyi ptg_rest * vyi ptg_rest) < eps
  /\ 0 <= 0.25 /\ 0.25 < distAtRamp ptg_rest 0
  /\ exists t : R,
      solve_time ptg_rest 0 0.25 = Returns t
      /\ 0 <= t < T_ramp ptg_rest
      /\ dist_at ptg_rest 0 t = 0.25
      /\ getPathStepForDist ptg_rest 0 0.25
         = Returns (Some (to_uint16 (round (t / PATH_TIME_STEP)))).
Proof.
  assert (Hi : initialize ptg_rest = Returns tt)
    by (apply initialize_straight_ahead; lra).
  assert (Hb : Rabs (k2 ptg_rest 0 * vxi ptg_rest * 4
                     + k4 ptg_rest 0 * vyi ptg_rest * 4) < eps).
  { replace (vxi ptg_rest) with 0 by reflexivity.
    replace (vyi ptg_rest) with 0 by reflexivity.
    match goal with |- Rabs ?e < _ => replace e with 0 by ring end.
    rewrite Rabs_R0. unfold eps. lra. }
  assert (Hc : Rabs (vxi ptg_rest * vxi ptg_rest + vyi ptg_rest * vyi ptg_rest)
               < eps).
  { replace (vxi ptg_rest) with 0 by reflexivity.
    replace (vyi ptg_rest) with 0 by reflexivity.
    match goal with |- Rabs ?e < _ => replace e with 0 by ring end.
    rewrite Rabs_R0. unfold eps. lra. }
  assert (H0 : 0 <= 0.25) by lra.
  assert (Hd : 0.25 < distAtRamp ptg_rest 0)
    by (rewrite distAtRamp_rest; lra).
  split; [exact Hi |]. split; [exact rest_accelerates |].
  split; [exact Hb |]. split; [exact Hc |].
  split; [exact H0 |]. split; [exact Hd |].
  exact (getPathStepForDist_start_of_ramp ptg_rest 0 0.25 Hi rest_accelerates
           Hb Hc H0 Hd).
Defined.

(** ** The straight-line branch and the success of the inversion *)

Lemma norm_diff (a b c d : R) :
  Rabs (sqrt (a * a + b * b) - sqrt (c * c + d * d))
  <= Rabs (a - c) + Rabs (b - d).
Proof.
  pose proof (sqrt_cauchy a b c d) as Hcs. unfold Rsqr in Hcs.
  assert (H1 : 0 <= a * a + b * b) by nra.
  assert (H2 : 0 <= c * c + d * d) by nra.
  pose proof (sqrt_pos (a * a + b * b)) as Hp1.
  pose proof (sqrt_pos (c * c + d * d)) as Hp2.
  pose proof (sqrt_sqrt _ H1) as Hs1. pose proof (sqrt_sqrt _ H2) as Hs2.
  set (s1 := sqrt (a * a + b * b)) in *.
  set (s2 := sqrt (c * c + d * d)) in *.
  pose proof (Rabs_pos (a - c)) as HA. pose proof (Rabs_pos (b - d)) as HB.
  assert (HA2 : Rabs (a - c) * Rabs (a - c) = (a - c) * (a - c)).
  { unfold Rabs. destruct (Rcase_abs (a - c)); ring. }
  assert (HB2 : Rabs (b - d) * Rabs (b - d) = (b - d) * (b - d)).
  { unfold Rabs. destruct (Rcase_abs (b - d)); ring. }
  set (A := Rabs (a - c)) in *. set (B := Rabs (b - d)) in *.
  assert (Hsq : (s1 - s2) * (s1 - s2) <= (A + B) * (A + B)) by nra.
  apply Rabs_le. split; nra.
Qed.

Lemma distAtRamp_straight (p : CPTG_Holo_Blend) (k : Z) :
  Rabs (k2 p k) < eps -> Rabs (k4 p k) < eps ->
  forall t : R,
    calc_trans_distance_t_below_Tramp (k2 p k) (k4 p k) (vxi p) (vyi p) t
    = sqrt (vxi p * vxi p + vyi p * vyi p) * t.
Proof.
  intros H2 H4 t. unfold calc_trans_distance_t_below_Tramp. cbv zeta.
  destruct (Rgt_dec (Rabs (k2 p k)) eps); [lra |].
  destruct (Rgt_dec (Rabs (k4 p k)) eps); [lra |].
  reflexivity.
Qed.

Lemma solve_time_straight (p : CPTG_Holo_Blend) (k : Z) (dist : R) :
  Rabs (k2 p k) < eps -> Rabs (k4 p k) < eps ->
  ~ dist >= distAtRamp p k ->
  solve_time p k dist = Returns (dist / V_MAX p).
Proof.
  intros H2 H4 Hd. unfold solve_time. cbv zeta. fold (distAtRamp p k).
  destruct (Rge_dec dist (distAtRamp p k)); [contradiction |].
  destruct (Rlt_dec (Rabs (k2 p k)) eps); [| contradiction].
  destruct (Rlt_dec (Rabs (k4 p k)) eps); [| contradiction].
  reflexivity.
Qed.

(** The initial speed and the final speed differ by less than
    [4 * T_ramp * eps] when both ramp coefficients are below [eps]. *)
Lemma straight_speed_gap (p : CPTG_Holo_Blend) (k : Z) :
  0 < T_ramp p -> 0 < V_MAX p ->
  Rabs (k2 p k) < eps -> Rabs (k4 p k) < eps ->
  Rabs (sqrt (vxi p * vxi p + vyi p * vyi p) - V_MAX p)
  <= 4 * T_ramp p * eps.
Proof.
  intros HT HV H2 H4.
  rewrite <- (final_speed_norm p k (Rlt_le _ _ HV)) at 1.
  eapply Rle_trans; [apply norm_diff |].
  assert (Hx : vxi p - vxf p k = - (2 * T_ramp p) * k2 p k)
    by (unfold k2, TR2_; field; lra).
  assert (Hy : vyi p - vyf p k = - (2 * T_ramp p) * k4 p k)
    by (unfold k4, TR2_; field; lra).
  rewrite Hx, Hy, !Rabs_mult.
  rewrite (Rabs_left (- (2 * T_ramp p))) by lra. nra.
Qed.

(** X9: in the straight-line branch (both ramp coefficients below the
    threshold) and below the distance at the end of the ramp,
    [getPathStepForDist] solves [t = dist / V_MAX]; it reports failure
    exactly for a negative distance, and for the others the distance
    travelled at the time solved differs from the distance asked for by at
    most [4 * T_ramp^2 * eps]. *)
Theorem getPathStepForDist_straight (p : CPTG_Holo_Blend) (k : Z) (dist : R) :
  initialize p = Returns tt ->
  Rabs (k2 p k) < eps -> Rabs (k4 p k) < eps ->
  dist < distAtRamp p k ->
  solve_time p k dist = Returns (dist / V_MAX p)
  /\ (dist < 0 -> getPathStepForDist p k dist = Returns None)
  /\ (0 <= dist ->
      getPathStepForDist p k dist
      = Returns (Some (to_uint16 (round (dist / V_MAX p / PATH_TIME_STEP))))
      /\ Rabs (dist_at p k (dist / V_MAX p) - dist)
         <= 4 * (T_ramp p * T_ramp p) * eps).
Proof.
  intros Hinit H2 H4 Hd. apply initialize_Returns in Hinit.
  destruct Hinit as (HT & HV & _ & _).
  assert (Hrun : solve_time p k dist = Returns (dist / V_MAX p))
    by (apply solve_time_straight; try assumption; lra).
  assert (HtV : dist / V_MAX p * V_MAX p = dist) by (field; lra).
  split; [exact Hrun |]. split.
  - intros Hneg. rewrite (getPathStepForDist_of_time p k dist _ Hrun).
    destruct (Rge_dec (dist / V_MAX p) 0) as [H | _]; [| reflexivity].
    exfalso. nra.
  - intros H0.
    assert (Ht0 : 0 <= dist / V_MAX p).
    { apply Rmult_le_pos; [exact H0 |].
      apply Rlt_le. apply Rinv_0_lt_compat. lra. }
    split.
    + rewrite (getPathStepForDist_of_time p k dist _ Hrun).
      destruct (Rge_dec (dist / V_MAX p) 0); [reflexivity | lra].
    + pose proof (straight_speed_gap p k HT HV H2 H4) as Hgap.
      apply Rabs_le_bounds in Hgap.
      set (s := sqrt (vxi p * vxi p + vyi p * vyi p)) in *.
      set (t := dist / V_MAX p) in *.
      assert (He : 0 < eps) by (unfold eps; lra).
      unfold dist_at. rewrite !distAtRamp_straight by assumption. fold s.
      apply Rabs_le.
      destruct (Rlt_dec t (T_ramp p)) as [Hlt | Hge].
      * replace (s * t - dist) with (t * (s - V_MAX p)) by (rewrite <- HtV; ring).
        split; nra.
      * replace ((t - T_ramp p) * V_MAX p + s * T_ramp p - dist)
          with (T_ramp p * (s - V_MAX p)) by (rewrite <- HtV; ring).
        split; nra.
Qed.

Lemma distAtRamp_cruise : distAtRamp ptg_cruise 0 = 1.
Proof.
  unfold distAtRamp. rewrite distAtRamp_straight.
  - cbn [vxi vyi T_ramp curVelLocal ptg_cruise straight_ahead
         TTwist2D.vx TTwist2D.vy].
    replace (1 * 1 + 0 * 0) with (1 * 1) by ring.
    rewrite sqrt_square by lra. ring.
  - unfold ptg_cruise. rewrite straight_ahead_k2.
    replace ((1 - 1) * (1 / (2 * 1))) with 0 by lra.
    rewrite Rabs_R0. unfold eps. lra.
  - unfold ptg_cruise. rewrite straight_ahead_k4.
    replace ((0 - 0) * (1 / (2 * 1))) with 0 by lra.
    rewrite Rabs_R0. unfold eps. lra.
Qed.

Lemma getPathStepForDist_straight_witness :
  initialize ptg_cruise = Returns tt
  /\ Rabs (k2 ptg_cruise 0) < eps /\ Rabs (k4 ptg_cruise 0) < eps
  /\ 0.5 < distAtRamp ptg_cruise 0
  /\ 0 <= 0.5
  /\ Rabs (dist_at ptg_cruise 0 (0.5 / V_MAX ptg_cruise) - 0.5)
     <= 4 * (T_ramp ptg_cruise * T_ramp ptg_cruise) * eps.
Proof.
  assert (Hi : initialize ptg_cruise = Returns tt)
    by (apply initialize_straight_ahead; lra).
  assert (H2 : Rabs (k2 ptg_cruise 0) < eps).
  { unfold ptg_cruise. rewrite straight_ahead_k2.
    replace ((1 - 1) * (1 / (2 * 1))) with 0 by lra.
    rewrite Rabs_R0. unfold eps. lra. }
  assert (H4 : Rabs (k4 ptg_cruise 0) < eps).
  { unfold ptg_cruise. rewrite straight_ahead_k4.
    replace ((0 - 0) * (1 / (2 * 1))) with 0 by lra.
    rewrite Rabs_R0. unfold eps. lra. }
  assert (Hd : 0.5 < distAtRamp ptg_cruise 0)
    by (rewrite distAtRamp_cruise; lra).
  assert (H0 : 0 <= 0.5) by lra.
  split; [exact Hi |]. split; [exact H2 |]. split; [exact H4 |].
  split; [exact Hd |]. split; [exact H0 |].
  exact (proj2 (proj2 (proj2
           (getPathStepForDist_straight ptg_cruise 0 0.5 Hi H2 H4 Hd)) H0)).
Defined.

(** ** Success of the inversion, step count and round trip *)

(** Outside the Newton branch the time solved for a distance that is not
    negative is not negative. *)
Lemma solve_time_closed_forms (p : CPTG_Holo_Blend) (k : Z) (dist : R) :
  0 < T_ramp p -> 0 < V_MAX p -> 0 <= dist ->
  ~ general_branch p k dist ->
  exists t : R, solve_time p k dist = Returns t /\ 0 <= t.
Proof.
  intros HT HV Hd Hng. unfold solve_time. cbv zeta. fold (distAtRamp p k).
  destruct (Rge_dec dist (distAtRamp p k)) as [Hge | Hlt].
  - eexists. split; [reflexivity |].
    pose proof (coasting_time_ge (T_ramp p) (V_MAX p) dist (distAtRamp p k)
                  HV Hge).
    lra.
  - destruct (Rlt_dec (Rabs (k2 p k)) eps) as [H2 | H2];
      destruct (Rlt_dec (Rabs (k4 p k)) eps) as [H4 | H4]; cbn [andb];
      try (eexists; split; [reflexivity |];
           apply Rmult_le_pos; [exact Hd |];
           apply Rlt_le; apply Rinv_0_lt_compat; exact HV);
      destruct (Rlt_dec (Rabs (k2 p k * vxi p * 4 + k4 p k * vyi p * 4)) eps)
        as [Hb | Hb];
      destruct (Rlt_dec (Rabs (vxi p * vxi p + vyi p * vyi p)) eps)
        as [Hc | Hc]; cbn [andb];
      try (exfalso; apply Hng; unfold general_branch;
           split; [exact Hlt |]; split; intros [? ?]; contradiction);
      (eexists; split; [reflexivity |];
       apply Rmult_le_pos; [| apply sqrt_pos];
       apply Rmult_le_pos;
       [rewrite Rmult_1_r; apply sqrt_pos
       | apply Rlt_le; apply Rinv_0_lt_compat; apply exp_pos]).
Qed.

Lemma to_uint16_range (z : Z) : (0 <= to_uint16 z < 65536)%Z.
Proof. unfold to_uint16. apply Z.mod_pos_bound. lia. Qed.

(** X10: on an initialized object and a direction whose distance is a
    number, for a distance that is not negative, [getPathStepForDist]
    neither raises nor reports failure unless the distance falls in the
    Newton branch; the step returned fits 16 bits. *)
Theorem getPathStepForDist_succeeds (p : CPTG_Holo_Blend) (k : Z) (dist : R) :
  initialize p = Returns tt -> distance_defined p k -> 0 <= dist ->
  ~ general_branch p k dist ->
  exists step : Z,
    getPathStepForDist p k dist = Returns (Some step)
    /\ (0 <= step < 65536)%Z.
Proof.
  intros Hinit _ Hd Hng. apply initialize_Returns in Hinit.
  destruct Hinit as (HT & HV & _ & _).
  destruct (solve_time_closed_forms p k dist HT HV Hd Hng) as (t & Hrun & Ht).
  exists (to_uint16 (round (t / PATH_TIME_STEP))).
  split; [| apply to_uint16_range].
  rewrite (getPathStepForDist_of_time p k dist t Hrun).
  destruct (Rge_dec t 0); [reflexivity | lra].
Qed.

Lemma coasting_not_general (p : CPTG_Holo_Blend) (k : Z) (dist : R) :
  dist >= distAtRamp p k -> ~ general_branch p k dist.
Proof. intros H (Hn & _). contradiction. Qed.

Lemma getPathStepForDist_succeeds_witness :
  initialize ptg_blend = Returns tt
  /\ distance_defined ptg_blend 0
  /\ 0 <= 1
  /\ ~ general_branch ptg_blend 0 1
  /\ exists step : Z,
      getPathStepForDist ptg_blend 0 1 = Returns (Some step)
      /\ (0 <= step < 65536)%Z.
Proof.
  assert (Hi : initialize ptg_blend = Returns tt)
    by (apply initialize_straight_ahead; lra).
  assert (Hn : distance_defined ptg_blend 0)
    by (apply distance_defined_straight_ahead; lra).
  assert (H0 : 0 <= 1) by lra.
  assert (Hng : ~ general_branch ptg_blend 0 1).
  { apply coasting_not_general. rewrite distAtRamp_blend. lra. }
  split; [exact Hi |]. split; [exact Hn |]. split; [exact H0 |].
  split; [exact Hng |].
  exact (getPathStepForDist_succeeds ptg_blend 0 1 Hi Hn H0 Hng).
Defined.

(** X11: on an initialized object whose normalization distance is not
    negative, [getPathStepCount] returns a step, without raising, for
    every direction whose distance is a number and that the normalization
    distance does not send to the Newton branch; when that distance is not
    below the one at the end of the ramp, the step is that of the coasting
    time. *)
Theorem getPathStepCount_returns (p : CPTG_Holo_Blend) (k : Z) :
  initialize p = Returns tt -> distance_defined p k -> 0 <= refDistance p ->
  ~ general_branch p k (refDistance p) ->
  (exists step : Z,
      getPathStepCount p k = Returns step /\ (0 <= step < 65536)%Z)
  /\ (refDistance p >= distAtRamp p k ->
      getPathStepCount p k
      = Returns (to_uint16
                   (round ((T_ramp p
                            + (refDistance p - distAtRamp p k) / V_MAX p)
                           / PATH_TIME_STEP)))).
Proof.
  intros Hinit _ Hd Hng. apply initialize_Returns in Hinit.
  destruct Hinit as (HT & HV & _ & _).
  split.
  - destruct (solve_time_closed_forms p k (refDistance p) HT HV Hd Hng)
      as (t & Hrun & Ht).
    exists (to_uint16 (round (t / PATH_TIME_STEP))).
    split; [| apply to_uint16_range].
    unfold getPathStepCount.
    rewrite (getPathStepForDist_of_time p k _ t Hrun).
    destruct (Rge_dec t 0); [reflexivity | lra].
  - intros Hge. unfold getPathStepCount.
    rewrite (getPathStepForDist_of_time p k _ _
               (solve_time_coasting p k (refDistance p) Hge)).
    pose proof (coasting_time_ge (T_ramp p) (V_MAX p) (refDistance p)
                  (distAtRamp p k) HV Hge).
    destruct (Rge_dec _ 0); [reflexivity | lra].
Qed.

Lemma getPathStepCount_returns_witness :
  initialize ptg_blend = Returns tt
  /\ distance_defined ptg_blend 0
  /\ 0 <= refDistance ptg_blend
  /\ ~ general_branch ptg_blend 0 (refDistance ptg_blend)
  /\ refDistance ptg_blend >= distAtRamp ptg_blend 0
  /\ getPathStepCount ptg_blend 0 = Returns 5005%Z.
Proof.
  assert (Hi : initialize ptg_blend = Returns tt)
    by (apply initialize_straight_ahead; lra).
  assert (Hn : distance_defined ptg_blend 0)
    by (apply distance_defined_straight_ahead; lra).
  assert (H0 : 0 <= refDistance ptg_blend)
    by (cbn [refDistance ptg_blend straight_ahead]; lra).
  assert (Hge : refDistance ptg_blend >= distAtRamp ptg_blend 0).
  { rewrite distAtRamp_blend. cbn [refDistance ptg_blend straight_ahead].
    lra. }
  assert (Hng : ~ general_branch ptg_blend 0 (refDistance ptg_blend))
    by (apply coasting_not_general; exact Hge).
  assert (Hround : round ((T_ramp ptg_blend
                           + (refDistance ptg_blend - distAtRamp ptg_blend 0)
                             / V_MAX ptg_blend)
                          / PATH_TIME_STEP) = 5005%Z).
  { rewrite coasting_time_blend. cbn [refDistance ptg_blend straight_ahead].
    apply round_near; unfold PATH_TIME_STEP; lra. }
  split; [exact Hi |]. split; [exact Hn |]. split; [exact H0 |].
  split; [exact Hng |]. split; [exact Hge |].
  rewrite (proj2 (getPathStepCount_returns ptg_blend 0 Hi Hn H0 Hng) Hge).
  rewrite Hround. reflexivity.
Defined.

Lemma round_error (v : R) : Rabs (IZR (round v) - v) <= / 2.
Proof.
  unfold round. rewrite minus_IZR.
  destruct (archimed (v + / 2)) as [H1 H2].
  apply Rabs_le. lra.
Qed.

(** X12: round trip past the ramp, on a direction whose distance is a
    number.  For a distance not below the one at
    the end of the ramp, when the step returned by [getPathStepForDist]
    is not reduced by the 16 bits and its time is not before [T_ramp], the
    travelled distance at that step differs from the distance asked for by
    at most what is travelled in half a time step at [V_MAX]. *)
Theorem coasting_round_trip (p : CPTG_Holo_Blend) (k : Z) (dist : R) :
  initialize p = Returns tt ->
  distance_defined p k ->
  dist >= distAtRamp p k ->
  (0 <= round ((T_ramp p + (dist - distAtRamp p k) / V_MAX p)
               / PATH_TIME_STEP) < 65536)%Z ->
  T_ramp p
  <= PATH_TIME_STEP
     * IZR (round ((T_ramp p + (dist - distAtRamp p k) / V_MAX p)
                   / PATH_TIME_STEP)) ->
  exists step : Z,
    getPathStepForDist p k dist = Returns (Some step)
    /\ Rabs (getPathDist p k step - dist) <= V_MAX p * PATH_TIME_STEP / 2.
Proof.
  intros Hinit _ Hd Hr Hpast. apply initialize_Returns in Hinit.
  destruct Hinit as (HT & HV & _ & _).
  pose proof (coasting_time_ge (T_ramp p) (V_MAX p) dist (distAtRamp p k)
                HV Hd) as Ht.
  set (t := T_ramp p + (dist - distAtRamp p k) / V_MAX p) in *.
  set (step := round (t / PATH_TIME_STEP)) in *.
  exists step. split.
  - rewrite (getPathStepForDist_of_time p k dist t)
      by (apply solve_time_coasting; assumption).
    destruct (Rge_dec t 0); [| lra].
    fold step. unfold to_uint16. rewrite Z.mod_small by lia. reflexivity.
  - pose proof PATH_TIME_STEP_pos as Hq.
    pose proof (round_error (t / PATH_TIME_STEP)) as He. fold step in He.
    apply Rabs_le_bounds in He.
    assert (Htq : t / PATH_TIME_STEP * PATH_TIME_STEP = t) by (field; lra).
    assert (HtV : (t - T_ramp p) * V_MAX p = dist - distAtRamp p k)
      by (unfold t; field; lra).
    unfold getPathDist, dist_at.
    destruct (Rlt_dec (PATH_TIME_STEP * IZR step) (T_ramp p)); [lra |].
    fold (distAtRamp p k).
    replace ((PATH_TIME_STEP * IZR step - T_ramp p) * V_MAX p
             + distAtRamp p k - dist)
      with (V_MAX p * (PATH_TIME_STEP * IZR step - t)) by lra.
    apply Rabs_le.
    assert (Hlo : - (PATH_TIME_STEP / 2) <= PATH_TIME_STEP * IZR step - t)
      by nra.
    assert (Hhi : PATH_TIME_STEP * IZR step - t <= PATH_TIME_STEP / 2)
      by nra.
    split; nra.
Qed.

Lemma coasting_round_trip_witness :
  initialize ptg_blend = Returns tt
  /\ distance_defined ptg_blend 0
  /\ 1 >= distAtRamp ptg_blend 0
  /\ exists step : Z,
      getPathStepForDist ptg_blend 0 1 = Returns (Some step)
      /\ Rabs (getPathDist ptg_blend 0 step - 1)
         <= V_MAX ptg_blend * PATH_TIME_STEP / 2.
Proof.
  assert (Hi : initialize ptg_blend = Returns tt)
    by (apply initialize_straight_ahead; lra).
  assert (Hn : distance_defined ptg_blend 0)
    by (apply distance_defined_straight_ahead; lra).
  assert (Hd : 1 >= distAtRamp ptg_blend 0)
    by (rewrite distAtRamp_blend; lra).
  assert (Hround : round ((T_ramp ptg_blend + (1 - distAtRamp ptg_blend 0)
                                              / V_MAX ptg_blend)
                          / PATH_TIME_STEP) = 1005%Z).
  { rewrite coasting_time_blend.
    apply round_near; unfold PATH_TIME_STEP; lra. }
  split; [exact Hi |]. split; [exact Hn |]. split; [exact Hd |].
  apply (coasting_round_trip ptg_blend 0 1 Hi Hn Hd).
  - rewrite Hround. lia.
  - rewrite Hround. cbn [T_ramp ptg_blend straight_ahead].
    unfold PATH_TIME_STEP. lra.
Defined.

(** ** Command and construction *)

(** X13: the velocity command of a direction is, in this order, the
    maximal linear speed, the angle of the direction, the ramp time and
    the maximal angular speed; it does not depend on the current velocity.
    It describes where the path of that direction ends up: from the ramp
    time on, the position moves at the commanded speed along the commanded
    angle, and from the time the heading needs for that angle at the
    commanded angular speed, the heading is that angle. *)
Theorem directionToMotionCommand_path (p : CPTG_Holo_Blend) (k : Z) :
  initialize p = Returns tt ->
  directionToMotionCommand p k
  = [V_MAX p; index2alpha p k; T_ramp p; W_MAX p]
  /\ (forall v : TTwist2D.t,
        directionToMotionCommand (updateCurrentRobotVel p v) k
        = directionToMotionCommand p k)
  /\ (forall vel dir_local ramp_time rot_speed : R,
        directionToMotionCommand p k
        = [vel; dir_local; ramp_time; rot_speed] ->
        (forall t1 t2 : R,
            ramp_time <= t1 -> t1 <= t2 ->
            TPose2D.x (pose_at p k t2) - TPose2D.x (pose_at p k t1)
            = vel * cos dir_local * (t2 - t1)
            /\ TPose2D.y (pose_at p k t2) - TPose2D.y (pose_at p k t1)
               = vel * sin dir_local * (t2 - t1))
        /\ (forall t : R,
              0 <= t -> Rabs dir_local / rot_speed <= t ->
              TPose2D.phi (pose_at p k t) = dir_local)).
Proof.
  intros Hinit. apply initialize_Returns in Hinit.
  destruct Hinit as (HT & HV & HW & _).
  split; [reflexivity |]. split; [intros v; reflexivity |].
  intros vel dir_local ramp_time rot_speed Hcmd.
  unfold directionToMotionCommand in Hcmd.
  injection Hcmd as <- <- <- <-. split.
  - intros t1 t2 H1 H12. unfold pose_at. cbn [TPose2D.x TPose2D.y].
    unfold vxf, vyf, dir.
    destruct (Rlt_dec t2 (T_ramp p)); [lra |].
    destruct (Rlt_dec t1 (T_ramp p)); [lra |]. split; ring.
  - intros t Ht Hrot. unfold pose_at. cbn [TPose2D.phi]. unfold dir.
    destruct (Rlt_dec t (Rabs (index2alpha p k) / W_MAX p)); [lra |].
    reflexivity.
Qed.

Lemma directionToMotionCommand_path_witness :
  initialize ptg_sides = Returns tt
  /\ directionToMotionCommand ptg_sides 1 = [1; PI / 2; 1; PI]
  /\ (forall t : R,
        0 <= t -> Rabs (PI / 2) / PI <= t ->
        TPose2D.phi (pose_at ptg_sides 1 t) = PI / 2).
Proof.
  assert (Hi : initialize ptg_sides = Returns tt).
  { pose proof PI_RGT_0 as Hpi.
    unfold initialize, ptg_sides, ASSERT_, bind; simpl.
    repeat rtest. reflexivity. }
  destruct (directionToMotionCommand_path ptg_sides 1 Hi)
    as (Hcmd & _ & Hpath).
  assert (Hc : directionToMotionCommand ptg_sides 1 = [1; PI / 2; 1; PI])
    by (rewrite Hcmd; reflexivity).
  split; [exact Hi |]. split; [exact Hc |].
  exact (proj2 (Hpath 1 (PI / 2) 1 PI Hc)).
Defined.

(** X14: an object as the default constructor leaves it does not pass
    [initialize], whatever the base class holds: the ramp time and the
    speed bounds must be set first. *)
Theorem initialize_default (count : Z) (ref : R) (alpha : Z -> R) :
  initialize (CPTG_Holo_Blend_default count ref alpha) = Throws.
Proof.
  unfold initialize, ASSERT_, bind.
  cbn [T_ramp CPTG_Holo_Blend_default].
  destruct (Rgt_dec (-1.0) 0) as [H | _]; [lra | reflexivity].
Qed.

(** ** From rest: the inverse map accepts the points of a path *)

Lemma TIME_MISMATCH_TOLERANCE_nonneg (p : CPTG_Holo_Blend) (x y : R) :
  0 < V_MAX p -> (m_alphaValuesCount p > 0)%Z ->
  0 <= TIME_MISMATCH_TOLERANCE p x y.
Proof.
  intros HV HN. unfold TIME_MISMATCH_TOLERANCE.
  assert (HNr : 0 < IZR (m_alphaValuesCount p)) by (apply IZR_lt; lia).
  pose proof PI_RGT_0 as Hpi. pose proof (sqrt_pos (x * x + y * y)) as Hs.
  apply Rmult_le_pos; [| apply Rlt_le; apply Rinv_0_lt_compat; exact HV].
  apply Rmult_le_pos; [lra |].
  apply Rmult_le_pos; [| exact Hs].
  apply Rmult_le_pos; [lra |].
  apply Rlt_le. apply Rinv_0_lt_compat. exact HNr.
Qed.

Section PathFromRest.
Variable p : CPTG_Holo_Blend.
Variable k : Z.
Hypothesis Hinit : initialize p = Returns tt.
Hypothesis Hx : vxi p = 0.
Hypothesis Hy : vyi p = 0.
Hypothesis Hvx : ~ Rabs (vxf p k) < eps.
Hypothesis Hvy : ~ Rabs (vyf p k) < eps.

Local Lemma vxf_large : ~ Rabs (vxf p k - 0) < eps.
Proof. replace (vxf p k - 0) with (vxf p k) by ring. exact Hvx. Qed.

Local Lemma vyf_large : ~ Rabs (vyf p k - 0) < eps.
Proof. replace (vyf p k - 0) with (vyf p k) by ring. exact Hvy. Qed.

Local Lemma final_solution_agree (x y v : R) :
  final_solution p x y (mkAxis false v) (mkAxis false v) = Some v.
Proof.
  apply initialize_Returns in Hinit. destruct Hinit as (_ & HV & _ & HN).
  pose proof (TIME_MISMATCH_TOLERANCE_nonneg p x y HV HN) as Htol.
  cbn [final_solution any solve].
  replace (v - v) with 0 by ring. rewrite Rabs_R0.
  destruct (Rgt_dec 0 (TIME_MISMATCH_TOLERANCE p x y)); [lra | reflexivity].
Qed.

(** The turn of the scan for direction [k] on the point that path [k]
    reaches at a time [t] of the ramp. *)
Lemma candidate_on_ramp_from_rest (t : R) :
  0 <= t -> t <= T_ramp p ->
  candidate p (TPose2D.x (pose_at p k t)) (TPose2D.y (pose_at p k t)) k
  = Some (dist_at p k t).
Proof.
  intros Ht Hle. pose proof (initialize_Returns p Hinit) as (HT & HV & _ & HN).
  set (x := TPose2D.x (pose_at p k t)).
  set (y := TPose2D.y (pose_at p k t)).
  assert (Hxw : x = t * t * (1 / (2 * T_ramp p)) * vxf p k).
  { unfold x, pose_at. cbn [TPose2D.x]. unfold TR2_. rewrite Hx.
    destruct (Rlt_dec t (T_ramp p)) as [_ | Hn]; [ring |].
    assert (Heq : t = T_ramp p) by lra. rewrite Heq.
    replace 0.5 with (/ 2) by lra. field. lra. }
  assert (Hyw : y = t * t * (1 / (2 * T_ramp p)) * vyf p k).
  { unfold y, pose_at. cbn [TPose2D.y]. unfold TR2_. rewrite Hy.
    destruct (Rlt_dec t (T_ramp p)) as [_ | Hn]; [ring |].
    assert (Heq : t = T_ramp p) by lra. rewrite Heq.
    replace 0.5 with (/ 2) by lra. field. lra. }
  unfold candidate. rewrite Hx, Hy.
  rewrite (solve_below_rest_ramp _ _ _ HT vxf_large t x axis_init Ht Hle Hxw).
  rewrite (solve_below_rest_ramp _ _ _ HT vyf_large t y axis_init Ht Hle Hyw).
  cbn [any axis_init].
  assert (Hgood : axis_good (T_ramp p) (mkAxis false t) = true).
  { unfold axis_good. cbn [any solve orb].
    destruct (Rge_dec t 0); [| lra]. destruct (Rle_dec t (T_ramp p)); [| lra].
    reflexivity. }
  rewrite Hgood. cbn [andb]. rewrite final_solution_agree.
  destruct (Rge_dec t 0); [| lra].
  unfold dist_at. rewrite Hx, Hy. reflexivity.
Qed.

(** The same for a time [t] past the ramp: the distance is that of the
    time counted from the end of the ramp. *)
Lemma candidate_past_ramp_from_rest (t : R) :
  T_ramp p < t ->
  candidate p (TPose2D.x (pose_at p k t)) (TPose2D.y (pose_at p k t)) k
  = Some (dist_at p k (t - T_ramp p)).
Proof.
  intros HtT. pose proof (initialize_Returns p Hinit) as (HT & HV & _ & HN).
  set (x := TPose2D.x (pose_at p k t)).
  set (y := TPose2D.y (pose_at p k t)).
  assert (Hxw : x = T_ramp p * 0.5 * (0 + vxf p k) + (t - T_ramp p) * vxf p k).
  { unfold x, pose_at. cbn [TPose2D.x]. rewrite Hx.
    destruct (Rlt_dec t (T_ramp p)); [lra | reflexivity]. }
  assert (Hyw : y = T_ramp p * 0.5 * (0 + vyf p k) + (t - T_ramp p) * vyf p k).
  { unfold y, pose_at. cbn [TPose2D.y]. rewrite Hy.
    destruct (Rlt_dec t (T_ramp p)); [lra | reflexivity]. }
  unfold candidate. rewrite Hx, Hy. unfold TR2_.
  rewrite (solve_below_rest_coast _ _ _ HT vxf_large t x axis_init HtT Hxw).
  rewrite (solve_below_rest_coast _ _ _ HT vyf_large t y axis_init HtT Hyw).
  cbn [any axis_init].
  assert (Hbad : axis_good (T_ramp p) (mkAxis false (-1.0)) = false).
  { unfold axis_good. cbn [any solve orb].
    destruct (Rge_dec (-1.0) 0); [lra | reflexivity]. }
  rewrite Hbad. cbn [andb].
  rewrite (solve_above_rest _ _ _ vxf_large t x _ Hxw).
  rewrite (solve_above_rest _ _ _ vyf_large t y _ Hyw).
  cbn [any]. rewrite final_solution_agree.
  destruct (Rge_dec (t - T_ramp p) 0); [| lra].
  unfold dist_at. rewrite Hx, Hy. reflexivity.
Qed.

(** The point of the path is not the origin after time 0. *)
Lemma pose_from_rest_not_origin (t : R) :
  0 < t -> TPose2D.x (pose_at p k t) <> 0 \/ TPose2D.y (pose_at p k t) <> 0.
Proof.
  intros Ht. pose proof (initialize_Returns p Hinit) as (HT & _ & _ & _).
  left. unfold pose_at. cbn [TPose2D.x]. unfold TR2_. rewrite Hx.
  assert (Hvf : vxf p k <> 0) by (apply vf_nonzero; exact vxf_large).
  assert (Hu : 0 < 1 / (2 * T_ramp p)) by (apply Rdiv_lt_0_compat; lra).
  destruct (Rlt_dec t (T_ramp p)).
  - replace (0 * t + t * t * (1 / (2 * T_ramp p)) * (vxf p k - 0))
      with (t * t * (1 / (2 * T_ramp p)) * vxf p k) by ring.
    apply Rmult_integral_contrapositive_currified; [| exact Hvf].
    assert (0 < t * t * (1 / (2 * T_ramp p)))
      by (apply Rmult_lt_0_compat; [nra | exact Hu]).
    lra.
  - replace 0.5 with (/ 2) by lra.
    replace (T_ramp p * / 2 * (0 + vxf p k) + (t - T_ramp p) * vxf p k)
      with ((t - T_ramp p * / 2) * vxf p k) by field.
    apply Rmult_integral_contrapositive_currified; [lra | exact Hvf].
Qed.
End PathFromRest.

(** A direction whose turn reaches the comparison with a distance below
    [DBL_MAX] makes the call succeed with a distance not above it. *)
Lemma inverseMap_WS2TP_bounded_by
  (p : CPTG_Holo_Blend) (x y : R) (k : Z) (dk : R) :
  x <> 0 \/ y <> 0 -> (0 <= k < m_alphaValuesCount p)%Z ->
  candidate p x y k = Some dk -> dk < DBL_MAX ->
  exists (k' : Z) (d' dk' : R),
    inverseMap_WS2TP p x y = Returns (Some (k', d'))
    /\ candidate p x y k' = Some dk'
    /\ d' = dk' / refDistance p
    /\ dk' <= dk
    /\ PTG_IsIntoDomain p x y = Returns true.
Proof.
  intros Hxy Hk Hc Hlt.
  destruct (inverseMap_WS2TP_cases p x y Hxy)
    as [(_ & Hall0) | (k' & dk0 & Hret & _)].
  { pose proof (Hall0 k dk Hk Hc). lra. }
  set (d' := dk0 / refDistance p) in *.
  destruct (inverseMap_WS2TP_Some p x y k' d' Hret)
    as (_ & dk' & Hc' & Hd' & Hall & _).
  exists k', d', dk'.
  split; [exact Hret |]. split; [exact Hc' |]. split; [exact Hd' |].
  split; [exact (Hall k dk Hk Hc) |].
  unfold PTG_IsIntoDomain. rewrite Hret. reflexivity.
Qed.

(** X15: round trip during the ramp, from rest.  When the robot is at
    rest and direction [k] is not along an axis, the point that path [k]
    reaches at a time [t] of the ramp ([0 < t <= T_ramp]) is in the domain:
    the turn of direction [k] finds the travelled distance of the path at
    [t], and the inverse map returns a solution whose distance is not
    above it. *)
Theorem inverseMap_WS2TP_on_ramp_from_rest
  (p : CPTG_Holo_Blend) (k : Z) (t : R) :
  initialize p = Returns tt -> vxi p = 0 -> vyi p = 0 ->
  (0 <= k < m_alphaValuesCount p)%Z ->
  ~ Rabs (vxf p k) < eps -> ~ Rabs (vyf p k) < eps ->
  0 < t -> t <= T_ramp p -> dist_at p k t < DBL_MAX ->
  candidate p (TPose2D.x (pose_at p k t)) (TPose2D.y (pose_at p k t)) k
  = Some (dist_at p k t)
  /\ exists (k' : Z) (d' dk' : R),
      inverseMap_WS2TP p (TPose2D.x (pose_at p k t))
        (TPose2D.y (pose_at p k t))
      = Returns (Some (k', d'))
      /\ candidate p (TPose2D.x (pose_at p k t))
           (TPose2D.y (pose_at p k t)) k' = Some dk'
      /\ d' = dk' / refDistance p
      /\ dk' <= dist_at p k t
      /\ PTG_IsIntoDomain p (TPose2D.x (pose_at p k t))
           (TPose2D.y (pose_at p k t))
         = Returns true.
Proof.
  intros Hinit Hx Hy Hk Hvx Hvy Ht HtT Hlt.
  pose proof (candidate_on_ramp_from_rest p k Hinit Hx Hy Hvx Hvy t
                (Rlt_le _ _ Ht) HtT) as Hc.
  split; [exact Hc |].
  apply (inverseMap_WS2TP_bounded_by p _ _ k (dist_at p k t));
    try assumption.
  apply (pose_from_rest_not_origin p k Hinit Hx Hvx t Ht).
Qed.

(** X16: past the ramp, from rest, the second attempt of the inverse map
    solves the time counted from the end of the ramp.  For the point that
    path [k] reaches at [t > T_ramp], the turn of direction [k] finds the
    travelled distance of the path at [t - T_ramp], which is below the
    distance travelled at [t]; the inverse map returns a solution whose
    distance is not above that smaller value. *)
Theorem inverseMap_WS2TP_past_ramp_from_rest
  (p : CPTG_Holo_Blend) (k : Z) (t : R) :
  initialize p = Returns tt -> vxi p = 0 -> vyi p = 0 ->
  (0 <= k < m_alphaValuesCount p)%Z ->
  ~ Rabs (vxf p k) < eps -> ~ Rabs (vyf p k) < eps ->
  T_ramp p < t -> dist_at p k (t - T_ramp p) < DBL_MAX ->
  candidate p (TPose2D.x (pose_at p k t)) (TPose2D.y (pose_at p k t)) k
  = Some (dist_at p k (t - T_ramp p))
  /\ dist_at p k (t - T_ramp p) < dist_at p k t
  /\ exists (k' : Z) (d' dk' : R),
      inverseMap_WS2TP p (TPose2D.x (pose_at p k t))
        (TPose2D.y (pose_at p k t))
      = Returns (Some (k', d'))
      /\ candidate p (TPose2D.x (pose_at p k t))
           (TPose2D.y (pose_at p k t)) k' = Some dk'
      /\ d' = dk' / refDistance p
      /\ dk' <= dist_at p k (t - T_ramp p)
      /\ PTG_IsIntoDomain p (TPose2D.x (pose_at p k t))
           (TPose2D.y (pose_at p k t))
         = Returns true.
Proof.
  intros Hinit Hx Hy Hk Hvx Hvy HtT Hlt.
  pose proof (initialize_Returns p Hinit) as (HT & HV & _ & _).
  pose proof (candidate_past_ramp_from_rest p k Hinit Hx Hy Hvx Hvy t HtT)
    as Hc.
  split; [exact Hc |]. split.
  - unfold dist_at.
    destruct (Rlt_dec t (T_ramp p)); [lra |].
    destruct (Rlt_dec (t - T_ramp p) (T_ramp p)) as [Hs | Hs].
    + pose proof (calc_trans_distance_mono (k2 p k) (k4 p k) (vxi p) (vyi p)
                    (t - T_ramp p) (T_ramp p) ltac:(lra) ltac:(lra)).
      nra.
    + nra.
  - apply (inverseMap_WS2TP_bounded_by p _ _ k (dist_at p k (t - T_ramp p)));
      try assumption.
    apply (pose_from_rest_not_origin p k Hinit Hx Hvx t). lra.
Qed.

(** The diagonal sample object. *)

Lemma inv_sqrt2_bounds : / 2 < 1 / sqrt 2 < 1.
Proof.
  pose proof Rlt_sqrt2_0 as H0. pose proof (sqrt_sqrt 2 ltac:(lra)) as H2.
  assert (Hc : 1 / sqrt 2 * sqrt 2 = 1) by (field; lra).
  assert (Hlt : sqrt 2 < 2) by nra.
  assert (Hgt : 1 < sqrt 2) by nra.
  assert (Hp : 0 < 1 / sqrt 2) by (apply Rdiv_lt_0_compat; lra).
  split; nra.
Qed.

Lemma diag_velocities :
  vxf ptg_diag 0 = 1 / sqrt 2 /\ vyf ptg_diag 0 = 1 / sqrt 2.
Proof.
  unfold vxf, vyf, dir. cbn [V_MAX index2alpha ptg_diag].
  rewrite cos_PI4, sin_PI4. split; ring.
Qed.

Lemma initialize_diag : initialize ptg_diag = Returns tt.
Proof.
  pose proof PI_RGT_0 as Hpi.
  unfold initialize, ASSERT_, bind.
  cbn [T_ramp V_MAX W_MAX m_alphaValuesCount ptg_diag].
  destruct (Rgt_dec 1 0) as [_ | H]; [| lra].
  destruct (Rgt_dec PI 0) as [_ | H]; [| lra].
  reflexivity.
Qed.

Lemma diag_not_along_axis :
  ~ Rabs (vxf ptg_diag 0) < eps /\ ~ Rabs (vyf ptg_diag 0) < eps.
Proof.
  destruct diag_velocities as (-> & ->). pose proof inv_sqrt2_bounds as Hb.
  rewrite Rabs_right by lra. unfold eps. split; lra.
Qed.

Lemma dist_at_diag (t : R) :
  dist_at ptg_diag 0 t
  = if Rlt_dec t 1 then 1 / 1 * (t * t) / 2
    else (t - 1) * 1 + 1 / 1 * (1 * 1) / 2.
Proof.
  assert (Hk : Rabs (k2 ptg_diag 0) > eps \/ Rabs (k4 ptg_diag 0) > eps).
  { left. unfold k2, TR2_. destruct diag_velocities as (-> & _).
    pose proof inv_sqrt2_bounds as Hb.
    cbn [T_ramp vxi curVelLocal ptg_diag TTwist2D.vx].
    rewrite Rabs_right by lra. unfold eps. lra. }
  assert (HT : 0 < T_ramp ptg_diag) by (cbn [T_ramp ptg_diag]; lra).
  assert (HV : 0 < V_MAX ptg_diag) by (cbn [V_MAX ptg_diag]; lra).
  unfold dist_at.
  rewrite !(calc_trans_distance_rest ptg_diag 0 _ HT HV eq_refl eq_refl Hk).
  cbn [T_ramp V_MAX ptg_diag]. reflexivity.
Qed.

Lemma inverseMap_WS2TP_on_ramp_from_rest_witness :
  initialize ptg_diag = Returns tt
  /\ vxi ptg_diag = 0 /\ vyi ptg_diag = 0
  /\ (0 <= 0 < m_alphaValuesCount ptg_diag)%Z
  /\ ~ Rabs (vxf ptg_diag 0) < eps /\ ~ Rabs (vyf ptg_diag 0) < eps
  /\ 0 < 0.5 /\ 0.5 <= T_ramp ptg_diag
  /\ dist_at ptg_diag 0 0.5 < DBL_MAX
  /\ candidate ptg_diag (TPose2D.x (pose_at ptg_diag 0 0.5))
       (TPose2D.y (pose_at ptg_diag 0 0.5)) 0
     = Some (dist_at ptg_diag 0 0.5).
Proof.
  assert (Hx : vxi ptg_diag = 0) by reflexivity.
  assert (Hy : vyi ptg_diag = 0) by reflexivity.
  assert (Hk : (0 <= 0 < m_alphaValuesCount ptg_diag)%Z)
    by (cbn [m_alphaValuesCount ptg_diag]; lia).
  assert (Ht : 0 < 0.5) by lra.
  assert (HtT : 0.5 <= T_ramp ptg_diag) by (cbn [T_ramp ptg_diag]; lra).
  assert (Hlt : dist_at ptg_diag 0 0.5 < DBL_MAX).
  { rewrite dist_at_diag. apply DBL_MAX_above.
    destruct (Rlt_dec 0.5 1); lra. }
  split; [exact initialize_diag |]. split; [exact Hx |]. split; [exact Hy |].
  split; [exact Hk |]. split; [exact (proj1 diag_not_along_axis) |].
  split; [exact (proj2 diag_not_along_axis) |].
  split; [exact Ht |]. split; [exact HtT |]. split; [exact Hlt |].
  exact (proj1 (inverseMap_WS2TP_on_ramp_from_rest ptg_diag 0 0.5
                  initialize_diag Hx Hy Hk (proj1 diag_not_along_axis)
                  (proj2 diag_not_along_axis) Ht HtT Hlt)).
Defined.

Lemma inverseMap_WS2TP_past_ramp_from_rest_witness :
  initialize ptg_diag = Returns tt
  /\ vxi ptg_diag = 0 /\ vyi ptg_diag = 0
  /\ (0 <= 0 < m_alphaValuesCount ptg_diag)%Z
  /\ ~ Rabs (vxf ptg_diag 0) < eps /\ ~ Rabs (vyf ptg_diag 0) < eps
  /\ T_ramp ptg_diag < 3
  /\ dist_at ptg_diag 0 (3 - T_ramp ptg_diag) < DBL_MAX
  /\ candidate ptg_diag (TPose2D.x (pose_at ptg_diag 0 3))
       (TPose2D.y (pose_at ptg_diag 0 3)) 0
     = Some (dist_at ptg_diag 0 (3 - T_ramp ptg_diag))
  /\ dist_at ptg_diag 0 (3 - T_ramp ptg_diag) < dist_at ptg_diag 0 3.
Proof.
  assert (Hx : vxi ptg_diag = 0) by reflexivity.
  assert (Hy : vyi ptg_diag = 0) by reflexivity.
  assert (Hk : (0 <= 0 < m_alphaValuesCount ptg_diag)%Z)
    by (cbn [m_alphaValuesCount ptg_diag]; lia).
  assert (HtT : T_ramp ptg_diag < 3) by (cbn [T_ramp ptg_diag]; lra).
  assert (Hlt : dist_at ptg_diag 0 (3 - T_ramp ptg_diag) < DBL_MAX).
  { rewrite dist_at_diag. apply DBL_MAX_above. cbn [T_ramp ptg_diag].
    destruct (Rlt_dec (3 - 1) 1); lra. }
  split; [exact initialize_diag |]. split; [exact Hx |]. split; [exact Hy |].
  split; [exact Hk |]. split; [exact (proj1 diag_not_along_axis) |].
  split; [exact (proj2 diag_not_along_axis) |].
  split; [exact HtT |]. split; [exact Hlt |].
  pose proof (inverseMap_WS2TP_past_ramp_from_rest ptg_diag 0 3
                initialize_diag Hx Hy Hk (proj1 diag_not_along_axis)
                (proj2 diag_not_along_axis) HtT Hlt) as (Hc & Hd & _).
  split; assumption.
Defined.

(** ** The distance of the ramp is the integral of the speed *)

Lemma derivable_affine (u v t : R) :
  derivable_pt_lim (fun z => z * u + v) t u.
Proof.
  assert (H : derivable_pt_lim (mult_real_fct u id + fct_cte v)%F t
                (u * 1 + 0)).
  { apply derivable_pt_lim_plus.
    - apply derivable_pt_lim_scal. apply derivable_pt_lim_id.
    - apply derivable_pt_lim_const. }
  replace (u * 1 + 0) with u in H by ring.
  apply (derivable_pt_lim_ext (mult_real_fct u id + fct_cte v)%F);
    [| exact H].
  intros z. unfold plus_fct, mult_real_fct, id, fct_cte. ring.
Qed.

Lemma speed_algebra (a b c t sa s w : R) :
  0 < sa -> sa * sa = a -> 0 < s -> s * s = c + b * t + a * (t * t) ->
  0 < w -> w = 1 / sa * (b * (1 / 2) + a * t) + s ->
  1 / 2 * s
  + (t * (1 / 2) + b * (1 / 4) / a) * (/ (2 * s) * (b + 2 * a * t))
  + 1 / (a * sa) * (a * c - b * b * (1 / 4)) * (1 / 2)
    * (/ w * (1 / sa * a + / (2 * s) * (b + 2 * a * t)))
  - 0 = s.
Proof.
  intros Hsa Ha Hs Hs2 Hw Hwd.
  assert (Hc : c = s * s - b * t - a * (t * t)) by lra.
  subst a c.
  assert (Hw' : 1 / sa * (sa * sa) + / (2 * s) * (b + 2 * (sa * sa) * t)
                = sa * w / s).
  { rewrite Hwd. field. lra. }
  rewrite Hw'. clear Hw' Hwd Hs2. field. lra.
Qed.

Section SpeedIntegral.
Variables a b c : R.
Hypothesis a_pos : 0 < a.
Hypothesis discr_pos : 0 < a * c - (b * b) * (1 / 4).

Lemma quad_pos (t : R) : 0 < c + b * t + a * (t * t).
Proof.
  assert (H : 0 < a * (c + b * t + a * (t * t))).
  { replace (a * (c + b * t + a * (t * t)))
      with ((a * c - b * b * (1 / 4)) + (a * t + b / 2) * (a * t + b / 2))
      by field.
    pose proof (Rle_0_sqr (a * t + b / 2)) as Hs. unfold Rsqr in Hs. lra. }
  nra.
Qed.

Lemma derivable_quad (t : R) :
  derivable_pt_lim (fun z => c + b * z + a * (z * z)) t (b + 2 * a * t).
Proof.
  apply (derivable_pt_lim_ext
           ((fct_cte c + mult_real_fct b id) + mult_real_fct a (id * id))%F).
  - intros z. reflexivity.
  - replace (b + 2 * a * t) with ((0 + b * 1) + a * (1 * id t + id t * 1))
      by (unfold id; ring).
    apply derivable_pt_lim_plus.
    + apply derivable_pt_lim_plus.
      * apply derivable_pt_lim_const.
      * apply derivable_pt_lim_scal. apply derivable_pt_lim_id.
    + apply derivable_pt_lim_scal.
      apply derivable_pt_lim_mult; apply derivable_pt_lim_id.
Qed.

Lemma derivable_speed (t : R) :
  derivable_pt_lim (fun z => sqrt (c + b * z + a * (z * z))) t
    (/ (2 * sqrt (c + b * t + a * (t * t))) * (b + 2 * a * t)).
Proof.
  apply (derivable_pt_lim_ext
           (comp sqrt (fun z => c + b * z + a * (z * z)))).
  - intros z. reflexivity.
  - apply derivable_pt_lim_comp.
    + apply derivable_quad.
    + apply derivable_pt_lim_sqrt. apply quad_pos.
Qed.

Lemma log_arg_pos (t : R) :
  0 < 1 / sqrt a * (b * (1 / 2) + a * t)
      + sqrt (c + b * t + a * (t * t)).
Proof.
  exact (proj1 (antiderivative_log_arg a b c a_pos (Rlt_le _ _ discr_pos)
                  t t discr_pos (Rle_refl t))).
Qed.

Lemma derivable_log_arg (t : R) :
  derivable_pt_lim
    (fun z => 1 / sqrt a * (b * (1 / 2) + a * z)
              + sqrt (c + b * z + a * (z * z))) t
    (1 / sqrt a * a
     + / (2 * sqrt (c + b * t + a * (t * t))) * (b + 2 * a * t)).
Proof.
  apply (derivable_pt_lim_ext
           (mult_real_fct (1 / sqrt a)%R
              (fct_cte (b * (1 / 2))%R + mult_real_fct a id)
            + (fun z => sqrt (c + b * z + a * (z * z))))%F).
  - intros z. reflexivity.
  - apply derivable_pt_lim_plus; [| apply derivable_speed].
    apply derivable_pt_lim_scal.
    replace a with (0 + a * 1) at 2 by ring.
    apply derivable_pt_lim_plus.
    + apply derivable_pt_lim_const.
    + apply derivable_pt_lim_scal. apply derivable_pt_lim_id.
Qed.

Lemma Rpower_3_2 : Rpower a (3 / 2) = a * sqrt a.
Proof.
  replace (3 / 2) with (1 + / 2) by lra.
  rewrite Rpower_plus, Rpower_1, Rpower_sqrt by exact a_pos. reflexivity.
Qed.

Lemma calc_abc_derivative (t : R) :
  derivable_pt_lim (fun z => calc_trans_distance_t_below_Tramp_abc z a b c) t
    (sqrt (c + b * t + a * (t * t))).
Proof.
  pose proof (quad_pos t) as Hq. pose proof (log_arg_pos t) as Hw.
  pose proof (sqrt_lt_R0 _ Hq) as Hs. pose proof (sqrt_sqrt _ (Rlt_le _ _ Hq)) as Hs2.
  pose proof (sqrt_lt_R0 _ a_pos) as Hsa.
  pose proof (sqrt_sqrt _ (Rlt_le _ _ a_pos)) as Hsa2.
  set (K := 1 / Rpower a (3 / 2)).
  set (D := a * c - b * b * (1 / 4)).
  set (C0 := b * sqrt c * (1 / 4) / a
             + K * ln (1 / sqrt a * (b + sqrt a * sqrt c * 2) * (1 / 2))
               * D * (1 / 2)).
  apply (derivable_pt_lim_ext
           (((fun z => (z * (1 / 2) + b * (1 / 4) / a)%R)
             * (fun z => sqrt (c + b * z + a * (z * z)))
             + mult_real_fct (K * D * (1 / 2))%R
                 (comp ln (fun z => (1 / sqrt a * (b * (1 / 2) + a * z)
                                     + sqrt (c + b * z + a * (z * z)))%R)))
            - fct_cte C0)%F).
  - intros z. unfold calc_trans_distance_t_below_Tramp_abc,
      minus_fct, plus_fct, mult_fct, mult_real_fct, comp, fct_cte.
    fold K D C0. ring.
  - set (s := sqrt (c + b * t + a * (t * t))) in *.
    set (w := 1 / sqrt a * (b * (1 / 2) + a * t) + s) in *.
    replace s with
      (((1 / 2) * s
        + (t * (1 / 2) + b * (1 / 4) / a) * (/ (2 * s) * (b + 2 * a * t)))
       + (K * D * (1 / 2))
         * (/ w * (1 / sqrt a * a + / (2 * s) * (b + 2 * a * t)))
       - 0) at 1.
    + apply derivable_pt_lim_minus; [| apply derivable_pt_lim_const].
      apply derivable_pt_lim_plus.
      * apply (derivable_pt_lim_mult
                 (fun z => z * (1 / 2) + b * (1 / 4) / a)
                 (fun z => sqrt (c + b * z + a * (z * z)))
                 t (1 / 2) (/ (2 * s) * (b + 2 * a * t)));
          [| apply derivable_speed].
        apply derivable_affine.
      * apply derivable_pt_lim_scal.
        apply (derivable_pt_lim_comp
                 (fun z => 1 / sqrt a * (b * (1 / 2) + a * z)
                           + sqrt (c + b * z + a * (z * z)))
                 ln t
                 (1 / sqrt a * a + / (2 * s) * (b + 2 * a * t)) (/ w)).
        -- apply derivable_log_arg.
        -- apply derivable_pt_lim_ln. exact Hw.
    + unfold K, D. rewrite Rpower_3_2.
      apply (speed_algebra a b c t (sqrt a) s w); try assumption.
      reflexivity.
Qed.
End SpeedIntegral.


(** X17: in the general branch, when the initial velocity and the change
    of velocity are not collinear, the closed form of the travelled
    distance is an antiderivative of the speed, as the Newton loop takes
    it to be: at every time of the ramp the travelled distance has a
    derivative in time, the norm of the derivative of the position. *)
Theorem ramp_distance_derivative (p : CPTG_Holo_Blend) (k : Z) (t : R) :
  Rabs (k2 p k) > eps \/ Rabs (k4 p k) > eps ->
  ~ (Rabs (k2 p k * vxi p * 4 + k4 p k * vyi p * 4) < eps
     /\ Rabs (vxi p * vxi p + vyi p * vyi p) < eps) ->
  k2 p k * vyi p - k4 p k * vxi p <> 0 ->
  t < T_ramp p ->
  derivable_pt_lim (fun z => TPose2D.x (pose_at p k z)) t
    (vxi p + 2 * k2 p k * t)
  /\ derivable_pt_lim (fun z => TPose2D.y (pose_at p k z)) t
       (vyi p + 2 * k4 p k * t)
  /\ derivable_pt_lim (fun z => dist_at p k z) t
       (sqrt ((vxi p + 2 * k2 p k * t) * (vxi p + 2 * k2 p k * t)
              + (vyi p + 2 * k4 p k * t) * (vyi p + 2 * k4 p k * t))).
Proof.
  intros Hk Hbc Hnc HtT.
  assert (Hloc : t - 1 < t < T_ramp p) by lra.
  assert (Haxis : forall vi vf : R,
            derivable_pt_lim
              (fun z => if Rlt_dec z (T_ramp p)
                        then vi * z + z * z * TR2_ p * (vf - vi)
                        else T_ramp p * 0.5 * (vi + vf)
                             + (z - T_ramp p) * vf)
              t (vi + 2 * ((vf - vi) * TR2_ p) * t)).
  { intros vi vf.
    apply (derivable_pt_lim_locally_ext
             (fun z => 0 + vi * z + ((vf - vi) * TR2_ p) * (z * z))
             _ t (t - 1) (T_ramp p)); [exact Hloc | |].
    - intros z Hz. destruct (Rlt_dec z (T_ramp p)); [ring | lra].
    - apply derivable_quad. }
  split; [| split].
  - unfold pose_at. cbn [TPose2D.x]. apply (Haxis (vxi p) (vxf p k)).
  - unfold pose_at. cbn [TPose2D.y]. apply (Haxis (vyi p) (vyf p k)).
  - destruct (blend_coefficients (k2 p k) (k4 p k) (vxi p) (vyi p) Hk)
      as [Ha _].
    assert (HD : 0 < (k2 p k * k2 p k * 4 + k4 p k * k4 p k * 4)
                     * (vxi p * vxi p + vyi p * vyi p)
                     - (k2 p k * vxi p * 4 + k4 p k * vyi p * 4)
                       * (k2 p k * vxi p * 4 + k4 p k * vyi p * 4) * (1 / 4)).
    { assert (H : 0 < (k2 p k * vyi p - k4 p k * vxi p)
                      * (k2 p k * vyi p - k4 p k * vxi p)).
      { destruct (Rtotal_order (k2 p k * vyi p - k4 p k * vxi p) 0)
          as [H | [H | H]]; [nra | contradiction | nra]. }
      nra. }
    replace ((vxi p + 2 * k2 p k * t) * (vxi p + 2 * k2 p k * t)
             + (vyi p + 2 * k4 p k * t) * (vyi p + 2 * k4 p k * t))
      with ((vxi p * vxi p + vyi p * vyi p)
            + (k2 p k * vxi p * 4 + k4 p k * vyi p * 4) * t
            + (k2 p k * k2 p k * 4 + k4 p k * k4 p k * 4) * (t * t))
      by ring.
    apply (derivable_pt_lim_locally_ext
             (fun z => calc_trans_distance_t_below_Tramp_abc z
                         (k2 p k * k2 p k * 4 + k4 p k * k4 p k * 4)
                         (k2 p k * vxi p * 4 + k4 p k * vyi p * 4)
                         (vxi p * vxi p + vyi p * vyi p))
             _ t (t - 1) (T_ramp p)); [exact Hloc | |].
    + intros z Hz. unfold dist_at.
      destruct (Rlt_dec z (T_ramp p)); [| lra].
      unfold calc_trans_distance_t_below_Tramp. cbv zeta.
      assert (Hor : orb (if Rgt_dec (Rabs (k2 p k)) eps then true else false)
                        (if Rgt_dec (Rabs (k4 p k)) eps then true else false)
                    = true).
      { destruct (Rgt_dec (Rabs (k2 p k)) eps); [reflexivity |].
        destruct (Rgt_dec (Rabs (k4 p k)) eps); [reflexivity | tauto]. }
      rewrite Hor.
      destruct (Rlt_dec (Rabs (k2 p k * vxi p * 4 + k4 p k * vyi p * 4)) eps);
        destruct (Rlt_dec (Rabs (vxi p * vxi p + vyi p * vyi p)) eps);
        cbn [andb]; try reflexivity.
      exfalso. apply Hbc. split; assumption.
    + apply calc_abc_derivative; assumption.
Qed.

Lemma turn_coefficients_values :
  k2 ptg_turn 0 = 0.5 /\ k4 ptg_turn 0 = -0.25
  /\ vxi ptg_turn = 0 /\ vyi ptg_turn = 0.5.
Proof.
  unfold ptg_turn. rewrite straight_ahead_k2, straight_ahead_k4.
  cbn [vxi vyi curVelLocal straight_ahead TTwist2D.vx TTwist2D.vy].
  repeat split; lra.
Qed.

Lemma ramp_distance_derivative_witness :
  (Rabs (k2 ptg_turn 0) > eps \/ Rabs (k4 ptg_turn 0) > eps)
  /\ ~ (Rabs (k2 ptg_turn 0 * vxi ptg_turn * 4
              + k4 ptg_turn 0 * vyi ptg_turn * 4) < eps
        /\ Rabs (vxi ptg_turn * vxi ptg_turn + vyi ptg_turn * vyi ptg_turn)
           < eps)
  /\ k2 ptg_turn 0 * vyi ptg_turn - k4 ptg_turn 0 * vxi ptg_turn <> 0
  /\ 0.5 < T_ramp ptg_turn
  /\ derivable_pt_lim (fun z => dist_at ptg_turn 0 z) 0.5
       (sqrt ((vxi ptg_turn + 2 * k2 ptg_turn 0 * 0.5)
              * (vxi ptg_turn + 2 * k2 ptg_turn 0 * 0.5)
              + (vyi ptg_turn + 2 * k4 ptg_turn 0 * 0.5)
                * (vyi ptg_turn + 2 * k4 ptg_turn 0 * 0.5))).
Proof.
  destruct turn_coefficients_values as (Hk2 & Hk4 & Hvx & Hvy).
  assert (Hk : Rabs (k2 ptg_turn 0) > eps \/ Rabs (k4 ptg_turn 0) > eps).
  { left. rewrite Hk2. rewrite Rabs_right by lra. unfold eps. lra. }
  assert (Hbc : ~ (Rabs (k2 ptg_turn 0 * vxi ptg_turn * 4
                         + k4 ptg_turn 0 * vyi ptg_turn * 4) < eps
                   /\ Rabs (vxi ptg_turn * vxi ptg_turn
                            + vyi ptg_turn * vyi ptg_turn) < eps)).
  { rewrite Hvx, Hvy. intros [_ H].
    rewrite Rabs_right in H by lra. unfold eps in H. lra. }
  assert (Hnc : k2 ptg_turn 0 * vyi ptg_turn - k4 ptg_turn 0 * vxi ptg_turn
                <> 0).
  { rewrite Hk2, Hk4, Hvx, Hvy. lra. }
  assert (Ht : 0.5 < T_ramp ptg_turn)
    by (cbn [T_ramp ptg_turn straight_ahead]; lra).
  split; [exact Hk |]. split; [exact Hbc |]. split; [exact Hnc |].
  split; [exact Ht |].
  exact (proj2 (proj2 (ramp_distance_derivative ptg_turn 0 0.5
                          Hk Hbc Hnc Ht))).
Defined.

(** ** The arguments of the logarithms *)

(** X26: where the distance is a number.  When
    [calc_trans_distance_t_below_Tramp] calls the closed form with the
    logarithms, the argument of the logarithm of [int_t0] is never
    negative, and it is 0 exactly when the current velocity lies on the
    line of the change of velocity without pointing along it.  On every
    other direction both logarithms have a positive argument at every time
    that is not negative: the travelled distance is a number at every
    step. *)
Theorem distance_defined_exactly (p : CPTG_Holo_Blend) (k : Z) :
  Rabs (k2 p k) > eps \/ Rabs (k4 p k) > eps ->
  ~ (Rabs (coef_b p k) < eps /\ Rabs (coef_c p) < eps) ->
  0 <= log_arg_t0 (coef_a p k) (coef_b p k) (coef_c p)
  /\ (log_arg_t0 (coef_a p k) (coef_b p k) (coef_c p) = 0
      <-> k2 p k * vyi p = k4 p k * vxi p
          /\ k2 p k * vxi p + k4 p k * vyi p <= 0)
  /\ (distance_defined p k
      <-> ~ (k2 p k * vyi p = k4 p k * vxi p
             /\ k2 p k * vxi p + k4 p k * vyi p <= 0))
  /\ (distance_defined p k ->
      forall t : R,
        0 <= t ->
        0 < log_arg_t t (coef_a p k) (coef_b p k) (coef_c p)
        /\ 0 < log_arg_t0 (coef_a p k) (coef_b p k) (coef_c p)).
Proof.
  intros Hk Hbc.
  destruct (coef_blend p k Hk) as (Ha & Hc & HD).
  assert (Hzero : log_arg_t0 (coef_a p k) (coef_b p k) (coef_c p) = 0
                  <-> k2 p k * vyi p = k4 p k * vxi p
                      /\ k2 p k * vxi p + k4 p k * vyi p <= 0).
  { rewrite (log_arg_t0_zero _ (coef_b p k) _ Ha Hc HD).
    rewrite coef_discriminant. unfold coef_b. split.
    - intros [H0 Hb]. split; [| lra].
      assert (H : (k2 p k * vyi p - k4 p k * vxi p)
                  * (k2 p k * vyi p - k4 p k * vxi p) = 0) by lra.
      apply Rmult_integral in H. lra.
    - intros [Hcol Hb]. split; [| lra].
      replace (k2 p k * vyi p - k4 p k * vxi p) with 0 by lra. ring. }
  split; [apply log_arg_t0_nonneg; assumption |].
  split; [exact Hzero |]. split.
  - rewrite distance_defined_iff. split.
    + intros H [Hcol Hb]. apply H. repeat split; assumption.
    + intros H (_ & _ & Hcol & Hb). apply H. split; assumption.
  - intros Hdef t Ht. apply distance_defined_log_args; assumption.
Qed.

Lemma distance_defined_exactly_witness :
  (Rabs (k2 ptg_turn 0) > eps \/ Rabs (k4 ptg_turn 0) > eps)
  /\ ~ (Rabs (coef_b ptg_turn 0) < eps /\ Rabs (coef_c ptg_turn) < eps)
  /\ distance_defined ptg_turn 0
  /\ 0 < log_arg_t 0.5 (coef_a ptg_turn 0) (coef_b ptg_turn 0)
           (coef_c ptg_turn)
  /\ 0 < log_arg_t0 (coef_a ptg_turn 0) (coef_b ptg_turn 0)
           (coef_c ptg_turn).
Proof.
  destruct turn_coefficients_values as (Hk2 & Hk4 & Hvx & Hvy).
  assert (Hk : Rabs (k2 ptg_turn 0) > eps \/ Rabs (k4 ptg_turn 0) > eps).
  { left. rewrite Hk2. rewrite Rabs_right by lra. unfold eps. lra. }
  assert (Hbc : ~ (Rabs (coef_b ptg_turn 0) < eps
                   /\ Rabs (coef_c ptg_turn) < eps)).
  { unfold coef_c. rewrite Hvx, Hvy. intros [_ H].
    rewrite Rabs_right in H by lra. unfold eps in H. lra. }
  destruct (distance_defined_exactly ptg_turn 0 Hk Hbc)
    as (_ & _ & Hiff & Hpos).
  assert (Hdef : distance_defined ptg_turn 0).
  { apply Hiff. rewrite Hk2, Hk4, Hvx, Hvy. intros [H _]. lra. }
  split; [exact Hk |]. split; [exact Hbc |]. split; [exact Hdef |].
  apply (Hpos Hdef 0.5). lra.
Defined.

(** ** The per-axis solves of the inverse map *)

(** X18: the quadratic solve of the first attempt is sound.  When the
    velocity of an axis changes by at least [eps] and the solve does not
    leave the turn, it keeps the "any" flag and yields either the sentinel
    -1 or a time of the ramp at which the coordinate of the path, as
    [getPathPose] computes it, is the coordinate of the target. *)
Theorem solve_below_sound (T e vf vi w : R) (s s' : axis) :
  0 < T -> ~ Rabs (vf - vi) < eps ->
  solve_below T e vf vi w s = Some s' ->
  any s' = any s
  /\ (solve s' = -1.0
      \/ (0 <= solve s' <= T
          /\ vi * solve s' + solve s' * solve s' * (1 / (2 * T)) * (vf - vi)
             = w)).
Proof.
  intros HT Hd. unfold solve_below. cbv zeta.
  destruct (Rlt_dec (Rabs (vf - vi)) eps) as [H | _]; [contradiction |].
  set (discr := (vf * w * 2.0 - vi * w * 2.0 + T * (vi * vi)) / T).
  destruct (Rlt_dec discr 0) as [_ | Hdiscr]; [discriminate |].
  assert (Hsq : sqrt discr * sqrt discr = discr) by (apply sqrt_sqrt; lra).
  set (sq := sqrt discr) in *.
  assert (Hne : vf - vi <> 0).
  { intros H0. apply Hd. rewrite H0, Rabs_R0. unfold eps. lra. }
  assert (Hroot : forall r,
            r = - (T * (vi + sq)) / (vf - vi)
            \/ r = - (T * (vi - sq)) / (vf - vi) ->
            vi * r + r * r * (1 / (2 * T)) * (vf - vi) = w).
  { intros r Hr.
    assert (Hw : w = (discr - vi * vi) * T / (2 * (vf - vi))).
    { unfold discr. replace 2.0 with 2 by lra. field. lra. }
    rewrite Hw, <- Hsq. destruct Hr as [-> | ->]; field; lra. }
  set (r := if Rgt_dec (- (T * (vi + sq)) / (vf - vi)) 0
            then - (T * (vi + sq)) / (vf - vi)
            else - (T * (vi - sq)) / (vf - vi)).
  assert (Hr : r = - (T * (vi + sq)) / (vf - vi)
               \/ r = - (T * (vi - sq)) / (vf - vi)).
  { unfold r. destruct (Rgt_dec _ 0); [left | right]; reflexivity. }
  destruct (Rge_dec r 0) as [H0 | H0];
    destruct (Rle_dec r T) as [H1 | H1]; cbn [andb];
    intros H; injection H as <-; cbn [any solve];
    (split; [reflexivity |]); try (left; reflexivity).
  right. split; [lra |]. apply Hroot. exact Hr.
Qed.

Lemma solve_below_sound_witness :
  0 < 1 /\ ~ Rabs (1 - 0) < eps
  /\ solve_below 1 0 1 0 8 axis_init = Some (mkAxis false (-1.0))
  /\ any (mkAxis false (-1.0)) = any axis_init.
Proof.
  assert (HT : 0 < 1) by lra.
  assert (Hd : ~ Rabs (1 - 0) < eps).
  { rewrite Rabs_right by lra. unfold eps. lra. }
  split; [exact HT |]. split; [exact Hd |].
  split; [exact (solve_below_rest_x 0) |].
  exact (proj1 (solve_below_sound 1 0 1 0 8 axis_init (mkAxis false (-1.0))
                  HT Hd (solve_below_rest_x 0))).
Defined.

(** X19: the linear solve of the second attempt counts the time from the
    end of the ramp.  When the final velocity of an axis is at least [eps],
    the value it yields, added to [T_ramp], is the time at which the
    straight part of the path, as [getPathPose] computes it, reaches the
    coordinate of the target; the "any" flag is kept. *)
Theorem solve_above_offset (T e vf vi w : R) (s : axis) :
  ~ Rabs vf < eps ->
  any (solve_above T (1 / (2 * T)) e vf vi w s) = any s
  /\ T * 0.5 * (vi + vf)
     + ((T + solve (solve_above T (1 / (2 * T)) e vf vi w s)) - T) * vf
     = w.
Proof.
  intros Hvf. unfold solve_above.
  destruct (Rlt_dec (Rabs vf) eps) as [H | _]; [contradiction |].
  cbn [any solve]. split; [reflexivity |].
  assert (Hne : vf <> 0).
  { intros H0. apply Hvf. rewrite H0, Rabs_R0. unfold eps. lra. }
  replace 0.5 with (/ 2) by lra. field. exact Hne.
Qed.

Lemma solve_above_offset_witness :
  ~ Rabs 1 < eps
  /\ 1 * 0.5 * (0 + 1)
     + ((1 + solve (solve_above 1 (1 / (2 * 1)) 0 1 0 8 axis_init)) - 1) * 1
     = 8.
Proof.
  assert (Hvf : ~ Rabs 1 < eps).
  { rewrite Rabs_right by lra. unfold eps. lra. }
  split; [exact Hvf |].
  exact (proj2 (solve_above_offset 1 0 1 0 8 axis_init Hvf)).
Defined.

(** ** Serialization *)

(** X20: what [writeToStream] writes, [readFromStream] reads back.  If
    the part of the base class reads back what it writes, then reading with
    version 0 the stream written for an object [p] into an object [q]
    gives [q] the ramp time, the two speed bounds and the turning radius
    reference of [p], leaves the rest of the stream, and keeps the current
    velocity that [q] had: the current velocity is not part of the stored
    form. *)
Theorem readFromStream_writeToStream
  (internal_writeToStream : CPTG_Holo_Blend -> list R -> list R)
  (internal_readFromStream :
     CPTG_Holo_Blend -> list R -> outcome (CPTG_Holo_Blend * list R))
  (p q q0 : CPTG_Holo_Blend) (rest : list R) :
  (forall tail : list R,
      internal_readFromStream q (internal_writeToStream p [] ++ tail)
      = Returns (q0, tail)) ->
  exists q1 : CPTG_Holo_Blend,
    readFromStream internal_readFromStream q
      (fst (writeToStream internal_writeToStream p [] false) ++ rest) 0
    = Returns (q1, rest)
    /\ T_ramp q1 = T_ramp p /\ V_MAX q1 = V_MAX p /\ W_MAX q1 = W_MAX p
    /\ turningRadiusReference q1 = turningRadiusReference p
    /\ curVelLocal q1 = curVelLocal q0
    /\ m_alphaValuesCount q1 = m_alphaValuesCount q0
    /\ refDistance q1 = refDistance q0
    /\ index2alpha q1 = index2alpha q0.
Proof.
  intros Hbase. eexists. split.
  - unfold readFromStream, writeToStream. cbn [fst].
    rewrite <- app_assoc, Hbase. cbn. reflexivity.
  - cbn. repeat split; reflexivity.
Qed.

Lemma readFromStream_writeToStream_witness :
  (forall tail : list R,
      (fun q i => Returns (q, i)) ptg_rest
        ((fun (_ : CPTG_Holo_Blend) out => out) ptg_blend [] ++ tail)
      = Returns (ptg_rest, tail))
  /\ exists q1 : CPTG_Holo_Blend,
      readFromStream (fun q i => Returns (q, i)) ptg_rest
        (fst (writeToStream (fun _ out => out) ptg_blend [] false) ++ [7])
        0
      = Returns (q1, [7])
      /\ T_ramp q1 = T_ramp ptg_blend
      /\ V_MAX q1 = V_MAX ptg_blend
      /\ curVelLocal q1 = curVelLocal ptg_rest.
Proof.
  assert (Hbase : forall tail : list R,
             (fun q i => Returns (q, i)) ptg_rest
               ((fun (_ : CPTG_Holo_Blend) out => out) ptg_blend [] ++ tail)
             = Returns (ptg_rest, tail)) by (intros tail; reflexivity).
  split; [exact Hbase |].
  destruct (readFromStream_writeToStream (fun _ out => out)
              (fun q i => Returns (q, i)) ptg_blend ptg_rest ptg_rest [7]
              Hbase)
    as (q1 & Hread & HT & HV & _ & _ & Hvel & _).
  exists q1. repeat split; assumption.
Defined.

(** ** Steps and distances, there and back *)

Lemma round_IZR (z : Z) : round (IZR z) = z.
Proof. apply round_near; lra. Qed.

Lemma step_of_step_time (step : Z) :
  (0 <= step < 65536)%Z ->
  to_uint16 (round (PATH_TIME_STEP * IZR step / PATH_TIME_STEP)) = step.
Proof.
  intros Hs. pose proof PATH_TIME_STEP_pos as Hq.
  replace (PATH_TIME_STEP * IZR step / PATH_TIME_STEP) with (IZR step)
    by (field; lra).
  rewrite round_IZR. unfold to_uint16. apply Z.mod_small. exact Hs.
Qed.

(** X22: past the ramp a step is recovered from its distance: on an
    initialized object and a direction whose distance is a number, for a
    step that fits 16 bits and whose time is not before [T_ramp],
    [getPathStepForDist] applied to the distance of [getPathDist] at that
    step returns that step. *)
Theorem step_round_trip_past_ramp (p : CPTG_Holo_Blend) (k step : Z) :
  initialize p = Returns tt ->
  distance_defined p k ->
  (0 <= step < 65536)%Z ->
  T_ramp p <= PATH_TIME_STEP * IZR step ->
  getPathStepForDist p k (getPathDist p k step) = Returns (Some step).
Proof.
  intros Hinit _ Hs Hpast. apply initialize_Returns in Hinit.
  destruct Hinit as (HT & HV & _ & _).
  set (t := PATH_TIME_STEP * IZR step) in *.
  assert (Hd : getPathDist p k step = (t - T_ramp p) * V_MAX p
                                      + distAtRamp p k).
  { unfold getPathDist, dist_at. fold t.
    destruct (Rlt_dec t (T_ramp p)); [lra | reflexivity]. }
  assert (Hge : getPathDist p k step >= distAtRamp p k) by (rewrite Hd; nra).
  rewrite (getPathStepForDist_of_time p k _ _
             (solve_time_coasting p k _ Hge)).
  replace (T_ramp p + (getPathDist p k step - distAtRamp p k) / V_MAX p)
    with t by (rewrite Hd; field; lra).
  destruct (Rge_dec t 0); [| lra].
  unfold t. rewrite step_of_step_time by exact Hs. reflexivity.
Qed.

Lemma step_round_trip_past_ramp_witness :
  initialize ptg_blend = Returns tt
  /\ distance_defined ptg_blend 0
  /\ (0 <= 250 < 65536)%Z
  /\ T_ramp ptg_blend <= PATH_TIME_STEP * IZR 250
  /\ getPathStepForDist ptg_blend 0 (getPathDist ptg_blend 0 250)
     = Returns (Some 250%Z).
Proof.
  assert (Hi : initialize ptg_blend = Returns tt)
    by (apply initialize_straight_ahead; lra).
  assert (Hs : (0 <= 250 < 65536)%Z) by lia.
  assert (Hp : T_ramp ptg_blend <= PATH_TIME_STEP * IZR 250).
  { cbn [T_ramp ptg_blend straight_ahead]. unfold PATH_TIME_STEP. lra. }
  assert (Hn : distance_defined ptg_blend 0)
    by (apply distance_defined_straight_ahead; lra).
  split; [exact Hi |]. split; [exact Hn |]. split; [exact Hs |].
  split; [exact Hp |].
  exact (step_round_trip_past_ramp ptg_blend 0 250 Hi Hn Hs Hp).
Defined.

(** The time solved in the branch of a start from rest, for the distance
    travelled at a time of the ramp, is that time. *)
Lemma start_of_ramp_time (a t : R) :
  0 < a -> 0 <= t ->
  sqrt 2 * 1 / Rpower a (1 / 4) * sqrt (sqrt a * (t * t) * 0.5) = t.
Proof.
  intros Ha Ht.
  pose proof (Rpower_quarter_sqr a Ha) as Hr2.
  assert (Hr : 0 < Rpower a (1 / 4)) by apply exp_pos.
  pose proof (sqrt_lt_R0 a Ha) as Hsa.
  set (r := Rpower a (1 / 4)) in *.
  pose proof Rlt_sqrt2_0 as H2.
  pose proof (sqrt_sqrt 2 ltac:(lra)) as H22.
  assert (Hd0 : 0 <= sqrt a * (t * t) * 0.5) by nra.
  pose proof (sqrt_pos (sqrt a * (t * t) * 0.5)) as Hsd.
  pose proof (sqrt_sqrt _ Hd0) as Hsd2.
  set (sd := sqrt (sqrt a * (t * t) * 0.5)) in *.
  set (u := sqrt 2 * 1 / r * sd).
  assert (Hu0 : 0 <= u).
  { unfold u. apply Rmult_le_pos; [| exact Hsd].
    apply Rlt_le. apply Rdiv_lt_0_compat; lra. }
  assert (Huu : u * u = t * t).
  { unfold u.
    replace (sqrt 2 * 1 / r * sd * (sqrt 2 * 1 / r * sd))
      with ((sqrt 2 * sqrt 2) * (sd * sd) / (r * r)) by (field; lra).
    rewrite H22, Hsd2, Hr2. replace 0.5 with (/ 2) by lra. field. lra. }
  nra.
Qed.

(** X23: in the branch of a start from rest a step of the ramp is
    recovered from its distance: for a step that fits 16 bits and whose
    time is before [T_ramp], [getPathStepForDist] applied to the distance
    of [getPathDist] at that step returns that step. *)
Theorem step_round_trip_start_of_ramp (p : CPTG_Holo_Blend) (k step : Z) :
  initialize p = Returns tt ->
  Rabs (k2 p k) > eps \/ Rabs (k4 p k) > eps ->
  Rabs (k2 p k * vxi p * 4 + k4 p k * vyi p * 4) < eps ->
  Rabs (vxi p * vxi p + vyi p * vyi p) < eps ->
  (0 <= step < 65536)%Z ->
  PATH_TIME_STEP * IZR step < T_ramp p ->
  getPathStepForDist p k (getPathDist p k step) = Returns (Some step).
Proof.
  intros Hinit Hk Hb Hc Hs Hin. apply initialize_Returns in Hinit.
  destruct Hinit as (HT & HV & _ & _).
  destruct (blend_coefficients (k2 p k) (k4 p k) (vxi p) (vyi p) Hk)
    as [Ha _].
  pose proof PATH_TIME_STEP_pos as Hq.
  assert (Ht0 : 0 <= PATH_TIME_STEP * IZR step).
  { apply Rmult_le_pos; [lra |]. apply IZR_le. lia. }
  set (t := PATH_TIME_STEP * IZR step) in *.
  set (a := k2 p k * k2 p k * 4 + k4 p k * k4 p k * 4) in *.
  pose proof (sqrt_lt_R0 a Ha) as Hsa.
  assert (Hd : getPathDist p k step = sqrt a * (t * t) * 0.5).
  { unfold getPathDist, dist_at. fold t.
    destruct (Rlt_dec t (T_ramp p)); [| lra].
    apply calc_trans_distance_start_of_ramp; assumption. }
  assert (HdT : distAtRamp p k = sqrt a * (T_ramp p * T_ramp p) * 0.5).
  { unfold distAtRamp.
    apply calc_trans_distance_start_of_ramp; assumption. }
  assert (Hlt : ~ getPathDist p k step >= distAtRamp p k).
  { rewrite Hd, HdT. assert (t * t < T_ramp p * T_ramp p) by nra. nra. }
  rewrite (getPathStepForDist_of_time p k _ _
             (solve_time_start_of_ramp p k _ Hk Hb Hc Hlt)).
  fold a. rewrite Hd, (start_of_ramp_time a t Ha Ht0).
  destruct (Rge_dec t 0); [| lra].
  unfold t. rewrite step_of_step_time by exact Hs. reflexivity.
Qed.

Lemma step_round_trip_start_of_ramp_witness :
  initialize ptg_rest = Returns tt
  /\ (Rabs (k2 ptg_rest 0) > eps \/ Rabs (k4 ptg_rest 0) > eps)
  /\ Rabs (k2 ptg_rest 0 * vxi ptg_rest * 4 + k4 ptg_rest 0 * vyi ptg_rest * 4)
     < eps
  /\ Rabs (vxi ptg_rest * vxi ptg_rest + vyi ptg_rest * vyi ptg_rest) < eps
  /\ (0 <= 40 < 65536)%Z
  /\ PATH_TIME_STEP * IZR 40 < T_ramp ptg_rest
  /\ getPathStepForDist ptg_rest 0 (getPathDist ptg_rest 0 40)
     = Returns (Some 40%Z).
Proof.
  assert (Hi : initialize ptg_rest = Returns tt)
    by (apply initialize_straight_ahead; lra).
  assert (Hb : Rabs (k2 ptg_rest 0 * vxi ptg_rest * 4
                     + k4 ptg_rest 0 * vyi ptg_rest * 4) < eps).
  { replace (vxi ptg_rest) with 0 by reflexivity.
    replace (vyi ptg_rest) with 0 by reflexivity.
    match goal with |- Rabs ?e < _ => replace e with 0 by ring end.
    rewrite Rabs_R0. unfold eps. lra. }
  assert (Hc : Rabs (vxi ptg_rest * vxi ptg_rest + vyi ptg_rest * vyi ptg_rest)
               < eps).
  { replace (vxi ptg_rest) with 0 by reflexivity.
    replace (vyi ptg_rest) with 0 by reflexivity.
    match goal with |- Rabs ?e < _ => replace e with 0 by ring end.
    rewrite Rabs_R0. unfold eps. lra. }
  assert (Hs : (0 <= 40 < 65536)%Z) by lia.
  assert (Hin : PATH_TIME_STEP * IZR 40 < T_ramp ptg_rest).
  { cbn [T_ramp ptg_rest straight_ahead]. unfold PATH_TIME_STEP. lra. }
  split; [exact Hi |]. split; [exact rest_accelerates |].
  split; [exact Hb |]. split; [exact Hc |]. split; [exact Hs |].
  split; [exact Hin |].
  exact (step_round_trip_start_of_ramp ptg_rest 0 40 Hi rest_accelerates
           Hb Hc Hs Hin).
Defined.

(** ** The rate of the heading *)

(** X24: the heading never turns faster than [W_MAX]: on an initialized
    object, between two times from 0 on, it changes by at most [W_MAX]
    times the elapsed time. *)
Theorem heading_rate_bound (p : CPTG_Holo_Blend) (k : Z) (t1 t2 : R) :
  initialize p = Returns tt -> 0 <= t1 -> t1 <= t2 ->
  Rabs (TPose2D.phi (pose_at p k t2) - TPose2D.phi (pose_at p k t1))
  <= W_MAX p * (t2 - t1).
Proof.
  intros Hinit H0 H12. apply initialize_Returns in Hinit.
  destruct Hinit as (_ & _ & HW & _).
  rewrite !heading_closed_form by lra.
  set (D := Rabs (dir p k)). pose proof (Rabs_pos (dir p k)) as HD. fold D in HD.
  assert (Hmin : 0 <= Rmin (t2 * W_MAX p) D - Rmin (t1 * W_MAX p) D
                 <= W_MAX p * (t2 - t1)).
  { unfold Rmin.
    destruct (Rle_dec (t2 * W_MAX p) D); destruct (Rle_dec (t1 * W_MAX p) D);
      split; nra. }
  apply Rabs_le. destruct (Rle_dec 0 (dir p k)); split; nra.
Qed.

Lemma heading_rate_bound_witness :
  initialize ptg_sides = Returns tt /\ 0 <= 0.1 /\ 0.1 <= 0.3
  /\ Rabs (TPose2D.phi (pose_at ptg_sides 0 0.3)
           - TPose2D.phi (pose_at ptg_sides 0 0.1))
     <= W_MAX ptg_sides * (0.3 - 0.1).
Proof.
  assert (Hi : initialize ptg_sides = Returns tt).
  { pose proof PI_RGT_0 as Hpi. unfold initialize, ASSERT_, bind.
    cbn [T_ramp V_MAX W_MAX m_alphaValuesCount ptg_sides].
    destruct (Rgt_dec 1 0) as [_ | H]; [| lra].
    destruct (Rgt_dec PI 0) as [_ | H]; [| lra].
    reflexivity. }
  assert (H0 : 0 <= 0.1) by lra.
  assert (H12 : 0.1 <= 0.3) by lra.
  split; [exact Hi |]. split; [exact H0 |]. split; [exact H12 |].
  exact (heading_rate_bound ptg_sides 0 0.1 0.3 Hi H0 H12).
Defined.
